(** * Government-Website-Backend: listing queries, slugs and the auth gate

    A shallow embedding of the Express handlers of [routes/jobs.ts],
    [routes/admin.ts], [routes/auth.ts] and [middleware/requireAdmin.ts],
    with the Mongoose schemas they write through, followed by the
    properties the specification states about them.

    Conventions.
    - A JavaScript string is a sequence of UTF-16 code units.  The
      development carries the code units 0..255 (Rocq's [ascii]), the range
      in which [toLowerCase] is a per-unit map that needs no Unicode tables.
    - A JavaScript number is a finite value, kept exact as a rational, or one
      of [NaN], [+Infinity], [-Infinity].  The handlers compute on binary64
      doubles, whose sums, differences and products are the exact ones
      whenever the exact one is a double; what is stated of a computed
      offset is stated for the safe integers ([Num.isSafeInteger]), where
      that is the case.  [Double] has the paging arithmetic on doubles
      themselves, for the requests beyond that range.
    - A collection is the list of its documents in insertion order.  A
      handler takes the collection and returns the response together with
      the collection after the request.  Store operations succeed unless a
      schema validator or a unique index rejects the write.
    - Functions imported from modules outside this code base ([../auth.js],
      zod's format checks, [Date]) are fields of the classes [AuthLib] and
      [Runtime]; every result holds for all their instances. *)

From Stdlib Require Import List Bool Arith ZArith NArith QArith Qround Qminmax.
From Stdlib Require Import Lia Lqa String Ascii DecimalString DecimalN.
From Stdlib Require Import Sorting.Sorted Sorting.Permutation Lists.Finite.
From Stdlib Require Floats.PrimFloat Floats.FloatOps Floats.SpecFloat.
Import ListNotations.

Local Close Scope Q_scope.
Local Open Scope string_scope.
Local Open Scope list_scope.

(* ================================================================== *)
(** * Part I: the program *)
(* ================================================================== *)

(** ** JavaScript strings *)

Module Js.

Definition chars (s : string) : list ascii := list_ascii_of_string s.
Definition str (l : list ascii) : string := string_of_list_ascii l.

Definition between (lo hi : N) (c : ascii) : bool :=
  let n := N_of_ascii c in ((lo <=? n) && (n <=? hi))%N.

(** [\s], which is also what [trim()] removes: TAB, LF, VT, FF, CR, SPACE
    and NO-BREAK SPACE are its members below U+0100. *)
Definition isWhiteSpace (c : ascii) : bool :=
  between 9 13 c || between 32 32 c || between 160 160 c.

Definition isLower (c : ascii) : bool := between 97 122 c.
Definition isUpper (c : ascii) : bool := between 65 90 c.
Definition isDigit (c : ascii) : bool := between 48 57 c.
Definition isHyphen (c : ascii) : bool := between 45 45 c.
Definition isAlnum (c : ascii) : bool := isLower c || isDigit c.

Definition hyphen : ascii := "-"%char.
Definition backslash : ascii := ascii_of_nat 92.

(** [String.prototype.toLowerCase] on one code unit: A-Z, and the Latin-1
    capitals U+00C0..U+00DE except the multiplication sign U+00D7. *)
Definition lowerChar (c : ascii) : ascii :=
  if isUpper c || (between 192 222 c && negb (between 215 215 c))
  then ascii_of_N (N_of_ascii c + 32) else c.

Definition toLowerCase (s : string) : string := str (map lowerChar (chars s)).

Fixpoint dropWhile {A} (p : A -> bool) (l : list A) : list A :=
  match l with
  | [] => []
  | c :: t => if p c then dropWhile p t else l
  end.

Definition trimStart (l : list ascii) : list ascii := dropWhile isWhiteSpace l.
Definition trimEnd (l : list ascii) : list ascii :=
  rev (dropWhile isWhiteSpace (rev l)).

(** [String.prototype.trim] *)
Definition trim (s : string) : string := str (trimEnd (trimStart (chars s))).

(** [s.replace(/p+/g, r)] for a one-character class [p]: each maximal run
    of characters of the class becomes one [r], emitted where the run
    ends. *)
Fixpoint replaceRuns (p : ascii -> bool) (r : ascii) (l : list ascii) : list ascii :=
  match l with
  | [] => []
  | c :: t =>
      if p c then
        match t with
        | c' :: _ => if p c' then replaceRuns p r t else r :: replaceRuns p r t
        | [] => [r]
        end
      else c :: replaceRuns p r t
  end.

(** Template-literal rendering of a non-negative integer, [`${i}`]. *)
Definition decimal (n : N) : string := NilZero.string_of_uint (N.to_uint n).

(** Truthiness of a string: only the empty string is falsy. *)
Definition truthy (s : string) : bool := negb (s =? "").

(** [x || d] for an optional string [x]: [undefined] and the empty string
    give [d]. *)
Definition orDefault (x : option string) (d : string) : string :=
  match x with
  | Some s => if truthy s then s else d
  | None => d
  end.

End Js.

(** The 256 code units. *)
Definition everyChar : list ascii := map ascii_of_nat (seq 0 256).

(** ** JavaScript numbers *)

Inductive number : Type :=
| Finite (q : Q)
| NaN
| PosInfinity
| NegInfinity.

Module Num.

Local Open Scope Q_scope.

Definition ofZ (z : Z) : number := Finite (inject_Z z).
Definition ofNat (n : nat) : number := ofZ (Z.of_nat n).

(** [Number.isFinite] *)
Definition isFinite (n : number) : bool :=
  match n with Finite _ => true | _ => false end.

(** [Math.max] and [Math.min] of two arguments. *)
Definition max (a b : number) : number :=
  match a, b with
  | NaN, _ | _, NaN => NaN
  | PosInfinity, _ | _, PosInfinity => PosInfinity
  | NegInfinity, x | x, NegInfinity => x
  | Finite x, Finite y => Finite (if Qle_bool x y then y else x)
  end.

Definition min (a b : number) : number :=
  match a, b with
  | NaN, _ | _, NaN => NaN
  | NegInfinity, _ | _, NegInfinity => NegInfinity
  | PosInfinity, x | x, PosInfinity => x
  | Finite x, Finite y => Finite (if Qle_bool x y then x else y)
  end.

Definition neg (a : number) : number :=
  match a with
  | Finite x => Finite (- x)
  | NaN => NaN
  | PosInfinity => NegInfinity
  | NegInfinity => PosInfinity
  end.

Definition add (a b : number) : number :=
  match a, b with
  | NaN, _ | _, NaN => NaN
  | PosInfinity, NegInfinity | NegInfinity, PosInfinity => NaN
  | PosInfinity, _ | _, PosInfinity => PosInfinity
  | NegInfinity, _ | _, NegInfinity => NegInfinity
  | Finite x, Finite y => Finite (x + y)
  end.

Definition sub (a b : number) : number := add a (neg b).

(** An infinity scaled by a finite factor: the sign of the factor decides,
    and a zero factor gives [NaN]. *)
Definition scaleInf (positive : bool) (x : Q) : number :=
  match (0 ?= x)%Q with
  | Eq => NaN
  | Lt => if positive then PosInfinity else NegInfinity
  | Gt => if positive then NegInfinity else PosInfinity
  end.

Definition mul (a b : number) : number :=
  match a, b with
  | NaN, _ | _, NaN => NaN
  | Finite x, Finite y => Finite (x * y)
  | PosInfinity, Finite x | Finite x, PosInfinity => scaleInf true x
  | NegInfinity, Finite x | Finite x, NegInfinity => scaleInf false x
  | PosInfinity, PosInfinity | NegInfinity, NegInfinity => PosInfinity
  | PosInfinity, NegInfinity | NegInfinity, PosInfinity => NegInfinity
  end.

Definition div (a b : number) : number :=
  match a, b with
  | NaN, _ | _, NaN => NaN
  | Finite x, Finite y =>
      if Qeq_bool y 0
      then match (0 ?= x)%Q with Eq => NaN | Lt => PosInfinity | Gt => NegInfinity end
      else Finite (x / y)
  | Finite _, _ => Finite 0
  | PosInfinity, Finite y => if Qle_bool 0 y then PosInfinity else NegInfinity
  | NegInfinity, Finite y => if Qle_bool 0 y then NegInfinity else PosInfinity
  | _, _ => NaN
  end.

(** [Math.ceil] *)
Definition ceil (a : number) : number :=
  match a with
  | Finite x => ofZ (Qceiling x)
  | other => other
  end.

(** The whole, non-negative numbers: the counts a cursor's [skip] and
    [limit] are given. *)
Definition toCount (a : number) : option nat :=
  match a with
  | Finite x =>
      if Qeq_bool x (inject_Z (Qfloor x)) && (0 <=? Qfloor x)%Z
      then Some (Z.to_nat (Qfloor x)) else None
  | _ => None
  end.

(** [Number.isSafeInteger]: a whole number of magnitude at most
    [2^53 - 1].  The safe integers are doubles, and a sum, difference or
    product of doubles that is a safe integer is computed exactly. *)
Definition isSafeInteger (a : number) : bool :=
  match a with
  | Finite x =>
      Qeq_bool x (inject_Z (Qfloor x)) && (Z.abs (Qfloor x) <=? 2 ^ 53 - 1)%Z
  | _ => false
  end.

End Num.

(** ** Collaborators outside the code base *)

(** A JSON value, as [express.json()] hands the body over. *)
Inductive Json : Type :=
| JNull
| JBool (b : bool)
| JNum (n : Q)
| JStr (s : string)
| JArr (items : list Json)
| JObj (fields : list (string * Json)).

(** A request as the middleware sees it. *)
Record Request : Type := {
  headers : list (string * string);
  body : Json
}.

(** The claims a session token carries ([AdminRequest.auth]). *)
Module Claims.
Record t : Type := {
  sub : string;
  name : option string;
  email : string;
  role : string
}.
End Claims.

(** Why [verifyAuthToken] throws. *)
Inductive TokenError : Type :=
| TokenExpired
| TokenMalformed
| SignatureMismatch.

Inductive Verified : Type :=
| Returns (payload : Claims.t)
| Throws (e : TokenError).

(** The module [../auth.js]. [hashPassword] draws a salt, which the
    environment of the request supplies. *)
Class AuthLib : Type := {
  getTokenFromRequest : Request -> option string;
  verifyAuthToken : string -> Verified;
  signAuthToken : Claims.t -> string;
  createAuthCookie : string -> string;
  hashPassword : string -> string -> string;
  verifyPassword : string -> string -> bool
}.

(** zod's format checks and [Date] parsing.  An address accepted by
    [z.string().email()] has no white space around it. *)
Class Runtime : Type := {
  isUrl : string -> bool;
  isEmail : string -> bool;
  parseDate : string -> option Z;
  isEmail_trimmed : forall s, isEmail s = true -> Js.trim s = s
}.

(** What a handler reads from its surroundings while it runs:
    [Date.now()], the identifier of the next document, the hasher's salt. *)
Record Env : Type := {
  now : N;
  newId : string;
  salt : string
}.

(** ** Documents ([models/Job.ts], [models/User.ts]) *)

Module Job.
Record t : Type := {
  _id : string;
  type : string;
  title : string;
  slug : string;
  department : string;
  state : string;
  qualification : string;
  eligibility : option string;
  ageLimit : option string;
  vacancies : option string;
  salary : option string;
  fees : option string;
  startDate : option Z;
  lastDate : option Z;
  selectionProcess : option string;
  applyLink : string;
  notificationPDF : option string;
  sourceName : string;
  sourceUrl : string;
  isExpired : bool;
  createdAt : N;
  updatedAt : N
}.
End Job.

Module User.
Record t : Type := {
  _id : string;
  name : string;
  email : string;
  password : string;
  role : string;
  createdAt : N;
  updatedAt : N
}.
End User.

(** The failures of a write. *)
Inductive StoreError : Type :=
| DuplicateKey          (* code 11000 *)
| ValidationFailed.

(** ** Responses *)

Inductive Body : Type :=
| ErrorBody (error : string)
| OkBody
| CreatedBody (id slug : string)
| ListBody (items : list Job.t) (total : nat) (page limit totalPages : number).

Record Response : Type := {
  status : nat;
  payload : Body;
  setCookie : option string
}.

(** [res.status(code).json(body)] and [res.json(body)] *)
Definition reply (code : nat) (b : Body) : Response :=
  {| status := code; payload := b; setCookie := None |}.

Definition json (b : Body) : Response := reply 200 b.

(** ** Slug normalisation ([routes/jobs.ts], [routes/admin.ts]) *)

(** The class [[a-z0-9\s-]], whose complement is deleted. *)
Definition slugKeep (c : ascii) : bool :=
  Js.isLower c || Js.isDigit c || Js.isWhiteSpace c || Js.isHyphen c.

(** [.replace(/[^a-z0-9\s-]/g, "")] *)
Definition stripUnsafe (s : string) : string :=
  Js.str (filter slugKeep (Js.chars s)).

(** [.replace(/\s+/g, "-")] *)
Definition spacesToHyphen (s : string) : string :=
  Js.str (Js.replaceRuns Js.isWhiteSpace Js.hyphen (Js.chars s)).

(** [.replace(/-+/g, "-")] *)
Definition collapseHyphens (s : string) : string :=
  Js.str (Js.replaceRuns Js.isHyphen Js.hyphen (Js.chars s)).

(** [function slugify(input)] of [routes/jobs.ts] *)
Definition slugify (input : string) : string :=
  collapseHyphens (spacesToHyphen (Js.trim (stripUnsafe (Js.toLowerCase input)))).

(** [function slugifyInput(input)] of [routes/admin.ts], the same chain *)
Definition slugifyInput (input : string) : string :=
  collapseHyphens (spacesToHyphen (Js.trim (stripUnsafe (Js.toLowerCase input)))).

(** The characters a slug is made of, [[a-z0-9-]]. *)
Definition slugChar (c : ascii) : bool := Js.isAlnum c || Js.isHyphen c.

(** No two neighbouring characters of the class [p]. *)
Fixpoint noAdjacent (p : ascii -> bool) (l : list ascii) : bool :=
  match l with
  | c :: ((c' :: _) as t) => negb (p c && p c') && noAdjacent p t
  | _ => true
  end.

Definition noHyphenPair (s : string) : bool := noAdjacent Js.isHyphen (Js.chars s).

Definition startsWithHyphen (s : string) : bool :=
  match Js.chars s with
  | c :: _ => Js.isHyphen c
  | [] => false
  end.

Definition endsWithHyphen (s : string) : bool :=
  match rev (Js.chars s) with
  | c :: _ => Js.isHyphen c
  | [] => false
  end.

(** The white space of a string, as a string. *)
Definition blanksOf (s : string) : string :=
  Js.str (filter Js.isWhiteSpace (Js.chars s)).

(** What separates the words of a slug: white space and hyphens. *)
Definition slugSeparator (c : ascii) : bool := Js.isWhiteSpace c || Js.isHyphen c.

(** A word is a non-empty run of letters and digits, a gap a non-empty run
    of white space. *)
Definition wordChar (c : ascii) : bool := Js.isAlnum c || Js.isUpper c.

Definition isWord (w : string) : bool :=
  Js.truthy w && forallb wordChar (Js.chars w).

Definition isGap (g : string) : bool :=
  Js.truthy g && forallb Js.isWhiteSpace (Js.chars g).

(** A first word followed by gap, word, gap, word, ...: the title they
    spell, and the same words with one hyphen for each gap. *)
Fixpoint spelled (first : string) (rest : list (string * string)) : string :=
  match rest with
  | [] => first
  | (gap, word) :: rest' => first ++ gap ++ spelled word rest'
  end.

Fixpoint hyphenated (first : string) (rest : list (string * string)) : string :=
  match rest with
  | [] => first
  | (_, word) :: rest' => first ++ "-" ++ hyphenated word rest'
  end.

(** [Job.exists({ slug })] *)
Definition slugTaken (store : list Job.t) (slug : string) : bool :=
  existsb (fun d => Job.slug d =? slug) store.

(** The candidate tried at index [i]: the base itself at 1, then
    [`${normalized}-${i}`]. *)
Definition candidate (normalized : string) (i : N) : string :=
  if (i <=? 1)%N then normalized
  else (normalized ++ "-" ++ Js.decimal i)%string.

(** The [while] loop of [ensureUniqueSlug], entered with [slug] and the
    next suffix [i]; [fuel] bounds the number of probes. *)
Fixpoint probe (fuel : nat) (store : list Job.t) (normalized slug : string) (i : N)
  : option string :=
  match fuel with
  | O => None
  | S fuel' =>
      if slugTaken store slug
      then probe fuel' store normalized (normalized ++ "-" ++ Js.decimal i)%string (i + 1)%N
      else Some slug
  end.

(** A store of [n] documents holds at most [n] slugs, so [n + 1] probes
    reach a free candidate. *)
Definition probeBound (store : list Job.t) : nat := S (List.length store).

(** [async function ensureUniqueSlug(base)] of [routes/jobs.ts] *)
Definition ensureUniqueSlug (env : Env) (store : list Job.t) (base : string)
  : option string :=
  let normalized := slugify base in
  if negb (Js.truthy normalized) then Some ("job-" ++ Js.decimal (now env))%string
  else probe (probeBound store) store normalized normalized 2.

(** [async function ensureUniqueSlug(base)] of [routes/admin.ts] *)
Definition ensureUniqueSlugAdmin (env : Env) (store : list Job.t) (base : string)
  : option string :=
  let normalized := slugifyInput base in
  if negb (Js.truthy normalized) then Some ("job-" ++ Js.decimal (now env))%string
  else probe (probeBound store) store normalized normalized 2.

(** ** The access gate ([middleware/requireAdmin.ts]) *)

Inductive Gate : Type :=
| Respond (r : Response)
| Next (auth : Claims.t).

Definition requireAdmin `{AuthLib} (req : Request) : Gate :=
  match getTokenFromRequest req with
  | None => Respond (reply 401 (ErrorBody "Unauthorized"))
  | Some token =>
      if negb (Js.truthy token) then Respond (reply 401 (ErrorBody "Unauthorized"))
      else
        match verifyAuthToken token with
        | Returns payload =>
            if negb (Claims.role payload =? "admin")
            then Respond (reply 403 (ErrorBody "Forbidden"))
            else Next payload
        | Throws _ => Respond (reply 401 (ErrorBody "Unauthorized"))
        end
  end.

(** The two refusals of the gate. *)
Definition unauthorized : Response := reply 401 (ErrorBody "Unauthorized").
Definition forbidden : Response := reply 403 (ErrorBody "Forbidden").

(** ** Input validation (zod schemas) *)

Notation "x <- e ;; k" := (match e with Some x => k | None => None end)
  (at level 61, e at next level, right associativity).

(** The own property [k] of an object, [None] when it is [undefined]. *)
Definition prop (k : string) (o : list (string * Json)) : option Json :=
  match find (fun kv => fst kv =? k) o with
  | Some kv => Some (snd kv)
  | None => None
  end.

(** [z.string().min(n)] *)
Definition zString (n : nat) (v : option Json) : option string :=
  match v with
  | Some (JStr s) => if (n <=? String.length s)%nat then Some s else None
  | _ => None
  end.

(** [z.string().optional()] *)
Definition zStringOpt (v : option Json) : option (option string) :=
  match v with
  | None => Some None
  | Some (JStr s) => Some (Some s)
  | _ => None
  end.

(** [z.string().url()] and [z.string().url().optional()] *)
Definition zUrl `{Runtime} (v : option Json) : option string :=
  match v with
  | Some (JStr s) => if isUrl s then Some s else None
  | _ => None
  end.

Definition zUrlOpt `{Runtime} (v : option Json) : option (option string) :=
  match v with
  | None => Some None
  | Some (JStr s) => if isUrl s then Some (Some s) else None
  | _ => None
  end.

(** [z.string().email()] *)
Definition zEmail `{Runtime} (v : option Json) : option string :=
  match v with
  | Some (JStr s) => if isEmail s then Some s else None
  | _ => None
  end.

Definition jobTypes : list string := ["job"; "result"; "admit-card"].

Definition isJobType (s : string) : bool := existsb (String.eqb s) jobTypes.

(** [z.enum(["job", "result", "admit-card"]).default("job")] *)
Definition zJobType (v : option Json) : option string :=
  match v with
  | None => Some "job"
  | Some (JStr s) => if isJobType s then Some s else None
  | _ => None
  end.

(** The value of [jobInputSchema]: unknown keys of the body, [isExpired]
    among them, are not part of it. *)
Module Input.
Record t : Type := {
  type : string;
  title : string;
  department : string;
  state : string;
  qualification : string;
  eligibility : option string;
  ageLimit : option string;
  vacancies : option string;
  salary : option string;
  fees : option string;
  startDate : option string;
  lastDate : option string;
  selectionProcess : option string;
  applyLink : string;
  notificationPDF : option string;
  sourceName : string;
  sourceUrl : string
}.
End Input.

(** [jobInputSchema.safeParse(req.body)], [None] when [success] is false. *)
Definition parseJobInput `{Runtime} (b : Json) : option Input.t :=
  match b with
  | JObj o =>
      ty <- zJobType (prop "type" o) ;;
      ti <- zString 3 (prop "title" o) ;;
      de <- zString 2 (prop "department" o) ;;
      st <- zString 2 (prop "state" o) ;;
      qu <- zString 2 (prop "qualification" o) ;;
      el <- zStringOpt (prop "eligibility" o) ;;
      ag <- zStringOpt (prop "ageLimit" o) ;;
      va <- zStringOpt (prop "vacancies" o) ;;
      sa <- zStringOpt (prop "salary" o) ;;
      fe <- zStringOpt (prop "fees" o) ;;
      sd <- zStringOpt (prop "startDate" o) ;;
      ld <- zStringOpt (prop "lastDate" o) ;;
      sp <- zStringOpt (prop "selectionProcess" o) ;;
      al <- zUrl (prop "applyLink" o) ;;
      pd <- zUrlOpt (prop "notificationPDF" o) ;;
      match prop "source" o with
      | Some (JObj so) =>
          sn <- zString 2 (prop "name" so) ;;
          su <- zUrl (prop "url" so) ;;
          Some {| Input.type := ty; Input.title := ti; Input.department := de;
                  Input.state := st; Input.qualification := qu;
                  Input.eligibility := el; Input.ageLimit := ag;
                  Input.vacancies := va; Input.salary := sa; Input.fees := fe;
                  Input.startDate := sd; Input.lastDate := ld;
                  Input.selectionProcess := sp; Input.applyLink := al;
                  Input.notificationPDF := pd;
                  Input.sourceName := sn; Input.sourceUrl := su |}
      | _ => None
      end
  | _ => None
  end.

(** [function toDate(input?: string)] *)
Definition toDate `{Runtime} (input : option string) : option Z :=
  match input with
  | None => None
  | Some s => if negb (Js.truthy s) then None else parseDate s
  end.

(** [function toDateInput(input?: string)] of [routes/admin.ts] *)
Definition toDateInput `{Runtime} (input : option string) : option Z :=
  match input with
  | None => None
  | Some s => if negb (Js.truthy s) then None else parseDate s
  end.

(** ** Writing a listing ([Job.create] through [jobSchema]) *)

(** The object handed to [Job.create]: the parsed input spread first, then
    [slug], the two dates and [isExpired: false]. *)
Definition newJob (data : Input.t) (slug : string) (startDate lastDate : option Z)
  : Job.t :=
  {| Job._id := ""; Job.type := Input.type data; Job.title := Input.title data;
     Job.slug := slug;
     Job.department := Input.department data; Job.state := Input.state data;
     Job.qualification := Input.qualification data;
     Job.eligibility := Input.eligibility data; Job.ageLimit := Input.ageLimit data;
     Job.vacancies := Input.vacancies data; Job.salary := Input.salary data;
     Job.fees := Input.fees data;
     Job.startDate := startDate; Job.lastDate := lastDate;
     Job.selectionProcess := Input.selectionProcess data;
     Job.applyLink := Input.applyLink data;
     Job.notificationPDF := Input.notificationPDF data;
     Job.sourceName := Input.sourceName data; Job.sourceUrl := Input.sourceUrl data;
     Job.isExpired := false;
     Job.createdAt := 0%N; Job.updatedAt := 0%N |}.

(** The schema's setters ([trim: true]), the identifier and the timestamps. *)
Definition castJob (env : Env) (d : Job.t) : Job.t :=
  {| Job._id := newId env; Job.type := Job.type d;
     Job.title := Js.trim (Job.title d);
     Job.slug := Job.slug d;
     Job.department := Js.trim (Job.department d);
     Job.state := Js.trim (Job.state d);
     Job.qualification := Js.trim (Job.qualification d);
     Job.eligibility := Job.eligibility d; Job.ageLimit := Job.ageLimit d;
     Job.vacancies := Job.vacancies d; Job.salary := Job.salary d;
     Job.fees := Job.fees d;
     Job.startDate := Job.startDate d; Job.lastDate := Job.lastDate d;
     Job.selectionProcess := Job.selectionProcess d;
     Job.applyLink := Job.applyLink d;
     Job.notificationPDF := Job.notificationPDF d;
     Job.sourceName := Job.sourceName d; Job.sourceUrl := Job.sourceUrl d;
     Job.isExpired := Job.isExpired d;
     Job.createdAt := now env; Job.updatedAt := now env |}.

(** The schema's validators: the [enum] of [type] and the [required]
    strings, which reject the empty string. *)
Definition jobValid (d : Job.t) : bool :=
  isJobType (Job.type d) && Js.truthy (Job.title d) && Js.truthy (Job.slug d)
  && Js.truthy (Job.department d) && Js.truthy (Job.state d)
  && Js.truthy (Job.qualification d).

(** The unique indexes, on [slug] and on [source.url]. *)
Definition jobIndexClash (store : list Job.t) (d : Job.t) : bool :=
  existsb (fun x => (Job.slug x =? Job.slug d) || (Job.sourceUrl x =? Job.sourceUrl d))
          store.

(** [Job.create(doc)] *)
Definition Job_create (env : Env) (d : Job.t) (store : list Job.t)
  : StoreError + (Job.t * list Job.t) :=
  let doc := castJob env d in
  if negb (jobValid doc) then inl ValidationFailed
  else if jobIndexClash store doc then inl DuplicateKey
  else inr (doc, store ++ [doc]).

(** ** [POST /api/jobs] and [POST /api/admin/jobs] *)

(** The handler of [routes/jobs.ts] once the body has been parsed. *)
Definition createJob `{Runtime} (env : Env) (data : Input.t) (store : list Job.t)
  : option (Response * list Job.t) :=
  slug <- ensureUniqueSlug env store (Input.title data) ;;
  match Job_create env
          (newJob data slug (toDate (Input.startDate data)) (toDate (Input.lastDate data)))
          store with
  | inr (doc, store') => Some (json (CreatedBody (Job._id doc) (Job.slug doc)), store')
  | inl DuplicateKey =>
      Some (reply 409 (ErrorBody "Duplicate job (source URL already exists)"), store)
  | inl _ => Some (reply 500 (ErrorBody "Failed to create job"), store)
  end.

(** [router.post("/", requireAdmin, ...)] of [routes/jobs.ts].  [None]
    stands for a slug loop that does not finish. *)
Definition postJob `{AuthLib} `{Runtime} (env : Env) (req : Request) (store : list Job.t)
  : option (Response * list Job.t) :=
  match requireAdmin req with
  | Respond r => Some (r, store)
  | Next _ =>
      match parseJobInput (body req) with
      | None => Some (reply 400 (ErrorBody "Invalid input"), store)
      | Some data => createJob env data store
      end
  end.

(** The handler of [routes/admin.ts] once the body has been parsed. *)
Definition createJobAdmin `{Runtime} (env : Env) (data : Input.t) (store : list Job.t)
  : option (Response * list Job.t) :=
  slug <- ensureUniqueSlugAdmin env store (Input.title data) ;;
  match Job_create env
          (newJob data slug (toDateInput (Input.startDate data))
                  (toDateInput (Input.lastDate data)))
          store with
  | inr (doc, store') => Some (json (CreatedBody (Job._id doc) (Job.slug doc)), store')
  | inl DuplicateKey =>
      Some (reply 409 (ErrorBody "Duplicate job (source URL already exists)"), store)
  | inl _ => Some (reply 500 (ErrorBody "Failed to create job"), store)
  end.

(** [router.post("/jobs", requireAdmin, ...)] of [routes/admin.ts] *)
Definition postAdminJob `{AuthLib} `{Runtime} (env : Env) (req : Request)
  (store : list Job.t) : option (Response * list Job.t) :=
  match requireAdmin req with
  | Respond r => Some (r, store)
  | Next _ =>
      match parseJobInput (body req) with
      | None => Some (reply 400 (ErrorBody "Invalid input"), store)
      | Some data => createJobAdmin env data store
      end
  end.

(** Creations one after the other, each on the store the previous one
    left: the responses in order, and the final store. *)
Fixpoint createAll `{Runtime} (work : list (Env * Input.t)) (store : list Job.t)
  : option (list Response * list Job.t) :=
  match work with
  | [] => Some ([], store)
  | (env, data) :: rest =>
      match createJob env data store with
      | Some (r, store') =>
          match createAll rest store' with
          | Some (rs, final) => Some (r :: rs, final)
          | None => None
          end
      | None => None
      end
  end.

(** The slug a response announces. *)
Definition assignedSlug (r : Response) : option string :=
  match payload r with
  | CreatedBody _ s => Some s
  | _ => None
  end.

(** The slugs a run of creations handed out, in order. *)
Definition assigned (rs : list Response) : list string :=
  flat_map (fun r => match assignedSlug r with Some s => [s] | None => [] end) rs.

(** [base], [base-2], ..., [base-n] *)
Definition slugSeries (base : string) (n : nat) : list string :=
  map (fun j => candidate base (N.of_nat j)) (seq 1 n).

(** Of the series [base], [base-2], ... exactly the first [K] are taken. *)
Definition seriesTaken (b : string) (K : nat) (store : list Job.t) : Prop :=
  forall j, (1 <= j)%N -> slugTaken store (candidate b j) = (j <=? N.of_nat K)%N.

(** ** Search patterns *)

(** The class [[.*+?^${}()|[\]\\]] of [escapeRegex], as character codes. *)
Definition escapeClass : list nat :=
  [46; 42; 43; 63; 94; 36; 123; 125; 40; 41; 124; 91; 93; 92].

Definition inClass (cls : list nat) (c : ascii) : bool :=
  existsb (Nat.eqb (nat_of_ascii c)) cls.

(** [function escapeRegex(input)]: the replacement ["\\$&"] puts a backslash
    before the matched character. *)
Definition escapeRegex (input : string) : string :=
  Js.str (flat_map (fun c => if inClass escapeClass c then [Js.backslash; c] else [c])
                   (Js.chars input)).

(** The pattern engine behind [$regex].  Outside a character class the
    characters with a meaning of their own are the backslash and
    [^ $ . [ | ( ) ? * + {]; the closing [\]] and [}] are counted with
    them.  A backslash before a character that is neither a letter nor a
    digit makes that character stand for itself; before a letter or a digit
    it starts an escape sequence. *)
Definition engineMeta (c : ascii) : bool :=
  match c with
  | "^"%char | "$"%char | "."%char | "["%char | "]"%char | "|"%char
  | "("%char | ")"%char | "?"%char | "*"%char | "+"%char | "{"%char | "}"%char => true
  | _ => Ascii.eqb c Js.backslash
  end.

Definition engineEscapeSequence (c : ascii) : bool :=
  Js.isLower c || Js.isUpper c || Js.isDigit c.

(** What a pattern is to the engine: the text it stands for when every
    character stands for itself, or a pattern with operators, whose
    compilation can fail with a syntax error. *)
Inductive Pattern : Type :=
| Literal (text : list ascii)
| Operators.

Definition literalCons (c : ascii) (p : Pattern) : Pattern :=
  match p with
  | Literal t => Literal (c :: t)
  | Operators => Operators
  end.

Fixpoint compilePattern (l : list ascii) : Pattern :=
  match l with
  | [] => Literal []
  | c :: t =>
      if Ascii.eqb c Js.backslash then
        match t with
        | e :: t' =>
            if engineEscapeSequence e then Operators
            else literalCons e (compilePattern t')
        | [] => Operators
        end
      else if engineMeta c then Operators
      else literalCons c (compilePattern t)
  end.

(** Matching at the head of the subject, ignoring case. *)
Fixpoint prefixCI (needle hay : list ascii) : bool :=
  match needle, hay with
  | [], _ => true
  | a :: n', b :: h' => Ascii.eqb (Js.lowerChar a) (Js.lowerChar b) && prefixCI n' h'
  | _ :: _, [] => false
  end.

(** An unanchored match with option [i]: somewhere in the subject. *)
Fixpoint includesCI (needle hay : list ascii) : bool :=
  prefixCI needle hay ||
  match hay with
  | [] => false
  | _ :: h' => includesCI needle h'
  end.

(** The text [q] occurs in [s], letter case aside. *)
Definition occursCI (q s : string) : Prop :=
  exists pre mid post,
    Js.chars s = pre ++ mid ++ post /\
    map Js.lowerChar mid = map Js.lowerChar (Js.chars q).

(** ** The listing query ([GET /api/jobs]) *)

Inductive JobField : Type := FTitle | FDepartment | FState | FQualification.

Definition fieldOf (f : JobField) (d : Job.t) : string :=
  match f with
  | FTitle => Job.title d
  | FDepartment => Job.department d
  | FState => Job.state d
  | FQualification => Job.qualification d
  end.

(** [{ field: { $regex: regex, $options: options } }] *)
Record RegexCond : Type := {
  field : JobField;
  regex : string;
  options : string
}.

Module Filter.
Record t : Type := {
  type : string;
  isExpired : option bool;
  state : option string;
  qualification : option string;
  department : option string;
  or : option (list RegexCond)
}.
End Filter.

(** The query string.  [page] and [limit] hold the value after [Number],
    [None] when the parameter is missing or empty, the cases in which
    [||] takes the default. *)
Module Query.
Record t : Type := {
  type : option string;
  q : option string;
  state : option string;
  qualification : option string;
  department : option string;
  includeExpired : option string;
  page : option number;
  limit : option number
}.
End Query.

(** [typeof v === "string" ? v.trim() : undefined], then the truthiness
    test of [if (v)]. *)
Definition trimmedParam (v : option string) : option string :=
  match v with
  | Some s => if Js.truthy (Js.trim s) then Some (Js.trim s) else None
  | None => None
  end.

(** [String(req.query.includeExpired || EMPTY) === "1"], [EMPTY] the empty
    string. *)
Definition includeExpired (rq : Query.t) : bool :=
  Js.orDefault (Query.includeExpired rq) "" =? "1".

(** [Number(req.query.page || "1")] and [Number(req.query.limit || "20")] *)
Definition pageOf (rq : Query.t) : number :=
  match Query.page rq with
  | Some n => n
  | None => Num.ofZ 1
  end.

Definition limitOf (rq : Query.t) : number :=
  match Query.limit rq with
  | Some n => n
  | None => Num.ofZ 20
  end.

Definition pageSafe (rq : Query.t) : number :=
  if Num.isFinite (pageOf rq) then Num.max (pageOf rq) (Num.ofZ 1) else Num.ofZ 1.

Definition limitSafe (rq : Query.t) : number :=
  Num.min
    (Num.max (if Num.isFinite (limitOf rq) then limitOf rq else Num.ofZ 20) (Num.ofZ 1))
    (Num.ofZ 50).

(** [(pageSafe - 1) * limitSafe], as the exact difference and product: the
    handler's doubles wherever these are safe integers. *)
Definition skip (rq : Query.t) : number :=
  Num.mul (Num.sub (pageSafe rq) (Num.ofZ 1)) (limitSafe rq).

(** [pageSafe], [limitSafe] and [skip] of the same handler on binary64
    doubles, the numbers [Number(...)] returns. *)
Module Double.

Import PrimFloat.

(** [Number.isFinite] *)
Definition isFinite (x : float) : bool := negb (is_nan x || is_infinity x).

(** [Math.max] and [Math.min] of two arguments: [NaN] when one of them is,
    and [+0] above [-0]. *)
Definition max (a b : float) : float :=
  if is_nan a || is_nan b then nan
  else if ltb a b then b
  else if ltb b a then a
  else if get_sign a then b else a.

Definition min (a b : float) : float :=
  if is_nan a || is_nan b then nan
  else if ltb a b then a
  else if ltb b a then b
  else if get_sign a then a else b.

(** [Number.isFinite(page) ? Math.max(page, 1) : 1] *)
Definition pageSafe (page : float) : float :=
  if isFinite page then max page 1%float else 1%float.

(** [Math.min(Math.max(Number.isFinite(limit) ? limit : 20, 1), 50)] *)
Definition limitSafe (limit : float) : float :=
  min (max (if isFinite limit then limit else 20%float) 1%float) 50%float.

(** [(pageSafe - 1) * limitSafe] *)
Definition skip (page limit : float) : float :=
  mul (sub (pageSafe page) 1%float) (limitSafe limit).

(** The value of a double, in lowest terms. *)
Definition value (x : float) : number :=
  match FloatOps.Prim2SF x with
  | SpecFloat.S754_zero _ => Finite 0
  | SpecFloat.S754_infinity negative => if negative then NegInfinity else PosInfinity
  | SpecFloat.S754_nan => NaN
  | SpecFloat.S754_finite negative m e =>
      let magnitude :=
        if (0 <=? e)%Z then inject_Z (Zpos m * 2 ^ e)
        else Qred (Qmake (Zpos m) (2 ^ Z.to_pos (- e))) in
      Finite (if negative then Qopp magnitude else magnitude)
  end.

End Double.

Definition searchConds (safe : string) : list RegexCond :=
  [ {| field := FTitle; regex := safe; options := "i" |};
    {| field := FDepartment; regex := safe; options := "i" |};
    {| field := FState; regex := safe; options := "i" |};
    {| field := FQualification; regex := safe; options := "i" |} ].

Definition buildFilter (rq : Query.t) : Filter.t :=
  {| Filter.type := Js.orDefault (Query.type rq) "job";
     Filter.isExpired := if negb (includeExpired rq) then Some false else None;
     Filter.state := trimmedParam (Query.state rq);
     Filter.qualification := trimmedParam (Query.qualification rq);
     Filter.department := trimmedParam (Query.department rq);
     Filter.or :=
       match trimmedParam (Query.q rq) with
       | Some q => Some (searchConds (escapeRegex q))
       | None => None
       end |}.

(** The fields the search looks into. *)
Definition searchedFields : list JobField := [FTitle; FDepartment; FState; FQualification].

(** *** The store's side of the query *)

Definition equalsIfSet (want : option string) (have : string) : bool :=
  match want with
  | Some w => w =? have
  | None => true
  end.

(** A regular-expression condition on a document, [None] when the engine
    meets operators, which this development does not interpret. *)
Definition condHolds (c : RegexCond) (d : Job.t) : option bool :=
  match compilePattern (Js.chars (regex c)) with
  | Literal text =>
      if options c =? "i" then Some (includesCI text (Js.chars (fieldOf (field c) d)))
      else None
  | Operators => None
  end.

Fixpoint anyCond (conds : list RegexCond) (d : Job.t) : option bool :=
  match conds with
  | [] => Some false
  | c :: rest =>
      a <- condHolds c d ;;
      b <- anyCond rest d ;;
      Some (a || b)
  end.

Definition matchesFields (f : Filter.t) (d : Job.t) : bool :=
  (Filter.type f =? Job.type d)
  && match Filter.isExpired f with
     | Some b => Bool.eqb b (Job.isExpired d)
     | None => true
     end
  && equalsIfSet (Filter.state f) (Job.state d)
  && equalsIfSet (Filter.qualification f) (Job.qualification d)
  && equalsIfSet (Filter.department f) (Job.department d).

Definition matches (f : Filter.t) (d : Job.t) : option bool :=
  match Filter.or f with
  | Some conds => b <- anyCond conds d ;; Some (matchesFields f d && b)
  | None => Some (matchesFields f d)
  end.

(** The documents a filter selects. *)
Definition selects (f : Filter.t) (d : Job.t) : bool :=
  match matches f d with
  | Some b => b
  | None => false
  end.

(** [Job.find(filter)] *)
Fixpoint Job_find (f : Filter.t) (store : list Job.t) : option (list Job.t) :=
  match store with
  | [] => Some []
  | d :: rest =>
      b <- matches f d ;;
      found <- Job_find f rest ;;
      Some (if b then d :: found else found)
  end.

(** [.sort({ createdAt: -1 })]: insertion from the right, an earlier
    document staying ahead of a later one created at the same instant. *)
Fixpoint insertNewest (d : Job.t) (sorted : list Job.t) : list Job.t :=
  match sorted with
  | [] => [d]
  | x :: rest =>
      if (Job.createdAt x <=? Job.createdAt d)%N then d :: sorted
      else x :: insertNewest d rest
  end.

Fixpoint sortNewestFirst (l : list Job.t) : list Job.t :=
  match l with
  | [] => []
  | d :: rest => insertNewest d (sortNewestFirst rest)
  end.

(** Newest first. *)
Definition newerFirst (a b : Job.t) : Prop := (Job.createdAt b <= Job.createdAt a)%N.

(** A parameter that is missing, not finite, or a fraction with
    denominator 1. *)
Definition wholeNumber (n : option number) : bool :=
  match n with
  | Some (Finite x) => Pos.eqb (Qden x) 1
  | _ => true
  end.

(** [router.get("/", ...)] of [routes/jobs.ts].  [None] where the model
    stops: a [skip] or [limit] that is not a whole number, or a pattern with
    operators. *)
Definition getJobs (rq : Query.t) (store : list Job.t) : option Response :=
  sk <- Num.toCount (skip rq) ;;
  lim <- Num.toCount (limitSafe rq) ;;
  found <- Job_find (buildFilter rq) store ;;
  let items := firstn lim (skipn sk (sortNewestFirst found)) in
  let total := List.length found in
  Some (json (ListBody items total (pageSafe rq) (limitSafe rq)
                (Num.max (Num.ceil (Num.div (Num.ofNat total) (limitSafe rq)))
                         (Num.ofZ 1)))).

(** ** Accounts ([routes/auth.ts] through [userSchema]) *)

(** [User.exists({ email })] and [User.findOne({ email })] *)
Definition User_exists (users : list User.t) (email : string) : bool :=
  existsb (fun u => User.email u =? email) users.

Definition User_findOne (users : list User.t) (email : string) : option User.t :=
  find (fun u => User.email u =? email) users.

Definition isRole (s : string) : bool := (s =? "user") || (s =? "admin").

(** The setters of [userSchema] ([trim], [lowercase]), the identifier and
    the timestamps. *)
Definition castUser (env : Env) (name email password role : string) : User.t :=
  {| User._id := newId env;
     User.name := Js.trim name;
     User.email := Js.trim (Js.toLowerCase email);
     User.password := password;
     User.role := role;
     User.createdAt := now env; User.updatedAt := now env |}.

(** Its validators: the [required] strings and the [enum] of [role]. *)
Definition userValid (u : User.t) : bool :=
  Js.truthy (User.name u) && Js.truthy (User.email u)
  && Js.truthy (User.password u) && isRole (User.role u).

(** [User.create({ name, email, password, role })], with the unique index
    on [email]. *)
Definition User_create (env : Env) (name email password role : string)
  (users : list User.t) : StoreError + (User.t * list User.t) :=
  let doc := castUser env name email password role in
  if negb (userValid doc) then inl ValidationFailed
  else if User_exists users (User.email doc) then inl DuplicateKey
  else inr (doc, users ++ [doc]).

(** [registerSchema.safeParse(req.body)] *)
Definition parseRegister `{Runtime} (b : Json) : option (string * string * string) :=
  match b with
  | JObj o =>
      name <- zString 2 (prop "name" o) ;;
      email <- zEmail (prop "email" o) ;;
      password <- zString 8 (prop "password" o) ;;
      Some (name, email, password)
  | _ => None
  end.

(** The answer to an address that is taken. *)
Definition conflict : Response := reply 409 (ErrorBody "Email already registered").

(** [router.post("/register", ...)].  The handler awaits between its
    existence check and its insert: [seen] is the collection the check
    reads, [users] the collection the insert meets. *)
Definition registerAt `{AuthLib} `{Runtime} (env : Env) (req : Request)
  (seen users : list User.t) : Response * list User.t :=
  match parseRegister (body req) with
  | None => (reply 400 (ErrorBody "Invalid input"), users)
  | Some (name, email, password) =>
      if User_exists seen (Js.toLowerCase email)
      then (reply 409 (ErrorBody "Email already registered"), users)
      else
        let password := hashPassword (salt env) password in
        match User_create env (Js.trim name) (Js.toLowerCase email) password "user" users with
        | inr (_, users') => (reply 201 OkBody, users')
        | inl DuplicateKey => (reply 409 (ErrorBody "Email already registered"), users)
        | inl _ => (reply 500 (ErrorBody "Registration failed"), users)
        end
  end.

(** The handler with no other writer in between. *)
Definition register `{AuthLib} `{Runtime} (env : Env) (req : Request)
  (users : list User.t) : Response * list User.t :=
  registerAt env req users users.

(** [loginSchema.safeParse(req.body)] *)
Definition parseLogin `{Runtime} (b : Json) : option (string * string) :=
  match b with
  | JObj o =>
      email <- zEmail (prop "email" o) ;;
      password <- zString 1 (prop "password" o) ;;
      Some (email, password)
  | _ => None
  end.

(** [router.post("/login", ...)] *)
Definition login `{AuthLib} `{Runtime} (req : Request) (users : list User.t) : Response :=
  match parseLogin (body req) with
  | None => reply 400 (ErrorBody "Invalid input")
  | Some (email, password) =>
      match User_findOne users (Js.toLowerCase email) with
      | None => reply 401 (ErrorBody "Invalid email or password")
      | Some user =>
          if negb (verifyPassword password (User.password user))
          then reply 401 (ErrorBody "Invalid email or password")
          else
            let token :=
              signAuthToken
                {| Claims.sub := User._id user;
                   Claims.name := if Js.truthy (User.name user)
                                  then Some (User.name user) else None;
                   Claims.email := User.email user;
                   Claims.role := if User.role user =? "admin" then "admin" else "user" |} in
            {| status := 200; payload := OkBody; setCookie := Some (createAuthCookie token) |}
      end
  end.

(* ================================================================== *)
(** * Part I, continued: the other routes and modules *)
(* ================================================================== *)

(** ** Further response bodies *)

(** A row of a grouped count, [{ <field>: String(_id), count: Number(count) }]. *)
Record Row : Type := {
  key : string;
  count : nat
}.

Inductive Payload : Type :=
| ItemsOnly (items : list Job.t)                    (* { items } *)
| Item (item : Job.t)                               (* { item } *)
| Rows (rows : list Row)                            (* { rows } *)
| Stats (jobs results admitCards : nat)             (* { jobs, results, admitCards } *)
| Me (user : option Claims.t)                       (* { authenticated, user? } *)
| CronSummary (inserted duplicates expiredMarked totalScraped : nat).

(** What a handler sent: a response of the shapes above with status 200, or
    one of the earlier shapes. *)
Inductive Answer : Type :=
| Sent (p : Payload)
| Plain (r : Response).

Definition notFound : Response := reply 404 (ErrorBody "Not found").

(** ** The other reads of [routes/jobs.ts] *)

(** [{ type, isExpired: false }] *)
Definition liveOfType (type : string) : Filter.t :=
  {| Filter.type := type; Filter.isExpired := Some false; Filter.state := None;
     Filter.qualification := None; Filter.department := None; Filter.or := None |}.

(** [Math.min(Math.max(limit, 1), 50)] of [GET /latest], where [limit] is
    not tested for finiteness. *)
Definition latestLimit (rq : Query.t) : number :=
  Num.min (Num.max (limitOf rq) (Num.ofZ 1)) (Num.ofZ 50).

(** What the store does with a limit that is not a whole number from 1 on
    ([NaN], a fraction): the documents it hands back, or [None] when it
    throws.  The store is outside this code base. *)
Class Cursor : Type := {
  limitOther : number -> list Job.t -> option (list Job.t)
}.

(** [.limit(n)] on the documents a query has found and sorted. *)
Definition Cursor_limit `{Cursor} (n : number) (found : list Job.t)
  : option (list Job.t) :=
  match Num.toCount n with
  | Some (S k) => Some (firstn (S k) found)
  | _ => limitOther n found
  end.

(** [router.get("/latest", ...)].  The handler does not catch: [None] is the
    store throwing, with nothing sent. *)
Definition getLatest `{Cursor} (rq : Query.t) (store : list Job.t) : option Answer :=
  found <- Job_find (liveOfType (Js.orDefault (Query.type rq) "job")) store ;;
  items <- Cursor_limit (latestLimit rq) (sortNewestFirst found) ;;
  Some (Sent (ItemsOnly items)).

(** [$group: { _id: "$field", count: { $sum: 1 } }]: one row per value, in
    the order the values are first met. *)
Fixpoint bump (k : string) (rows : list Row) : list Row :=
  match rows with
  | [] => [ {| key := k; count := 1 |} ]
  | r :: rest =>
      if key r =? k then {| key := key r; count := S (count r) |} :: rest
      else r :: bump k rest
  end.

Definition groupCount (keys : list string) : list Row :=
  fold_left (fun rows k => bump k rows) keys [].

(** [$sort: { count: -1, _id: 1 }]: the larger count first, and of two rows
    with equal counts the one whose key compares smaller, code unit by code
    unit. *)
Definition rowBefore (a b : Row) : bool :=
  (count b <? count a)%nat || ((count a =? count b)%nat && (key a <=? key b)).

Fixpoint insertRow (r : Row) (sorted : list Row) : list Row :=
  match sorted with
  | [] => [r]
  | x :: rest => if rowBefore r x then r :: sorted else x :: insertRow r rest
  end.

Fixpoint sortRows (rows : list Row) : list Row :=
  match rows with
  | [] => []
  | r :: rest => insertRow r (sortRows rest)
  end.

(** [Job.aggregate([{ $match }, { $group }, { $sort }])] on the field read
    by [read]. *)
Definition countsBy (read : Job.t -> string) (type : string) (store : list Job.t)
  : list Row :=
  sortRows (groupCount (map read (filter (matchesFields (liveOfType type)) store))).

(** [router.get("/counts/state", ...)], [".../qualification"] and
    [".../department"] *)
Definition getCountsState (rq : Query.t) (store : list Job.t) : Answer :=
  Sent (Rows (countsBy Job.state (Js.orDefault (Query.type rq) "job") store)).

Definition getCountsQualification (rq : Query.t) (store : list Job.t) : Answer :=
  Sent (Rows (countsBy Job.qualification (Js.orDefault (Query.type rq) "job") store)).

Definition getCountsDepartment (rq : Query.t) (store : list Job.t) : Answer :=
  Sent (Rows (countsBy Job.department (Js.orDefault (Query.type rq) "job") store)).

(** [Job.findOne({ slug })] *)
Definition Job_findOneBySlug (store : list Job.t) (slug : string) : option Job.t :=
  find (fun d => Job.slug d =? slug) store.

(** [router.get("/slug/:slug", ...)] *)
Definition getBySlug (slug : string) (store : list Job.t) : Answer :=
  match Job_findOneBySlug store slug with
  | None => Plain notFound
  | Some doc => Sent (Item doc)
  end.

(** ** Documents by identifier *)

(** Whether a string casts to an [ObjectId]; when it does not, the
    [findById...] operations throw. *)
Class ObjectIds : Type := {
  isObjectId : string -> bool
}.

(** The first document with the identifier, and the store without it. *)
Fixpoint takeById (id : string) (store : list Job.t) : option (Job.t * list Job.t) :=
  match store with
  | [] => None
  | d :: rest =>
      if Job._id d =? id then Some (d, rest)
      else match takeById id rest with
           | Some (x, rest') => Some (x, d :: rest')
           | None => None
           end
  end.

(** The outcome of an operation that can throw. *)
Inductive Outcome (A : Type) : Type :=
| Done (a : A)
| Threw (e : StoreError).

Arguments Done {A} a.
Arguments Threw {A} e.

(** [Job.findByIdAndDelete(id)]: the deleted document or [null], and the
    store afterwards. *)
Definition Job_findByIdAndDelete `{ObjectIds} (id : string) (store : list Job.t)
  : Outcome (option Job.t * list Job.t) :=
  if negb (isObjectId id) then Threw ValidationFailed
  else match takeById id store with
       | Some (d, rest) => Done (Some d, rest)
       | None => Done (None, store)
       end.

(** [Job.findById(id)] *)
Definition Job_findById `{ObjectIds} (id : string) (store : list Job.t)
  : Outcome (option Job.t) :=
  if negb (isObjectId id) then Threw ValidationFailed
  else Done (find (fun d => Job._id d =? id) store).

(** [router.delete("/:id", requireAdmin, ...)] of [routes/jobs.ts] and
    [router.delete("/jobs/:id", requireAdmin, ...)] of [routes/admin.ts],
    which have the same body.  Neither catches: [None] is the handler
    ending in the exception of the store, with nothing sent. *)
Definition deleteJob `{AuthLib} `{ObjectIds} (req : Request) (id : string)
  (store : list Job.t) : option Response * list Job.t :=
  match requireAdmin req with
  | Respond r => (Some r, store)
  | Next _ =>
      match Job_findByIdAndDelete id store with
      | Threw _ => (None, store)
      | Done (None, store') => (Some notFound, store')
      | Done (Some _, store') => (Some (json OkBody), store')
      end
  end.

(** ** The reads of [routes/admin.ts] *)

(** [router.get("/jobs", requireAdmin, ...)]:
    [Job.find({}).sort({ createdAt: -1 }).limit(200)] *)
Definition adminListJobs `{AuthLib} (req : Request) (store : list Job.t) : Answer :=
  match requireAdmin req with
  | Respond r => Plain r
  | Next _ => Sent (ItemsOnly (firstn 200 (sortNewestFirst store)))
  end.

(** [router.get("/jobs/:id", requireAdmin, ...)], which does not catch
    either. *)
Definition adminGetJob `{AuthLib} `{ObjectIds} (req : Request) (id : string)
  (store : list Job.t) : option Answer :=
  match requireAdmin req with
  | Respond r => Some (Plain r)
  | Next _ =>
      match Job_findById id store with
      | Threw _ => None
      | Done None => Some (Plain notFound)
      | Done (Some doc) => Some (Sent (Item doc))
      end
  end.

(** [Job.countDocuments({ type, isExpired: false })] *)
Definition countLive (type : string) (store : list Job.t) : nat :=
  List.length (filter (matchesFields (liveOfType type)) store).

(** [router.get("/stats", requireAdmin, ...)] *)
Definition adminStats `{AuthLib} (req : Request) (store : list Job.t) : Answer :=
  match requireAdmin req with
  | Respond r => Plain r
  | Next _ =>
      Sent (Stats (countLive "job" store) (countLive "result" store)
                  (countLive "admit-card" store))
  end.

(** ** [PUT /api/admin/jobs/:id] *)

(** The keys of [updateSchema]; [.strict()] refuses a body with any other. *)
Definition updateKeys : list string :=
  [ "type"; "title"; "department"; "state"; "qualification"; "eligibility";
    "ageLimit"; "vacancies"; "salary"; "fees"; "startDate"; "lastDate";
    "selectionProcess"; "applyLink"; "notificationPDF"; "source"; "isExpired" ].

(** [schema.optional()] over a schema [z]: a missing key is fine and stays
    missing. *)
Definition zOptional {A} (z : option Json -> option A) (v : option Json)
  : option (option A) :=
  match v with
  | None => Some None
  | Some _ => match z v with
              | Some a => Some (Some a)
              | None => None
              end
  end.

(** [z.enum(["job", "result", "admit-card"])] and [z.boolean()] *)
Definition zJobTypeStrict (v : option Json) : option string :=
  match v with
  | Some (JStr s) => if isJobType s then Some s else None
  | _ => None
  end.

Definition zBoolean (v : option Json) : option bool :=
  match v with
  | Some (JBool b) => Some b
  | _ => None
  end.

(** [z.object({ name: z.string().min(2), url: z.string().url() })] *)
Definition zSource `{Runtime} (v : option Json) : option (string * string) :=
  match v with
  | Some (JObj so) =>
      sn <- zString 2 (prop "name" so) ;;
      su <- zUrl (prop "url" so) ;;
      Some (sn, su)
  | _ => None
  end.

(** The value of [updateSchema], then the two dates replaced as the handler
    does: a key that is present stays present, with the date or
    [undefined]. *)
Module Update.
Record t : Type := {
  type : option string;
  title : option string;
  department : option string;
  state : option string;
  qualification : option string;
  eligibility : option string;
  ageLimit : option string;
  vacancies : option string;
  salary : option string;
  fees : option string;
  startDate : option (option Z);
  lastDate : option (option Z);
  selectionProcess : option string;
  applyLink : option string;
  notificationPDF : option string;
  source : option (string * string);
  isExpired : option bool
}.
End Update.

(** [updateSchema.safeParse(req.body)] followed by
    [if ("startDate" in update) update.startDate = toDate(update.startDate)]
    and the same for [lastDate]. *)
Definition parseUpdate `{Runtime} (b : Json) : option Update.t :=
  match b with
  | JObj o =>
      if negb (forallb (fun kv => existsb (String.eqb (fst kv)) updateKeys) o) then None
      else
        ty <- zOptional zJobTypeStrict (prop "type" o) ;;
        ti <- zOptional (zString 3) (prop "title" o) ;;
        de <- zOptional (zString 2) (prop "department" o) ;;
        st <- zOptional (zString 2) (prop "state" o) ;;
        qu <- zOptional (zString 2) (prop "qualification" o) ;;
        el <- zStringOpt (prop "eligibility" o) ;;
        ag <- zStringOpt (prop "ageLimit" o) ;;
        va <- zStringOpt (prop "vacancies" o) ;;
        sa <- zStringOpt (prop "salary" o) ;;
        fe <- zStringOpt (prop "fees" o) ;;
        sd <- zStringOpt (prop "startDate" o) ;;
        ld <- zStringOpt (prop "lastDate" o) ;;
        sp <- zStringOpt (prop "selectionProcess" o) ;;
        al <- zOptional zUrl (prop "applyLink" o) ;;
        pd <- zUrlOpt (prop "notificationPDF" o) ;;
        so <- zOptional zSource (prop "source" o) ;;
        ex <- zOptional zBoolean (prop "isExpired" o) ;;
        Some {| Update.type := ty; Update.title := ti; Update.department := de;
                Update.state := st; Update.qualification := qu;
                Update.eligibility := el; Update.ageLimit := ag;
                Update.vacancies := va; Update.salary := sa; Update.fees := fe;
                Update.startDate := option_map (fun s => toDate (Some s)) sd;
                Update.lastDate := option_map (fun s => toDate (Some s)) ld;
                Update.selectionProcess := sp; Update.applyLink := al;
                Update.notificationPDF := pd; Update.source := so;
                Update.isExpired := ex |}
  | _ => None
  end.

(** [Job.findByIdAndUpdate(id, update, { new: true })], the store's own
    operation: the updated document or [null] with the store afterwards, or
    the error it throws. *)
Class Updates : Type := {
  Job_findByIdAndUpdate :
    string -> Update.t -> list Job.t -> Outcome (option Job.t * list Job.t)
}.

(** [router.put("/jobs/:id", requireAdmin, ...)] *)
Definition putJob `{AuthLib} `{Runtime} `{Updates} (req : Request) (id : string)
  (store : list Job.t) : Response * list Job.t :=
  match requireAdmin req with
  | Respond r => (r, store)
  | Next _ =>
      match parseUpdate (body req) with
      | None => (reply 400 (ErrorBody "Invalid input"), store)
      | Some update =>
          match Job_findByIdAndUpdate id update store with
          | Done (None, store') => (notFound, store')
          | Done (Some _, store') => (json OkBody, store')
          | Threw DuplicateKey =>
              (reply 409 (ErrorBody "Duplicate job (source URL already exists)"), store)
          | Threw _ => (reply 500 (ErrorBody "Failed to update job"), store)
          end
      end
  end.

(** ** Reading the pages of [GET /jobs] one after the other *)

(** The same query for another page. *)
Definition withPage (rq : Query.t) (p : nat) : Query.t :=
  {| Query.type := Query.type rq; Query.q := Query.q rq; Query.state := Query.state rq;
     Query.qualification := Query.qualification rq;
     Query.department := Query.department rq;
     Query.includeExpired := Query.includeExpired rq;
     Query.page := Some (Num.ofNat p); Query.limit := Query.limit rq |}.

(** The [items] of an answer of [GET /jobs], none when there is no answer. *)
Definition itemsOf (r : option Response) : list Job.t :=
  match r with
  | Some {| payload := ListBody items _ _ _ _ |} => items
  | _ => []
  end.

(** The pages [1 .. n], put end to end. *)
Definition pagesUpTo (rq : Query.t) (store : list Job.t) (n : nat) : list Job.t :=
  flat_map (fun p => itemsOf (getJobs (withPage rq p) store)) (seq 1 n).

(** ** The other routes of [routes/auth.ts] and [routes/admin.ts] *)

(** [router.get("/me", ...)] *)
Definition me `{AuthLib} (req : Request) : Answer :=
  match getTokenFromRequest req with
  | None => Sent (Me None)
  | Some token =>
      if negb (Js.truthy token) then Sent (Me None)
      else
        match verifyAuthToken token with
        | Returns payload => Sent (Me (Some payload))
        | Throws _ => Sent (Me None)
        end
  end.

(** The schema of [POST /setup]:
    [{ token: z.string().min(1), email: z.string().email(),
       password: z.string().min(10) }] *)
Definition parseSetup `{Runtime} (b : Json) : option (string * string * string) :=
  match b with
  | JObj o =>
      token <- zString 1 (prop "token" o) ;;
      email <- zEmail (prop "email" o) ;;
      password <- zString 10 (prop "password" o) ;;
      Some (token, email, password)
  | _ => None
  end.

(** Truthiness of an optional setting of [env]. *)
Definition isSet (setting : option string) : bool :=
  match setting with
  | Some s => Js.truthy s
  | None => false
  end.

(** [a === b] for a string and an optional setting. *)
Definition sameAs (a : string) (setting : option string) : bool :=
  match setting with
  | Some s => a =? s
  | None => false
  end.

(** [router.post("/setup", ...)], with [env.ADMIN_SETUP_TOKEN] as
    [configured].  The handler does not catch: when [User.create] throws,
    nothing is sent ([None]). *)
Definition setup `{AuthLib} `{Runtime} (configured : option string) (env : Env)
  (req : Request) (users : list User.t) : option Response * list User.t :=
  match parseSetup (body req) with
  | None => (Some (reply 400 (ErrorBody "Invalid input")), users)
  | Some (token, email, password) =>
      if negb (isSet configured)
      then (Some (reply 400 (ErrorBody "ADMIN_SETUP_TOKEN is not configured")), users)
      else if negb (sameAs token configured)
      then (Some (reply 401 (ErrorBody "Invalid setup token")), users)
      else if User_exists users (Js.toLowerCase email)
      then (Some (reply 409 (ErrorBody "Email already registered")), users)
      else
        let password := hashPassword (salt env) password in
        match User_create env "Admin" (Js.toLowerCase email) password "admin" users with
        | inr (_, users') => (Some (json OkBody), users')
        | inl _ => (None, users)
        end
  end.

(** The claims [POST /login] signs for a user. *)
Definition claimsOf (user : User.t) : Claims.t :=
  {| Claims.sub := User._id user;
     Claims.name := if Js.truthy (User.name user) then Some (User.name user) else None;
     Claims.email := User.email user;
     Claims.role := if User.role user =? "admin" then "admin" else "user" |}.

(** ** The cron route ([routes/cron.ts]) *)

(** [req.headers[name]] *)
Definition header (name : string) (req : Request) : option string :=
  match find (fun h => fst h =? name) (headers req) with
  | Some h => Some (snd h)
  | None => None
  end.

(** [hay.includes(needle)] *)
Fixpoint startsWithChars (needle hay : list ascii) : bool :=
  match needle, hay with
  | [], _ => true
  | a :: n', b :: h' => Ascii.eqb a b && startsWithChars n' h'
  | _ :: _, [] => false
  end.

Fixpoint includesChars (needle hay : list ascii) : bool :=
  startsWithChars needle hay ||
  match hay with
  | [] => false
  | _ :: h' => includesChars needle h'
  end.

Definition includes (needle hay : string) : bool :=
  includesChars (Js.chars needle) (Js.chars hay).

(** [s.startsWith(p)] and [s.slice(n)] *)
Definition startsWith (p s : string) : bool :=
  startsWithChars (Js.chars p) (Js.chars s).

Definition slice (n : nat) (s : string) : string := Js.str (skipn n (Js.chars s)).

(** [function isAuthorized(req)], with [env.CRON_SCRAPE_TOKEN] as
    [configured] and [req.query.token] as [queryToken], absent when it is
    not a string. *)
Definition isAuthorized (configured : option string) (req : Request)
  (queryToken : option string) : bool :=
  let ua := Js.orDefault (header "user-agent" req) "" in
  if includes "vercel-cron/1.0" ua then true
  else if negb (isSet configured) then false
  else
    let header := Js.orDefault (header "authorization" req) "" in
    if startsWith "Bearer " header
    then sameAs (slice (String.length "Bearer ") header) configured
    else
      let token := match queryToken with Some t => t | None => "" end in
      if Js.truthy token && sameAs token configured then true else false.

(** [router.get("/daily", ...)] *)
Definition cronDaily (configured : option string) (req : Request)
  (queryToken : option string) : Answer :=
  if negb (isAuthorized configured req queryToken)
  then Plain (reply 401 (ErrorBody "Unauthorized"))
  else Sent (CronSummary 0 0 0 0).

(** ** Settings ([env.ts]) *)

(** [function emptyToUndefined(value)] on a variable of the environment,
    which is a string or [undefined]. *)
Definition emptyToUndefined (value : option string) : option string :=
  match value with
  | None => None
  | Some s =>
      let trimmed := Js.trim s in
      if (0 <? String.length trimmed)%nat then Some trimmed else None
  end.

(** A field's verdict: the value, or an issue. *)
Inductive Parsed (A : Type) : Type :=
| Valid (a : A)
| Issue.

Arguments Valid {A} a.
Arguments Issue {A}.

(** [z.preprocess(emptyToUndefined, z.string().min(n).optional())] *)
Definition optionalSecret (n : nat) (value : option string) : Parsed (option string) :=
  match emptyToUndefined value with
  | None => Valid None
  | Some s => if (n <=? String.length s)%nat then Valid (Some s) else Issue
  end.

(** The fields [ADMIN_SETUP_TOKEN] and [CRON_SCRAPE_TOKEN] of [envSchema] *)
Definition adminSetupTokenField : option string -> Parsed (option string) :=
  optionalSecret 24.

Definition cronScrapeTokenField : option string -> Parsed (option string) :=
  optionalSecret 16.

(** ** The connection cache ([db.ts]) *)

Inductive PromiseState : Type := Pending | Fulfilled | Rejected.

(** [globalCache], and what has happened around it: the calls of
    [mongoose.connect], the callers suspended at [await], those that got the
    connection and those that got the exception. *)
Record Db : Type := {
  conn : bool;
  promise : option PromiseState;
  connects : nat;
  awaiting : nat;
  returned : nat;
  thrown : nat
}.

Definition freshDb : Db :=
  {| conn := false; promise := None; connects := 0;
     awaiting := 0; returned := 0; thrown := 0 |}.

(** What can happen next: a request calls [connectToDatabase] and runs to
    its [return] or its [await]; the pending connection succeeds or fails;
    a suspended caller is resumed. *)
Inductive DbEvent : Type :=
| Call
| Settle (ok : bool)
| Resume.

Definition dbStep (e : DbEvent) (s : Db) : option Db :=
  match e with
  | Call =>
      if conn s
      then Some {| conn := conn s; promise := promise s; connects := connects s;
                   awaiting := awaiting s; returned := S (returned s);
                   thrown := thrown s |}
      else
        match promise s with
        | None =>
            Some {| conn := conn s; promise := Some Pending;
                    connects := S (connects s);
                    awaiting := S (awaiting s); returned := returned s;
                    thrown := thrown s |}
        | Some _ =>
            Some {| conn := conn s; promise := promise s; connects := connects s;
                    awaiting := S (awaiting s); returned := returned s;
                    thrown := thrown s |}
        end
  | Settle ok =>
      match promise s with
      | Some Pending =>
          Some {| conn := conn s;
                  promise := Some (if ok then Fulfilled else Rejected);
                  connects := connects s; awaiting := awaiting s;
                  returned := returned s; thrown := thrown s |}
      | _ => None
      end
  | Resume =>
      match awaiting s, promise s with
      | S n, Some Fulfilled =>
          Some {| conn := true; promise := promise s; connects := connects s;
                  awaiting := n; returned := S (returned s); thrown := thrown s |}
      | S n, Some Rejected =>
          Some {| conn := conn s; promise := promise s; connects := connects s;
                  awaiting := n; returned := returned s; thrown := S (thrown s) |}
      | _, _ => None
      end
  end.

(** A history of events from a state, [None] when an event cannot happen
    where it stands. *)
Fixpoint dbRun (events : list DbEvent) (s : Db) : option Db :=
  match events with
  | [] => Some s
  | e :: rest =>
      match dbStep e s with
      | Some s' => dbRun rest s'
      | None => None
      end
  end.

(** What holds of the cache and the counters in every reachable state, the
    calls among the events, and the callers a state accounts for. *)
Definition dbInvariant (s : Db) : Prop :=
  match promise s with
  | None =>
      connects s = 0%nat /\ conn s = false /\ awaiting s = 0%nat /\
      returned s = 0%nat /\ thrown s = 0%nat
  | Some Pending =>
      connects s = 1%nat /\ conn s = false /\ returned s = 0%nat /\ thrown s = 0%nat
  | Some Fulfilled =>
      connects s = 1%nat /\ thrown s = 0%nat /\ (conn s = false -> returned s = 0%nat)
  | Some Rejected =>
      connects s = 1%nat /\ conn s = false /\ returned s = 0%nat
  end.

Definition isCall (e : DbEvent) : bool :=
  match e with Call => true | _ => false end.

Definition callers (s : Db) : nat := (awaiting s + returned s + thrown s)%nat.


(** ** Sample collaborators and documents *)

Module Sample.

(** A token is the role it grants; two tokens fail to verify. *)
Definition verify (token : string) : Verified :=
  if token =? "expired" then Throws TokenExpired
  else if token =? "garbage" then Throws TokenMalformed
  else Returns {| Claims.sub := "u1"; Claims.name := None;
                  Claims.email := "root@example.org"; Claims.role := token |}.

Definition cookieOf (req : Request) : option string :=
  match find (fun h => fst h =? "cookie") (headers req) with
  | Some h => Some (snd h)
  | None => None
  end.

#[export] Instance auth : AuthLib := {
  getTokenFromRequest := cookieOf;
  verifyAuthToken := verify;
  signAuthToken := fun c => ("signed:" ++ Claims.sub c)%string;
  createAuthCookie := fun t => ("auth=" ++ t)%string;
  hashPassword := fun salt pw => (salt ++ "$" ++ pw)%string;
  verifyPassword := fun pw hash => hash =? ("s" ++ "$" ++ pw)%string
}.

Definition hasAt (s : string) : bool := existsb (Ascii.eqb "@"%char) (Js.chars s).

Definition email (s : string) : bool := (Js.trim s =? s) && hasAt s.

Definition email_trimmed (s : string) (H : email s = true) : Js.trim s = s :=
  proj1 (String.eqb_eq (Js.trim s) s) (proj1 (andb_prop _ _ H)).

#[export] Instance runtime : Runtime := {
  isUrl := fun s => prefix "http" s;
  isEmail := email;
  parseDate := fun _ => None;
  isEmail_trimmed := email_trimmed
}.

Definition env (t : N) : Env := {| now := t; newId := Js.decimal t; salt := "s" |}.

Definition adminReq (b : Json) : Request :=
  {| headers := [("cookie", "admin")]; body := b |}.

Definition input (title url : string) : Input.t :=
  {| Input.type := "job"; Input.title := title; Input.department := "Health";
     Input.state := "Kerala"; Input.qualification := "BSc";
     Input.eligibility := None; Input.ageLimit := None; Input.vacancies := None;
     Input.salary := None; Input.fees := None; Input.startDate := None;
     Input.lastDate := None; Input.selectionProcess := None;
     Input.applyLink := "https://apply.example.org"; Input.notificationPDF := None;
     Input.sourceName := "Gazette"; Input.sourceUrl := url |}.

Definition jobBody (title url : string) (extra : list (string * Json)) : Json :=
  JObj ([("title", JStr title); ("department", JStr "Health"); ("state", JStr "Kerala");
         ("qualification", JStr "BSc"); ("applyLink", JStr "https://apply.example.org");
         ("source", JObj [("name", JStr "Gazette"); ("url", JStr url)])] ++ extra).

Definition job (slug title : string) (expired : bool) (t : N) : Job.t :=
  {| Job._id := Js.decimal t; Job.type := "job"; Job.title := title; Job.slug := slug;
     Job.department := "Health"; Job.state := "Kerala"; Job.qualification := "BSc";
     Job.eligibility := None; Job.ageLimit := None; Job.vacancies := None;
     Job.salary := None; Job.fees := None; Job.startDate := None; Job.lastDate := None;
     Job.selectionProcess := None; Job.applyLink := "https://apply.example.org";
     Job.notificationPDF := None; Job.sourceName := "Gazette";
     Job.sourceUrl := ("https://src.example.org/" ++ slug)%string;
     Job.isExpired := expired; Job.createdAt := t; Job.updatedAt := t |}.

Definition query : Query.t :=
  {| Query.type := None; Query.q := None; Query.state := None;
     Query.qualification := None; Query.department := None;
     Query.includeExpired := None; Query.page := None; Query.limit := None |}.

Definition paged (page limit : option number) : Query.t :=
  {| Query.type := None; Query.q := None; Query.state := None;
     Query.qualification := None; Query.department := None;
     Query.includeExpired := None; Query.page := page; Query.limit := limit |}.

Definition withExpired : Query.t :=
  {| Query.type := None; Query.q := None; Query.state := None;
     Query.qualification := None; Query.department := None;
     Query.includeExpired := Some "1"; Query.page := None; Query.limit := None |}.

Definition cookieReq (cookie : string) : Request :=
  {| headers := [("cookie", cookie)]; body := JNull |}.

Definition user (email hash : string) : User.t :=
  {| User._id := "u1"; User.name := "Asha"; User.email := email;
     User.password := hash; User.role := "user";
     User.createdAt := 1%N; User.updatedAt := 1%N |}.

Definition credentials (name email password : string) : Request :=
  {| headers := [];
     body := JObj [("name", JStr name); ("email", JStr email);
                   ("password", JStr password)] |}.

(** Identifiers: any string that is not empty casts. *)
#[export] Instance ids : ObjectIds := {
  isObjectId := fun s => Js.truthy s
}.

(** A store that takes a limit it cannot read for no limit. *)
#[export] Instance cursor : Cursor := {
  limitOther := fun _ found => Some found
}.

(** A store whose update finds nothing. *)
#[export] Instance updates : Updates := {
  Job_findByIdAndUpdate := fun _ _ store => Done (None, store)
}.

(** The doubles of [page=9007199254740992] and [page=1e308], and of some
    smaller parameters. *)
Import PrimFloat.

Definition twoTo53 : float := 9007199254740992%float.
Definition tenTo308 : float := 0x1.1ccf385ebc8ap+1023%float.
Definition three : float := 3%float.
Definition ten : float := 10%float.
Definition twenty : float := 20%float.
Definition fifty : float := 50%float.

End Sample.

(* ================================================================== *)
(** * Part II: properties *)
(* ================================================================== *)

(** ** Strings and characters *)

Lemma chars_str l : Js.chars (Js.str l) = l.
Proof. apply list_ascii_of_string_of_list_ascii. Qed.

Lemma str_chars s : Js.str (Js.chars s) = s.
Proof. apply string_of_list_ascii_of_string. Qed.

Lemma chars_app s t : Js.chars (s ++ t)%string = Js.chars s ++ Js.chars t.
Proof. induction s as [|c s IH]; simpl; [reflexivity | now rewrite IH]. Qed.

Lemma chars_inj s t : Js.chars s = Js.chars t -> s = t.
Proof. intros E. rewrite <- (str_chars s), <- (str_chars t). now rewrite E. Qed.

Lemma chars_length s : List.length (Js.chars s) = String.length s.
Proof. induction s as [|c s IH]; simpl; [reflexivity | now rewrite IH]. Qed.

Lemma truthy_false s : Js.truthy s = false <-> s = "".
Proof.
  unfold Js.truthy. rewrite negb_false_iff. apply String.eqb_eq.
Qed.

Lemma truthy_true s : Js.truthy s = true <-> s <> "".
Proof.
  unfold Js.truthy. rewrite negb_true_iff. apply String.eqb_neq.
Qed.

(** A property checked on all 256 code units holds of each. *)
Lemma everyChar_complete c : In c everyChar.
Proof.
  unfold everyChar. rewrite <- (ascii_nat_embedding c).
  apply in_map, in_seq. pose proof (nat_ascii_bounded c). lia.
Qed.

Lemma by_cases_on_char (P : ascii -> bool) :
  forallb P everyChar = true -> forall c, P c = true.
Proof.
  intros H c. rewrite forallb_forall in H. apply H, everyChar_complete.
Qed.

Lemma lowerChar_idempotent c : Js.lowerChar (Js.lowerChar c) = Js.lowerChar c.
Proof.
  apply Ascii.eqb_eq. revert c. apply by_cases_on_char. vm_compute. reflexivity.
Qed.

Lemma lowerChar_space c : Js.isWhiteSpace (Js.lowerChar c) = Js.isWhiteSpace c.
Proof.
  apply eqb_prop. revert c. apply by_cases_on_char. vm_compute. reflexivity.
Qed.

Lemma space_not_alnum c : Js.isWhiteSpace c = true -> Js.isAlnum c = false.
Proof.
  intros H. generalize (by_cases_on_char
    (fun c => negb (Js.isWhiteSpace c && Js.isAlnum c)) eq_refl c).
  rewrite H. simpl. now rewrite negb_true_iff.
Qed.

Lemma hyphen_not_alnum c : Js.isHyphen c = true -> Js.isAlnum c = false.
Proof.
  intros H. generalize (by_cases_on_char
    (fun c => negb (Js.isHyphen c && Js.isAlnum c)) eq_refl c).
  rewrite H. simpl. now rewrite negb_true_iff.
Qed.

Lemma alnum_kept c : Js.isAlnum c = true -> slugKeep c = true.
Proof.
  unfold Js.isAlnum, slugKeep. intros H.
  apply orb_prop in H. destruct H as [-> | ->]; [reflexivity|].
  now rewrite orb_true_r.
Qed.

Lemma toLowerCase_idempotent s :
  Js.toLowerCase (Js.toLowerCase s) = Js.toLowerCase s.
Proof.
  unfold Js.toLowerCase. rewrite chars_str, map_map. f_equal.
  apply map_ext, lowerChar_idempotent.
Qed.

(** ** Runs and trimming *)

Section ReplaceRuns.
Variable p : ascii -> bool.
Variable r : ascii.

Lemma replaceRuns_cons_keep c t :
  p c = false -> Js.replaceRuns p r (c :: t) = c :: Js.replaceRuns p r t.
Proof. intros H. simpl. now rewrite H. Qed.

Lemma replaceRuns_Forall (q : ascii -> bool) l :
  q r = true ->
  (forall c, In c l -> p c = false -> q c = true) ->
  forallb q (Js.replaceRuns p r l) = true.
Proof.
  intros Hr. induction l as [|c t IH]; intros Hq; [reflexivity|].
  assert (IH' : forallb q (Js.replaceRuns p r t) = true)
    by (apply IH; intros; apply Hq; simpl; auto).
  cbn [Js.replaceRuns]. destruct (p c) eqn:Hc.
  - destruct t as [|c' t']; [simpl; now rewrite Hr|].
    destruct (p c'); [exact IH'|].
    cbn [forallb]. now rewrite Hr, IH'.
  - cbn [forallb]. rewrite IH', (Hq c); simpl; auto.
Qed.

Lemma replaceRuns_filter (q : ascii -> bool) l :
  q r = false ->
  (forall c, p c = true -> q c = false) ->
  filter q (Js.replaceRuns p r l) = filter q l.
Proof.
  intros Hr Hpq. induction l as [|c t IH]; [reflexivity|].
  cbn [Js.replaceRuns]. destruct (p c) eqn:Hc.
  - cbn [filter]. rewrite (Hpq c Hc).
    destruct t as [|c' t']; [cbn; now rewrite Hr|].
    destruct (p c'); [exact IH|].
    cbn [filter]. rewrite Hr. exact IH.
  - cbn [filter]. now rewrite IH.
Qed.

Hypothesis class_r : p r = true.

Lemma replaceRuns_noAdjacent l : noAdjacent p (Js.replaceRuns p r l) = true.
Proof.
  induction l as [|c t IH]; [reflexivity|].
  cbn [Js.replaceRuns]. destruct (p c) eqn:Hc.
  - destruct t as [|c' t']; [reflexivity|].
    destruct (p c') eqn:Hc'; [exact IH|].
    rewrite (replaceRuns_cons_keep c' t' Hc') in *.
    change (negb (p r && p c') && noAdjacent p (c' :: Js.replaceRuns p r t') = true).
    now rewrite Hc', andb_false_r, IH.
  - destruct (Js.replaceRuns p r t) as [|x t'] eqn:E; [reflexivity|].
    cbn [noAdjacent]. rewrite Hc. exact IH.
Qed.

End ReplaceRuns.

Lemma dropWhile_incl {A} (p : A -> bool) l : incl (Js.dropWhile p l) l.
Proof.
  induction l as [|c t IH]; simpl; [easy|].
  destruct (p c); [now apply incl_tl | apply incl_refl].
Qed.

Lemma dropWhile_filter {A} (p q : A -> bool) l :
  (forall c, p c = true -> q c = false) ->
  filter q (Js.dropWhile p l) = filter q l.
Proof.
  intros Hpq. induction l as [|c t IH]; simpl; [reflexivity|].
  destruct (p c) eqn:Hc; [now rewrite (Hpq c Hc) | reflexivity].
Qed.

Lemma dropWhile_all {A} (p : A -> bool) ws l :
  forallb p ws = true -> Js.dropWhile p (ws ++ l) = Js.dropWhile p l.
Proof.
  induction ws as [|w ws IH]; simpl; [reflexivity|].
  destruct (p w); [exact IH | discriminate].
Qed.

Lemma dropWhile_map {A} (p : A -> bool) (f : A -> A) l :
  (forall c, p (f c) = p c) ->
  Js.dropWhile p (map f l) = map f (Js.dropWhile p l).
Proof.
  intros Hf. induction l as [|c t IH]; simpl; [reflexivity|].
  rewrite Hf. destruct (p c); [exact IH | reflexivity].
Qed.

Lemma trimEnd_incl l : incl (Js.trimEnd l) l.
Proof.
  unfold Js.trimEnd. intros c Hc. apply in_rev in Hc.
  apply dropWhile_incl in Hc. now apply in_rev.
Qed.

Lemma trimEnd_filter q l :
  (forall c, Js.isWhiteSpace c = true -> q c = false) ->
  filter q (Js.trimEnd l) = filter q l.
Proof.
  intros H. unfold Js.trimEnd.
  rewrite filter_rev, (dropWhile_filter _ q _ H), filter_rev.
  apply rev_involutive.
Qed.

Lemma trim_chars s : Js.chars (Js.trim s) = Js.trimEnd (Js.trimStart (Js.chars s)).
Proof. unfold Js.trim. apply chars_str. Qed.

(** White space around a text does not survive [trim]. *)
Lemma trim_padding ws l ws' :
  forallb Js.isWhiteSpace ws = true -> forallb Js.isWhiteSpace ws' = true ->
  Js.trimEnd (Js.trimStart (ws ++ l ++ ws')) = Js.trimEnd (Js.trimStart l).
Proof.
  intros H H'. unfold Js.trimStart. rewrite (dropWhile_all _ ws _ H).
  assert (E : forall m, Js.trimEnd (m ++ ws') = Js.trimEnd m).
  { intros m. unfold Js.trimEnd. rewrite rev_app_distr.
    rewrite dropWhile_all; [reflexivity|].
    rewrite forallb_forall in *. intros c Hc. apply H'. now apply in_rev. }
  destruct (forallb Js.isWhiteSpace l) eqn:Hl.
  - (* the text itself is blank: everything goes *)
    assert (D : forall m, forallb Js.isWhiteSpace m = true ->
                          Js.dropWhile Js.isWhiteSpace m = []).
    { induction m as [|c m IH]; simpl; [reflexivity|].
      destruct (Js.isWhiteSpace c); [exact IH | discriminate]. }
    rewrite (D l Hl). rewrite D; [reflexivity|].
    rewrite forallb_app. now rewrite Hl, H'.
  - (* the first character that is not blank is in [l] *)
    assert (D : forall m, forallb Js.isWhiteSpace m = false ->
                Js.dropWhile Js.isWhiteSpace (m ++ ws')
                = Js.dropWhile Js.isWhiteSpace m ++ ws').
    { induction m as [|c m IH]; simpl; [discriminate|].
      destruct (Js.isWhiteSpace c); [exact IH | reflexivity]. }
    rewrite (D l Hl). apply E.
Qed.

(** ** Slug normalisation *)

Lemma slugify_chars title :
  Js.chars (slugify title)
  = Js.replaceRuns Js.isHyphen Js.hyphen
      (Js.replaceRuns Js.isWhiteSpace Js.hyphen
         (Js.trimEnd (Js.trimStart
            (filter slugKeep (map Js.lowerChar (Js.chars title)))))).
Proof.
  unfold slugify, collapseHyphens, spacesToHyphen, stripUnsafe, Js.toLowerCase.
  now rewrite trim_chars, !chars_str.
Qed.

Lemma slugifyInput_is_slugify title : slugifyInput title = slugify title.
Proof. reflexivity. Qed.

Lemma filter_narrow {A} (p q : A -> bool) l :
  (forall c, p c = true -> q c = true) -> filter p (filter q l) = filter p l.
Proof.
  intros H. induction l as [|c t IH]; simpl; [reflexivity|].
  destruct (q c) eqn:Q; simpl.
  - now rewrite IH.
  - destruct (p c) eqn:P; [|exact IH]. apply H in P. congruence.
Qed.

Lemma kept_not_space_is_slugChar c :
  slugKeep c = true -> Js.isWhiteSpace c = false -> slugChar c = true.
Proof.
  unfold slugKeep, slugChar, Js.isAlnum. intros K W. rewrite W, orb_false_r in K.
  exact K.
Qed.

Lemma slugify_alphabet title : forallb slugChar (Js.chars (slugify title)) = true.
Proof.
  rewrite slugify_chars.
  assert (Hin : forall l c,
    In c (Js.replaceRuns Js.isWhiteSpace Js.hyphen
            (Js.trimEnd (Js.trimStart (filter slugKeep l)))) -> slugChar c = true).
  { intros l c Hc.
    pose proof (replaceRuns_Forall Js.isWhiteSpace Js.hyphen slugChar
                  (Js.trimEnd (Js.trimStart (filter slugKeep l))) eq_refl) as F.
    rewrite forallb_forall in F. apply F; [|exact Hc].
    intros x Hx Wx. apply kept_not_space_is_slugChar; [|exact Wx].
    apply trimEnd_incl, dropWhile_incl, filter_In in Hx. tauto. }
  apply replaceRuns_Forall; [reflexivity|]. intros c Hc _. eapply Hin, Hc.
Qed.

Lemma slugify_alnum title :
  filter Js.isAlnum (Js.chars (slugify title))
  = filter Js.isAlnum (Js.chars (Js.toLowerCase title)).
Proof.
  rewrite slugify_chars. unfold Js.toLowerCase. rewrite chars_str.
  rewrite replaceRuns_filter by (reflexivity || apply hyphen_not_alnum).
  rewrite replaceRuns_filter by (reflexivity || apply space_not_alnum).
  rewrite trimEnd_filter by apply space_not_alnum.
  unfold Js.trimStart. rewrite dropWhile_filter by apply space_not_alnum.
  apply filter_narrow, alnum_kept.
Qed.

Lemma blanks_stay_blank s :
  forallb Js.isWhiteSpace
    (filter slugKeep (map Js.lowerChar (Js.chars (blanksOf s)))) = true.
Proof.
  unfold blanksOf. rewrite chars_str. apply forallb_forall. intros c Hc.
  apply filter_In in Hc. destruct Hc as [Hc _].
  apply in_map_iff in Hc. destruct Hc as (x & <- & Hx).
  rewrite lowerChar_space. apply filter_In in Hx. tauto.
Qed.

Lemma slugify_padding left title right :
  slugify (blanksOf left ++ title ++ blanksOf right) = slugify title.
Proof.
  apply chars_inj. rewrite !slugify_chars. do 2 f_equal.
  rewrite !chars_app, !map_app, !filter_app.
  apply trim_padding; apply blanks_stay_blank.
Qed.

(** *** The edges of a slug *)

Lemma dropWhile_snoc {A} (p : A -> bool) l x :
  p x = false -> Js.dropWhile p (l ++ [x]) = Js.dropWhile p l ++ [x].
Proof.
  intros Hx. induction l as [|c t IH]; simpl; [now rewrite Hx|].
  destruct (p c); [exact IH | reflexivity].
Qed.

Lemma dropWhile_head {A} (p : A -> bool) l x t :
  Js.dropWhile p l = x :: t -> p x = false.
Proof.
  induction l as [|c l IH]; simpl; [discriminate|].
  destruct (p c) eqn:E; [exact IH | now intros [= <- _]].
Qed.

Lemma trimEnd_cons x m :
  Js.isWhiteSpace x = false -> Js.trimEnd (x :: m) = x :: Js.trimEnd m.
Proof.
  intros Hx. unfold Js.trimEnd. cbn [rev].
  now rewrite (dropWhile_snoc _ _ _ Hx), rev_app_distr.
Qed.

(** What [trim] leaves is empty or has no white space at either edge. *)
Lemma trimmed_edges l :
  let t := Js.trimEnd (Js.trimStart l) in
  t = [] \/
  exists first last mid mid',
    t = first :: mid /\ t = mid' ++ [last] /\
    Js.isWhiteSpace first = false /\ Js.isWhiteSpace last = false.
Proof.
  intros t. subst t. unfold Js.trimStart.
  destruct (Js.dropWhile Js.isWhiteSpace l) as [|x m] eqn:D; [now left|].
  right. pose proof (dropWhile_head _ _ _ _ D) as Hx.
  rewrite (trimEnd_cons x m Hx).
  assert (E : Js.trimEnd (x :: m) = x :: Js.trimEnd m) by now apply trimEnd_cons.
  unfold Js.trimEnd in E at 1.
  destruct (Js.dropWhile Js.isWhiteSpace (rev (x :: m))) as [|y d] eqn:R.
  - discriminate.
  - exists x, y, (Js.trimEnd m), (rev d). repeat split.
    + rewrite <- E. reflexivity.
    + exact Hx.
    + exact (dropWhile_head _ _ _ _ R).
Qed.

Section RunEdges.
Variable p : ascii -> bool.
Variable r : ascii.

Lemma replaceRuns_in_in c c' t :
  p c = true -> p c' = true ->
  Js.replaceRuns p r (c :: c' :: t) = Js.replaceRuns p r (c' :: t).
Proof. intros Hc Hc'. simpl. now rewrite Hc, Hc'. Qed.

Lemma replaceRuns_in_out c c' t :
  p c = true -> p c' = false ->
  Js.replaceRuns p r (c :: c' :: t) = r :: Js.replaceRuns p r (c' :: t).
Proof. intros Hc Hc'. simpl. now rewrite Hc, Hc'. Qed.

Lemma replaceRuns_in_end c : p c = true -> Js.replaceRuns p r [c] = [r].
Proof. intros Hc. simpl. now rewrite Hc. Qed.

Lemma replaceRuns_head_in c t :
  p c = true -> exists t', Js.replaceRuns p r (c :: t) = r :: t'.
Proof.
  revert c. induction t as [|c' t IH]; intros c Hc.
  - rewrite (replaceRuns_in_end c Hc). eauto.
  - destruct (p c') eqn:Hc'.
    + rewrite (replaceRuns_in_in c c' t Hc Hc'). apply (IH c' Hc').
    + rewrite (replaceRuns_in_out c c' t Hc Hc'). eauto.
Qed.

Lemma replaceRuns_snoc_out l c :
  p c = false -> Js.replaceRuns p r (l ++ [c]) = Js.replaceRuns p r l ++ [c].
Proof.
  intros Hc. induction l as [|x t IH]; [simpl; now rewrite Hc|].
  destruct (p x) eqn:Hx.
  - destruct t as [|y t'].
    + cbn [app]. rewrite (replaceRuns_in_out x c [] Hx Hc), (replaceRuns_in_end x Hx).
      rewrite (replaceRuns_cons_keep p r c [] Hc). reflexivity.
    + cbn [app] in *. destruct (p y) eqn:Hy.
      * now rewrite !(replaceRuns_in_in x y _ Hx Hy).
      * rewrite !(replaceRuns_in_out x y _ Hx Hy), IH. reflexivity.
  - cbn [app]. rewrite !(replaceRuns_cons_keep p r x _ Hx), IH. reflexivity.
Qed.

Lemma replaceRuns_snoc_in l c :
  p c = true -> exists m, Js.replaceRuns p r (l ++ [c]) = m ++ [r].
Proof.
  intros Hc. induction l as [|x t (m & IH)].
  - exists []. apply (replaceRuns_in_end c Hc).
  - destruct (p x) eqn:Hx.
    + destruct t as [|y t'].
      * cbn [app]. rewrite (replaceRuns_in_in x c [] Hx Hc), (replaceRuns_in_end c Hc).
        now exists [].
      * cbn [app] in *. destruct (p y) eqn:Hy.
        -- rewrite (replaceRuns_in_in x y _ Hx Hy), IH. now exists m.
        -- rewrite (replaceRuns_in_out x y _ Hx Hy), IH. now exists (r :: m).
    + cbn [app]. rewrite (replaceRuns_cons_keep p r x _ Hx), IH. now exists (x :: m).
Qed.

End RunEdges.

Lemma slugify_edges title :
  startsWithHyphen (slugify title)
  = startsWithHyphen (Js.trim (stripUnsafe (Js.toLowerCase title))) /\
  endsWithHyphen (slugify title)
  = endsWithHyphen (Js.trim (stripUnsafe (Js.toLowerCase title))).
Proof.
  unfold startsWithHyphen, endsWithHyphen.
  rewrite slugify_chars, trim_chars.
  unfold stripUnsafe, Js.toLowerCase. rewrite !chars_str.
  destruct (trimmed_edges (filter slugKeep (map Js.lowerChar (Js.chars title))))
    as [-> | (first & last & mid & mid' & E1 & E2 & W1 & W2)]; [now split|].
  split.
  - rewrite E1, (replaceRuns_cons_keep _ _ _ _ W1).
    destruct (Js.isHyphen first) eqn:Hy.
    + destruct (replaceRuns_head_in Js.isHyphen Js.hyphen first
                  (Js.replaceRuns Js.isWhiteSpace Js.hyphen mid) Hy) as (t' & ->).
      reflexivity.
    + now rewrite (replaceRuns_cons_keep _ _ _ _ Hy), Hy.
  - rewrite E2, (replaceRuns_snoc_out _ _ _ _ W2), rev_app_distr. cbn [rev app].
    destruct (Js.isHyphen last) eqn:Hy.
    + destruct (replaceRuns_snoc_in Js.isHyphen Js.hyphen
                  (Js.replaceRuns Js.isWhiteSpace Js.hyphen mid') last Hy) as (m & ->).
      now rewrite rev_app_distr.
    + rewrite (replaceRuns_snoc_out _ _ _ _ Hy), rev_app_distr. cbn [rev app].
      exact Hy.
Qed.

Lemma map_fixed {A} (f : A -> A) l : (forall x, In x l -> f x = x) -> map f l = l.
Proof.
  induction l as [|x t IH]; intros H; [reflexivity|].
  cbn [map]. rewrite H by now left. f_equal. apply IH. intros y Hy. apply H. now right.
Qed.

Lemma filter_all {A} (p : A -> bool) l : forallb p l = true -> filter p l = l.
Proof.
  induction l as [|x t IH]; [reflexivity|]. cbn [forallb filter].
  intros H. apply andb_prop in H. destruct H as [-> H]. f_equal. now apply IH.
Qed.

Lemma dropWhile_none {A} (p : A -> bool) l :
  (forall x, In x l -> p x = false) -> Js.dropWhile p l = l.
Proof.
  destruct l as [|x t]; [reflexivity|]. intros H. cbn [Js.dropWhile].
  now rewrite (H x) by now left.
Qed.

Lemma replaceRuns_none p r l :
  (forall x, In x l -> p x = false) -> Js.replaceRuns p r l = l.
Proof.
  induction l as [|x t IH]; intros H; [reflexivity|].
  rewrite replaceRuns_cons_keep by (apply H; now left).
  f_equal. apply IH. intros y Hy. apply H. now right.
Qed.

(** ** White-space runs become hyphens *)

Lemma hyphen_is_hyphen : Js.isHyphen Js.hyphen = true.
Proof. reflexivity. Qed.

Lemma replaceRuns_head p r c t :
  exists rest, Js.replaceRuns p r (c :: t) = (if p c then r else c) :: rest.
Proof.
  destruct (p c) eqn:Hc.
  - apply (replaceRuns_head_in p r c t Hc).
  - rewrite (replaceRuns_cons_keep p r c t Hc). eauto.
Qed.

(** The two replacements in a row are one: each maximal run of white space
    and hyphens becomes one hyphen. *)
Lemma hyphens_after_spaces l :
  Js.replaceRuns Js.isHyphen Js.hyphen (Js.replaceRuns Js.isWhiteSpace Js.hyphen l)
  = Js.replaceRuns slugSeparator Js.hyphen l.
Proof.
  induction l as [|c t IH]; [reflexivity|].
  destruct (Js.isWhiteSpace c) eqn:Wc.
  - assert (Sc : slugSeparator c = true) by (unfold slugSeparator; now rewrite Wc).
    destruct t as [|c' t'].
    + rewrite (replaceRuns_in_end _ _ c Wc), (replaceRuns_in_end _ _ c Sc).
      apply (replaceRuns_in_end _ _ _ hyphen_is_hyphen).
    + destruct (Js.isWhiteSpace c') eqn:Wc'.
      * assert (Sc' : slugSeparator c' = true) by (unfold slugSeparator; now rewrite Wc').
        rewrite (replaceRuns_in_in _ _ c c' t' Wc Wc'), (replaceRuns_in_in _ _ c c' t' Sc Sc').
        exact IH.
      * rewrite (replaceRuns_in_out _ _ c c' t' Wc Wc').
        rewrite (replaceRuns_cons_keep _ _ c' t' Wc') in *.
        destruct (Js.isHyphen c') eqn:Hc'.
        -- assert (Sc' : slugSeparator c' = true)
             by (unfold slugSeparator; now rewrite Hc', orb_true_r).
           rewrite (replaceRuns_in_in _ _ Js.hyphen c' _ hyphen_is_hyphen Hc').
           rewrite (replaceRuns_in_in _ _ c c' t' Sc Sc'). exact IH.
        -- assert (Sc' : slugSeparator c' = false)
             by (unfold slugSeparator; now rewrite Wc', Hc').
           rewrite (replaceRuns_in_out _ _ Js.hyphen c' _ hyphen_is_hyphen Hc').
           rewrite (replaceRuns_in_out _ _ c c' t' Sc Sc'). now rewrite IH.
  - rewrite (replaceRuns_cons_keep _ _ c t Wc).
    destruct (Js.isHyphen c) eqn:Hc.
    + assert (Sc : slugSeparator c = true)
        by (unfold slugSeparator; now rewrite Hc, orb_true_r).
      destruct t as [|c' t'].
      * cbn [Js.replaceRuns]. now rewrite Hc, Sc.
      * destruct (replaceRuns_head Js.isWhiteSpace Js.hyphen c' t') as (rest & E).
        rewrite E in *.
        assert (Hd : Js.isHyphen (if Js.isWhiteSpace c' then Js.hyphen else c')
                     = slugSeparator c').
        { unfold slugSeparator. destruct (Js.isWhiteSpace c'); reflexivity. }
        destruct (slugSeparator c') eqn:Sc'.
        -- rewrite (replaceRuns_in_in _ _ c _ rest Hc Hd).
           rewrite (replaceRuns_in_in _ _ c c' t' Sc Sc'). exact IH.
        -- rewrite (replaceRuns_in_out _ _ c _ rest Hc Hd).
           rewrite (replaceRuns_in_out _ _ c c' t' Sc Sc'). now rewrite IH.
    + assert (Sc : slugSeparator c = false) by (unfold slugSeparator; now rewrite Wc, Hc).
      rewrite (replaceRuns_cons_keep _ _ c _ Hc), (replaceRuns_cons_keep _ _ c t Sc).
      now rewrite IH.
Qed.

Lemma slugify_separators title :
  Js.chars (slugify title)
  = Js.replaceRuns slugSeparator Js.hyphen
      (Js.chars (Js.trim (stripUnsafe (Js.toLowerCase title)))).
Proof.
  rewrite slugify_chars, hyphens_after_spaces, trim_chars.
  unfold stripUnsafe, Js.toLowerCase. now rewrite !chars_str.
Qed.

Lemma replaceRuns_keep_prefix p r w l :
  (forall x, In x w -> p x = false) ->
  Js.replaceRuns p r (w ++ l) = w ++ Js.replaceRuns p r l.
Proof.
  induction w as [|x w IH]; intros H; [reflexivity|].
  cbn [app]. rewrite (replaceRuns_cons_keep p r x _ (H x (or_introl eq_refl))).
  f_equal. apply IH. intros y Hy. apply H. now right.
Qed.

Lemma replaceRuns_run p r g x l :
  g <> [] -> forallb p g = true -> p x = false ->
  Js.replaceRuns p r (g ++ x :: l) = r :: Js.replaceRuns p r (x :: l).
Proof.
  intros NE All Hx. induction g as [|c g IH]; [now elim NE|].
  cbn [forallb] in All. apply andb_prop in All. destruct All as [Hc All].
  destruct g as [|c' g'].
  - cbn [app]. apply (replaceRuns_in_out p r c x l Hc Hx).
  - cbn [app] in *. pose proof All as All'. cbn [forallb] in All'.
    apply andb_prop in All'. destruct All' as [Hc' _].
    rewrite (replaceRuns_in_in p r c c' _ Hc Hc'). apply IH; [discriminate | exact All].
Qed.

Lemma wordChar_lower c : wordChar c = true -> Js.isAlnum (Js.lowerChar c) = true.
Proof.
  intros W. generalize (by_cases_on_char
    (fun c => implb (wordChar c) (Js.isAlnum (Js.lowerChar c))) eq_refl c).
  now rewrite W.
Qed.

Lemma alnum_in_word c :
  Js.isAlnum c = true -> slugKeep c = true /\ slugSeparator c = false /\
                         Js.isWhiteSpace c = false.
Proof.
  intros A. generalize (by_cases_on_char
    (fun c => implb (Js.isAlnum c)
                (slugKeep c && negb (slugSeparator c) && negb (Js.isWhiteSpace c)))
    eq_refl c).
  rewrite A. cbn [implb]. intros H.
  apply andb_prop in H. destruct H as [H H3]. apply andb_prop in H. destruct H as [H1 H2].
  now rewrite negb_true_iff in H2, H3.
Qed.

Lemma space_separates c :
  Js.isWhiteSpace c = true -> slugKeep c = true /\ slugSeparator c = true.
Proof.
  intros W. unfold slugKeep, slugSeparator. rewrite W.
  now rewrite !orb_true_r.
Qed.

Lemma isWord_chars w :
  isWord w = true ->
  exists x t, Js.chars w = x :: t /\ Forall (fun c => wordChar c = true) (x :: t).
Proof.
  unfold isWord. intros H. apply andb_prop in H. destruct H as [T A].
  apply truthy_true in T. destruct (Js.chars w) as [|x t] eqn:E.
  - elim T. apply chars_inj. now rewrite E.
  - exists x, t. split; [reflexivity|]. now apply Forall_forall, forallb_forall.
Qed.

Lemma isGap_chars g :
  isGap g = true -> Js.chars g <> [] /\ forallb Js.isWhiteSpace (Js.chars g) = true.
Proof.
  unfold isGap. intros H. apply andb_prop in H. destruct H as [T A].
  apply truthy_true in T. split; [|exact A].
  intros E. apply T. apply chars_inj. now rewrite E.
Qed.

(** What a spelled title is made of. *)
Lemma spelled_chars first rest :
  isWord first = true ->
  forallb (fun gw => isGap (fst gw) && isWord (snd gw)) rest = true ->
  (forall c, In c (Js.chars (spelled first rest)) ->
             wordChar c = true \/ Js.isWhiteSpace c = true) /\
  (exists x t, Js.chars (spelled first rest) = x :: t /\ wordChar x = true) /\
  (exists t y, Js.chars (spelled first rest) = t ++ [y] /\ wordChar y = true).
Proof.
  revert first. induction rest as [|[g w] rest IH]; intros first Wf Ok.
  - cbn [spelled]. destruct (isWord_chars first Wf) as (x & t & E & F).
    rewrite E. split; [|split].
    + intros c Hc. left. rewrite Forall_forall in F. now apply F.
    + exists x, t. split; [reflexivity|]. now apply Forall_inv in F.
    + destruct (exists_last (l := x :: t)) as (t' & y & E'); [discriminate|].
      exists t', y. split; [exact E'|].
      rewrite Forall_forall in F. apply F. rewrite E'. apply in_or_app. right. now left.
  - cbn [forallb fst snd] in Ok. apply andb_prop in Ok. destruct Ok as [Gw Ok].
    apply andb_prop in Gw. destruct Gw as [Gg Ww].
    destruct (IH w Ww Ok) as (All & _ & (t' & y & El & Wy)).
    destruct (isWord_chars first Wf) as (x & t & E & F).
    destruct (isGap_chars g Gg) as (_ & Sp).
    cbn [spelled]. rewrite !chars_app. split; [|split].
    + intros c Hc. apply in_app_or in Hc. destruct Hc as [Hc|Hc].
      * left. rewrite Forall_forall in F. apply F. now rewrite <- E.
      * apply in_app_or in Hc. destruct Hc as [Hc|Hc].
        -- right. rewrite forallb_forall in Sp. now apply Sp.
        -- now apply All.
    + rewrite E. cbn [app]. eexists _, _. split; [reflexivity|]. now apply Forall_inv in F.
    + exists (Js.chars first ++ Js.chars g ++ t'), y.
      split; [|exact Wy]. rewrite El. now rewrite !app_assoc.
Qed.

(** Words separated by gaps come out joined by single hyphens. *)
Lemma separators_spelled first rest :
  isWord first = true ->
  forallb (fun gw => isGap (fst gw) && isWord (snd gw)) rest = true ->
  Js.replaceRuns slugSeparator Js.hyphen
    (map Js.lowerChar (Js.chars (spelled first rest)))
  = map Js.lowerChar (Js.chars (hyphenated first rest)).
Proof.
  revert first. induction rest as [|[g w] rest IH]; intros first Wf Ok.
  - cbn [spelled hyphenated]. rewrite <- (app_nil_r (map _ _)) at 1.
    rewrite replaceRuns_keep_prefix; [apply app_nil_r|].
    intros x Hx. apply in_map_iff in Hx. destruct Hx as (c & <- & Hc).
    destruct (isWord_chars first Wf) as (x0 & t0 & E & F).
    rewrite E in Hc. rewrite Forall_forall in F.
    now apply alnum_in_word, wordChar_lower, F.
  - pose proof Ok as Ok'.
    cbn [forallb fst snd] in Ok. apply andb_prop in Ok. destruct Ok as [Gw Ok].
    apply andb_prop in Gw. destruct Gw as [Gg Ww].
    destruct (spelled_chars w rest Ww Ok) as (_ & (x & t & Eh & Wx) & _).
    destruct (isGap_chars g Gg) as (NE & Sp).
    cbn [spelled hyphenated]. rewrite !chars_app, !map_app.
    rewrite replaceRuns_keep_prefix.
    2:{ intros c Hc. apply in_map_iff in Hc. destruct Hc as (c0 & <- & Hc).
        destruct (isWord_chars first Wf) as (x0 & t0 & E & F).
        rewrite E in Hc. rewrite Forall_forall in F.
        now apply alnum_in_word, wordChar_lower, F. }
    f_equal. specialize (IH w Ww Ok). rewrite Eh in *. cbn [map] in *.
    rewrite replaceRuns_run.
    + change (Js.chars "-") with [Js.hyphen]. cbn [map app].
      change (Js.lowerChar Js.hyphen) with Js.hyphen. f_equal. exact IH.
    + intros E. apply map_eq_nil in E. contradiction.
    + rewrite forallb_forall in *. intros c Hc. apply in_map_iff in Hc.
      destruct Hc as (c0 & <- & Hc). apply space_separates.
      rewrite lowerChar_space. now apply Sp.
    + now apply alnum_in_word, wordChar_lower.
Qed.

Lemma slugify_words first rest :
  isWord first = true ->
  forallb (fun gw => isGap (fst gw) && isWord (snd gw)) rest = true ->
  slugify (spelled first rest) = Js.toLowerCase (hyphenated first rest).
Proof.
  intros Wf Ok. apply chars_inj.
  rewrite slugify_chars, hyphens_after_spaces.
  unfold Js.toLowerCase at 1. rewrite chars_str.
  destruct (spelled_chars first rest Wf Ok) as (All & (x & t & Eh & Wx) & (t' & y & El & Wy)).
  assert (Keep : filter slugKeep (map Js.lowerChar (Js.chars (spelled first rest)))
                 = map Js.lowerChar (Js.chars (spelled first rest))).
  { apply filter_all, forallb_forall. intros c Hc. apply in_map_iff in Hc.
    destruct Hc as (c0 & <- & Hc). destruct (All c0 Hc) as [W|W].
    - now apply alnum_in_word, wordChar_lower.
    - apply space_separates. now rewrite lowerChar_space. }
  rewrite Keep.
  assert (Start : Js.trimStart (map Js.lowerChar (Js.chars (spelled first rest)))
                  = map Js.lowerChar (Js.chars (spelled first rest))).
  { rewrite Eh. cbn [map]. unfold Js.trimStart. cbn [Js.dropWhile].
    now rewrite (proj2 (proj2 (alnum_in_word _ (wordChar_lower _ Wx)))). }
  rewrite Start.
  assert (End : Js.trimEnd (map Js.lowerChar (Js.chars (spelled first rest)))
                = map Js.lowerChar (Js.chars (spelled first rest))).
  { rewrite El, map_app. cbn [map]. unfold Js.trimEnd.
    rewrite rev_app_distr. cbn [rev app Js.dropWhile].
    rewrite (proj2 (proj2 (alnum_in_word _ (wordChar_lower _ Wy)))).
    cbn [rev]. now rewrite rev_involutive. }
  rewrite End. apply (separators_spelled first rest Wf Ok).
Qed.

(** C1, as the code has it.  For every title, [slugify] lowercases,
    deletes what is outside [[a-z0-9\s-]], trims white space (not hyphens)
    at both edges, turns white-space runs into single hyphens and merges
    repeated hyphens: the result is made of [[a-z0-9-]] only, has no two
    hyphens in a row, carries the letters and digits of the lowercased
    title in order, is unchanged by white space put around the title, and
    begins (ends) with a hyphen exactly when the lowercased, stripped,
    trimmed title does.  It is the lowercased, stripped, trimmed title with
    each maximal run of white space and hyphens replaced by one hyphen and
    every other character left in place; so words of letters and digits
    separated by runs of white space come out lowercased and joined by
    single hyphens.  When the result is empty the assigned slug is
    [job-<timestamp>], which is not empty. *)
Theorem slugify_normal_form (env : Env) (store : list Job.t)
  (title left right : string) :
  let s := slugify title in
  forallb slugChar (Js.chars s) = true /\
  noHyphenPair s = true /\
  filter Js.isAlnum (Js.chars s) = filter Js.isAlnum (Js.chars (Js.toLowerCase title)) /\
  slugify (blanksOf left ++ title ++ blanksOf right) = s /\
  startsWithHyphen s = startsWithHyphen (Js.trim (stripUnsafe (Js.toLowerCase title))) /\
  endsWithHyphen s = endsWithHyphen (Js.trim (stripUnsafe (Js.toLowerCase title))) /\
  Js.chars s = Js.replaceRuns slugSeparator Js.hyphen
                 (Js.chars (Js.trim (stripUnsafe (Js.toLowerCase title)))) /\
  (forall (first : string) (rest : list (string * string)),
     isWord first = true ->
     forallb (fun gw => isGap (fst gw) && isWord (snd gw)) rest = true ->
     title = spelled first rest ->
     s = Js.toLowerCase (hyphenated first rest)) /\
  (s = "" ->
   ensureUniqueSlug env store title = Some ("job-" ++ Js.decimal (now env))%string /\
   ("job-" ++ Js.decimal (now env))%string <> "").
Proof.
  intros s. subst s.
  split; [apply slugify_alphabet|].
  split; [unfold noHyphenPair; rewrite slugify_chars; now apply replaceRuns_noAdjacent|].
  split; [apply slugify_alnum|].
  split; [apply slugify_padding|].
  split; [apply slugify_edges|].
  split; [apply slugify_edges|].
  split; [apply slugify_separators|].
  split; [intros first rest Wf Ok ->; now apply slugify_words|].
  intros Empty. split; [|discriminate].
  unfold ensureUniqueSlug. now rewrite Empty.
Qed.

Lemma slugify_normal_form_witness :
  ensureUniqueSlug (Sample.env 1700) [] "!!! ???" = Some "job-1700".
Proof.
  apply (slugify_normal_form (Sample.env 1700) [] "!!! ???" "" "").
  reflexivity.
Defined.

(** C1, as the specification words it, fails on hyphens typed at the
    edges of a title: they are still there in the slug. *)
Lemma slugify_keeps_edge_hyphens :
  slugify "-Hello World-" = "-hello-world-" /\
  startsWithHyphen (slugify "-Hello World-") = true /\
  endsWithHyphen (slugify "-Hello World-") = true.
Proof. repeat split. Qed.

Example slugify_staff_nurse :
  slugify "Staff Nurse Recruitment" = "staff-nurse-recruitment".
Proof. reflexivity. Qed.

Example slugify_punctuation :
  slugify "  SSC  CGL (Tier-I) -- 2024!  " = "ssc-cgl-tier-i-2024".
Proof. reflexivity. Qed.

Example slugify_only_hyphens : slugify "---" = "-".
Proof. reflexivity. Qed.

Example slugify_mixed_separators :
  slugify "Tier - I  --  Exam" = "tier-i-exam" /\
  spelled "Staff" [("  ", "Nurse"); (" ", "2024")] = "Staff  Nurse 2024" /\
  hyphenated "Staff" [("  ", "Nurse"); (" ", "2024")] = "Staff-Nurse-2024".
Proof. repeat split. Qed.

(** ** Unique slugs *)

Lemma decimal_inj a b : Js.decimal a = Js.decimal b -> a = b.
Proof.
  unfold Js.decimal. intros E. apply Unsigned.to_uint_inj.
  assert (NZ : forall n, N.to_uint n <> Decimal.Nil).
  { intros [|p]; [discriminate | apply DecimalPos.Unsigned.to_uint_nonnil]. }
  apply (f_equal NilZero.uint_of_string) in E.
  rewrite !NilZero.usu in E by apply NZ. now injection E.
Qed.

Lemma append_inj_r (b x y : string) : (b ++ x = b ++ y)%string -> x = y.
Proof. induction b as [|c b IH]; simpl; [easy | intros [= E]; auto]. Qed.

Lemma append_longer (b x : string) : x <> "" -> b <> (b ++ x)%string.
Proof.
  intros Hx E. apply (f_equal String.length) in E.
  rewrite <- !chars_length, chars_app, length_app in E.
  destruct x; [easy | simpl in E; lia].
Qed.

Lemma candidate_next b k :
  (1 <= k)%N -> candidate b (k + 1) = (b ++ "-" ++ Js.decimal (k + 1))%string.
Proof.
  intros Hk. unfold candidate.
  destruct (N.leb_spec (k + 1) 1); [lia | reflexivity].
Qed.

Lemma candidate_inj b i j :
  (1 <= i)%N -> (1 <= j)%N -> candidate b i = candidate b j -> i = j.
Proof.
  intros Hi Hj. unfold candidate.
  destruct (N.leb_spec i 1), (N.leb_spec j 1); intros E.
  - lia.
  - now apply append_longer in E.
  - symmetry in E. now apply append_longer in E.
  - apply append_inj_r in E. injection E as E. now apply decimal_inj.
Qed.

Lemma slugTaken_In store s : slugTaken store s = true <-> In s (map Job.slug store).
Proof.
  unfold slugTaken. rewrite existsb_exists, in_map_iff.
  split; intros (d & A & B).
  - apply String.eqb_eq in B. eauto.
  - exists d. split; [exact B | now apply String.eqb_eq].
Qed.

Lemma slugTaken_app store more s :
  slugTaken (store ++ more) s = slugTaken store s || slugTaken more s.
Proof. apply existsb_app. Qed.

Section Probe.
Variable store : list Job.t.
Variable b : string.

(** The loop stops at the first candidate that is free. *)
Lemma probe_least fuel : forall k s,
  (1 <= k)%N ->
  probe fuel store b (candidate b k) (k + 1) = Some s ->
  exists m : N, s = candidate b (k + m) /\ slugTaken store s = false /\
    forall j, (k <= j < k + m)%N -> slugTaken store (candidate b j) = true.
Proof.
  induction fuel as [|fuel IH]; intros k s Hk; cbn [probe]; [discriminate|].
  destruct (slugTaken store (candidate b k)) eqn:T.
  - rewrite <- candidate_next by exact Hk. intros E.
    destruct (IH (k + 1)%N s ltac:(lia) E) as (m & -> & F & A).
    exists (1 + m)%N. rewrite N.add_assoc. repeat split; [exact F|].
    intros j Hj. destruct (N.eq_dec j k) as [-> | Hne]; [exact T|].
    apply A. lia.
  - intros [= <-]. exists 0%N. rewrite N.add_0_r. repeat split; [exact T|].
    intros j Hj. lia.
Qed.

(** When the probes run out, every candidate tried was taken. *)
Lemma probe_exhausted fuel : forall k,
  (1 <= k)%N ->
  probe fuel store b (candidate b k) (k + 1) = None ->
  forall j, (k <= j < k + N.of_nat fuel)%N -> slugTaken store (candidate b j) = true.
Proof.
  induction fuel as [|fuel IH]; intros k Hk; cbn [probe].
  - intros _ j Hj. lia.
  - destruct (slugTaken store (candidate b k)) eqn:T; [|discriminate].
    rewrite <- candidate_next by exact Hk. intros E j Hj.
    destruct (N.eq_dec j k) as [-> | Hne]; [exact T|].
    apply (IH (k + 1)%N ltac:(lia) E). lia.
Qed.

(** Taken candidates are distinct slugs of the store: there are no more
    of them than documents. *)
Lemma taken_candidates_bounded n :
  (forall j, (1 <= j < 1 + N.of_nat n)%N -> slugTaken store (candidate b j) = true) ->
  n <= List.length store.
Proof.
  intros A.
  replace n with (List.length (map (fun j => candidate b (N.of_nat j)) (seq 1 n)))
    by now rewrite length_map, length_seq.
  replace (List.length store) with (List.length (map Job.slug store))
    by apply length_map.
  apply NoDup_incl_length.
  - apply Injective_map_NoDup_in; [|apply seq_NoDup].
    intros x y Hx Hy E. apply in_seq in Hx, Hy.
    apply candidate_inj in E; lia.
  - intros s Hs. apply in_map_iff in Hs. destruct Hs as (j & <- & Hj).
    apply in_seq in Hj. apply slugTaken_In, A. lia.
Qed.

Lemma probe_terminates : exists s, probe (probeBound store) store b b 2 = Some s.
Proof.
  destruct (probe (probeBound store) store b b 2) as [s|] eqn:E; [eauto|].
  exfalso.
  pose proof (probe_exhausted (probeBound store) 1 ltac:(lia) E) as A.
  apply taken_candidates_bounded in A. unfold probeBound in A. lia.
Qed.

(** More probes than the bound change nothing. *)
Lemma probe_fuel_irrelevant fuel s :
  probe (probeBound store) store b b 2 = Some s ->
  probeBound store <= fuel -> probe fuel store b b 2 = Some s.
Proof.
  intros E Hf.
  assert (G : forall f1 f2 slug i r,
             probe f1 store b slug i = Some r -> f1 <= f2 ->
             probe f2 store b slug i = Some r).
  { induction f1 as [|f1 IH]; intros f2 slug i r; simpl; [discriminate|].
    intros P L. destruct f2 as [|f2]; [lia|]. simpl.
    destruct (slugTaken store slug); [|exact P].
    apply (IH f2); [exact P | lia]. }
  now apply (G _ _ _ _ _ E).
Qed.

End Probe.

Lemma ensureUniqueSlug_total env store title :
  exists s, ensureUniqueSlug env store title = Some s.
Proof.
  unfold ensureUniqueSlug. destruct (negb (Js.truthy (slugify title))); [eauto|].
  apply probe_terminates.
Qed.

Lemma ensureUniqueSlug_free env store title s :
  slugify title <> "" ->
  ensureUniqueSlug env store title = Some s -> slugTaken store s = false.
Proof.
  intros NE. unfold ensureUniqueSlug. apply truthy_true in NE. rewrite NE.
  cbn [negb]. intros E.
  change (probe (probeBound store) store (slugify title)
            (candidate (slugify title) 1) (1 + 1)%N = Some s) in E.
  apply probe_least in E; [|lia].
  now destruct E as (m & _ & F & _).
Qed.

Lemma createJob_total `{Runtime} env data store :
  exists r store', createJob env data store = Some (r, store').
Proof.
  unfold createJob.
  destruct (ensureUniqueSlug_total env store (Input.title data)) as (s & ->).
  destruct (Job_create _ _ _) as [[|] | [doc store']]; eauto.
Qed.

(** *** Creations in a row *)

Lemma ensureUniqueSlug_next env store title K :
  slugify title <> "" ->
  seriesTaken (slugify title) K store ->
  ensureUniqueSlug env store title = Some (candidate (slugify title) (N.of_nat (S K))).
Proof.
  intros NE Inv.
  destruct (ensureUniqueSlug_total env store title) as (s & E). rewrite E. f_equal.
  unfold ensureUniqueSlug in E. apply truthy_true in NE. rewrite NE in E.
  cbn [negb] in E.
  change (probe (probeBound store) store (slugify title)
            (candidate (slugify title) 1) (1 + 1)%N = Some s) in E.
  apply probe_least in E; [|lia]. destruct E as (m & -> & F & A).
  rewrite Inv in F by lia. apply N.leb_gt in F.
  assert (m <= N.of_nat K)%N.
  { destruct (N.eq_dec m 0) as [-> | Hm]; [lia|].
    specialize (A m ltac:(lia)). rewrite Inv in A by lia.
    now apply N.leb_le in A. }
  f_equal. lia.
Qed.

(** What [Job.create] can do to the store. *)
Lemma Job_create_cases env d store :
  (exists e, Job_create env d store = inl e) \/
  (Job_create env d store = inr (castJob env d, store ++ [castJob env d])).
Proof.
  unfold Job_create.
  destruct (negb (jobValid (castJob env d))); [eauto|].
  destruct (jobIndexClash store (castJob env d)); eauto.
Qed.

(** What one creation can do: announce a slug and append its document,
    or fail and leave the store alone. *)
Lemma createJob_cases `{Runtime} env data store r store' :
  createJob env data store = Some (r, store') ->
  (exists slug doc,
      ensureUniqueSlug env store (Input.title data) = Some slug /\
      r = json (CreatedBody (Job._id doc) slug) /\
      Job.slug doc = slug /\ Job.isExpired doc = false /\
      store' = store ++ [doc]) \/
  (assignedSlug r = None /\ status r <> 200 /\ store' = store).
Proof.
  unfold createJob.
  destruct (ensureUniqueSlug env store (Input.title data)) as [slug|]; [|discriminate].
  match goal with |- context [Job_create ?e ?d ?s] =>
    destruct (Job_create_cases e d s) as [(err & ->) | ->] end.
  - destruct err; intros [= <- <-]; right; repeat split; discriminate.
  - intros [= <- <-]. left. eexists _, _. repeat split; reflexivity.
Qed.

Lemma seriesTaken_grow b K store doc :
  seriesTaken b K store ->
  Job.slug doc = candidate b (N.of_nat (S K)) ->
  seriesTaken b (S K) (store ++ [doc]).
Proof.
  intros Inv E j Hj. rewrite slugTaken_app, Inv by exact Hj.
  unfold slugTaken at 1. cbn [existsb]. rewrite orb_false_r, E.
  destruct (String.eqb_spec (candidate b (N.of_nat (S K))) (candidate b j)) as [C | C].
  - apply candidate_inj in C; [|lia|lia]. subst j.
    rewrite orb_true_r. symmetry. apply N.leb_le. lia.
  - rewrite orb_false_r.
    destruct (N.leb_spec j (N.of_nat K)), (N.leb_spec j (N.of_nat (S K)));
      try reflexivity; try lia.
    elim C. f_equal. lia.
Qed.

Lemma slugSeries_shift b K n :
  map (fun j => candidate b (N.of_nat j)) (seq (S K) (S n))
  = candidate b (N.of_nat (S K)) :: map (fun j => candidate b (N.of_nat j)) (seq (S (S K)) n).
Proof. reflexivity. Qed.

Lemma createAll_series `{Runtime} b work : forall K store,
  b <> "" ->
  Forall (fun w => slugify (Input.title (snd w)) = b) work ->
  seriesTaken b K store ->
  exists rs final,
    createAll work store = Some (rs, final) /\
    assigned rs = map (fun j => candidate b (N.of_nat j))
                      (seq (S K) (List.length (assigned rs))) /\
    (Forall (fun r => status r = 200) rs ->
     List.length (assigned rs) = List.length work).
Proof.
  induction work as [|[env data] rest IH]; intros K store NE T Inv.
  - exists [], store. repeat split.
  - apply Forall_cons_iff in T. destruct T as [Hd Hrest].
    cbn [snd] in Hd. cbn [createAll].
    destruct (createJob_total env data store) as (r & store' & E). rewrite E.
    destruct (createJob_cases _ _ _ _ _ E)
      as [(slug & doc & U & -> & S1 & _ & ->) | (A & St & ->)].
    + rewrite <- Hd in NE, Inv.
      rewrite (ensureUniqueSlug_next env store _ K NE Inv) in U.
      injection U as <-. rewrite Hd in *.
      destruct (IH (S K) (store ++ [doc]) NE Hrest (seriesTaken_grow _ _ _ _ Inv S1))
        as (rs & final & -> & Q & L).
      exists (json (CreatedBody (Job._id doc) (candidate b (N.of_nat (S K)))) :: rs), final.
      repeat split.
      * cbn [assigned flat_map assignedSlug payload json reply app].
        cbn [List.length]. rewrite slugSeries_shift. f_equal. exact Q.
      * intros F. apply Forall_cons_iff in F.
        cbn [assigned flat_map assignedSlug payload json reply app List.length].
        f_equal. now apply L.
    + destruct (IH K store NE Hrest Inv) as (rs & final & -> & Q & L).
      exists (r :: rs), final. repeat split.
      * unfold assigned in *. cbn [flat_map]. rewrite A. exact Q.
      * intros F. apply Forall_cons_iff in F. now destruct F.
Qed.

(** C2, as the code has it.  Creations in a row whose titles all
    normalise to the same non-empty [base], on a store which nobody else
    writes and in which no slug of the series is taken beforehand: every
    creation answers, and the slugs handed out are [base], [base-2],
    [base-3], ... in creation order, none skipped and none used twice; when
    every creation succeeds there is one per request. *)
Theorem sequential_slugs `{Runtime} (base : string)
  (work : list (Env * Input.t)) (store : list Job.t) :
  base <> "" ->
  Forall (fun w => slugify (Input.title (snd w)) = base) work ->
  (forall j, (1 <= j)%N -> slugTaken store (candidate base j) = false) ->
  exists rs final,
    createAll work store = Some (rs, final) /\
    assigned rs = slugSeries base (List.length (assigned rs)) /\
    NoDup (assigned rs) /\
    (Forall (fun r => status r = 200) rs ->
     List.length (assigned rs) = List.length work) /\
    candidate base 1 = base /\
    (forall i, (2 <= i)%N -> candidate base i = (base ++ "-" ++ Js.decimal i)%string).
Proof.
  intros NE T Free.
  destruct (createAll_series base work 0 store NE T) as (rs & final & E & Q & L).
  { intros j Hj. rewrite Free by exact Hj. symmetry. apply N.leb_gt. lia. }
  exists rs, final. repeat split; try assumption.
  - rewrite Q. apply Injective_map_NoDup_in; [|apply seq_NoDup].
    intros x y Hx Hy C. apply in_seq in Hx, Hy. apply candidate_inj in C; lia.
  - intros i Hi. unfold candidate. destruct (N.leb_spec i 1); [lia | reflexivity].
Qed.

Lemma sequential_slugs_witness :
  exists rs final,
    @createAll Sample.runtime
              [ (Sample.env 10, Sample.input "Staff Nurse Recruitment" "https://a.example.org");
                (Sample.env 11, Sample.input "Staff Nurse Recruitment" "https://b.example.org") ]
              [ Sample.job "clerk" "Clerk" false 5 ] = Some (rs, final) /\
    assigned rs = slugSeries "staff-nurse-recruitment" (List.length (assigned rs)).
Proof.
  destruct (@sequential_slugs Sample.runtime "staff-nurse-recruitment"
              [ (Sample.env 10, Sample.input "Staff Nurse Recruitment" "https://a.example.org");
                (Sample.env 11, Sample.input "Staff Nurse Recruitment" "https://b.example.org") ]
              [ Sample.job "clerk" "Clerk" false 5 ])
    as (rs & final & E & Q & _).
  - discriminate.
  - repeat constructor.
  - intros j Hj. unfold slugTaken. cbn [existsb Sample.job Job.slug].
    rewrite orb_false_r. apply String.eqb_neq. unfold candidate.
    destruct (j <=? 1)%N; discriminate.
  - exists rs, final. split; assumption.
Defined.

Example staff_nurse_twice :
  option_map (fun x => assigned (fst x))
    (@createAll Sample.runtime
       [ (Sample.env 10, Sample.input "Staff Nurse Recruitment" "https://a.example.org");
         (Sample.env 11, Sample.input "Staff Nurse Recruitment" "https://b.example.org") ]
       [])
  = Some ["staff-nurse-recruitment"; "staff-nurse-recruitment-2"].
Proof. reflexivity. Qed.

(** C2, as the specification words it, fails when a slug of the series is
    in the store before the first creation: a listing titled
    "Staff Nurse 2" holds [staff-nurse-2], and two creations titled
    "Staff Nurse" are given [staff-nurse] and [staff-nurse-3]. *)
Lemma series_slug_already_taken :
  let before := [ Sample.job (slugify "Staff Nurse 2") "Staff Nurse 2" false 5 ] in
  let work := [ (Sample.env 10, Sample.input "Staff Nurse" "https://a.example.org");
                (Sample.env 11, Sample.input "Staff Nurse" "https://b.example.org") ] in
  Forall (fun w => slugify (Input.title (snd w)) = "staff-nurse") work /\
  option_map (fun x => assigned (fst x)) (@createAll Sample.runtime work before)
  = Some ["staff-nurse"; "staff-nurse-3"] /\
  ["staff-nurse"; "staff-nurse-3"] <> slugSeries "staff-nurse" 2.
Proof.
  cbv zeta. split; [repeat constructor|]. split; [reflexivity | discriminate].
Qed.

(** ** Paging *)

Local Open Scope Q_scope.

Lemma Qle_bool_false x y : Qle_bool x y = false -> y < x.
Proof.
  intros H. apply Qnot_le_lt. intros L. apply Qle_bool_iff in L. congruence.
Qed.

Lemma pickMax_spec x y : (if Qle_bool x y then y else x) == Qmax x y.
Proof.
  destruct (Qle_bool x y) eqn:E.
  - apply Qle_bool_iff in E. symmetry. now apply Q.max_r.
  - apply Qle_bool_false in E. symmetry. apply Q.max_l. now apply Qlt_le_weak.
Qed.

Lemma pickMin_spec x y : (if Qle_bool x y then x else y) == Qmin x y.
Proof.
  destruct (Qle_bool x y) eqn:E.
  - apply Qle_bool_iff in E. symmetry. now apply Q.min_l.
  - apply Qle_bool_false in E. symmetry. apply Q.min_r. now apply Qlt_le_weak.
Qed.

Lemma pageSafe_finite rq :
  exists p, pageSafe rq = Finite p /\ 1 <= p /\
    match Query.page rq with
    | Some (Finite x) => p == Qmax x 1
    | _ => p = 1
    end.
Proof.
  unfold pageSafe, pageOf.
  destruct (Query.page rq) as [[x| | |]|]; cbn [Num.isFinite].
  - eexists. split; [reflexivity|]. split; [|apply pickMax_spec].
    rewrite pickMax_spec. apply Q.le_max_r.
  - exists 1. repeat split. discriminate.
  - exists 1. repeat split. discriminate.
  - exists 1. repeat split. discriminate.
  - exists 1. repeat split. discriminate.
Qed.

Lemma limitSafe_finite rq :
  exists l, limitSafe rq = Finite l /\ 1 <= l /\ l <= 50 /\
    match Query.limit rq with
    | Some (Finite x) => l == Qmin (Qmax x 1) 50
    | _ => l = 20
    end.
Proof.
  unfold limitSafe, limitOf.
  destruct (Query.limit rq) as [[x| | |]|]; cbn [Num.isFinite].
  - eexists. split; [reflexivity|].
    assert (E : (if Qle_bool (if Qle_bool x (inject_Z 1) then inject_Z 1 else x)
                              (inject_Z 50)
                 then if Qle_bool x (inject_Z 1) then inject_Z 1 else x
                 else inject_Z 50) == Qmin (Qmax x 1) 50).
    { rewrite pickMin_spec. now rewrite (pickMax_spec x (inject_Z 1)). }
    repeat split; [| |exact E]; rewrite E.
    + apply Q.min_glb; [apply Q.le_max_r | discriminate].
    + apply Q.le_min_r.
  - exists 20. repeat split; discriminate.
  - exists 20. repeat split; discriminate.
  - exists 20. repeat split; discriminate.
  - exists 20. repeat split; discriminate.
Qed.

(** C3.  For every request the effective page is [max(page, 1)], and 1
    when [page] is missing or not finite; the effective limit is the limit
    clamped into [1, 50], with 20 standing in for a missing or non-finite
    one, so that 1000 gives 50 and 0 gives 1.  The offset is
    [(page - 1) * limit] of the effective values wherever the handler's
    arithmetic is exact: when [page - 1] and the product are safe
    integers. *)
Theorem paging_clamped (rq : Query.t) :
  (exists p l : Q,
    pageSafe rq = Finite p /\ limitSafe rq = Finite l /\
    1 <= p /\ 1 <= l /\ l <= 50 /\
    match Query.page rq with
    | Some (Finite x) => p == Qmax x 1
    | _ => p = 1
    end /\
    match Query.limit rq with
    | Some (Finite x) => l == Qmin (Qmax x 1) 50
    | _ => l = 20
    end /\
    (Num.isSafeInteger (Finite (p - 1)) = true ->
     Num.isSafeInteger (Finite ((p - 1) * l)) = true ->
     skip rq = Finite ((p - 1) * l) /\ 0 <= (p - 1) * l)) /\
  limitSafe (Sample.paged None (Some (Num.ofZ 1000))) = Finite 50 /\
  limitSafe (Sample.paged None (Some (Num.ofZ 0))) = Finite 1.
Proof.
  split; [|split; reflexivity].
  destruct (pageSafe_finite rq) as (p & Ep & Hp & Sp).
  destruct (limitSafe_finite rq) as (l & El & Hl1 & Hl2 & Sl).
  exists p, l. unfold skip. rewrite Ep, El.
  repeat split; try assumption.
  apply Qmult_le_0_compat; lra.
Qed.

Lemma paging_clamped_witness :
  exists p l : Q,
    pageSafe (Sample.paged (Some (Num.ofZ 3)) (Some (Num.ofZ 10))) = Finite p /\
    limitSafe (Sample.paged (Some (Num.ofZ 3)) (Some (Num.ofZ 10))) = Finite l /\
    skip (Sample.paged (Some (Num.ofZ 3)) (Some (Num.ofZ 10))) = Finite ((p - 1) * l).
Proof.
  destruct (proj1 (paging_clamped (Sample.paged (Some (Num.ofZ 3)) (Some (Num.ofZ 10)))))
    as (p & l & Ep & El & _ & _ & _ & _ & _ & Sk).
  exists p, l. split; [exact Ep|]. split; [exact El|].
  vm_compute in Ep. vm_compute in El.
  injection Ep as <-. injection El as <-.
  apply Sk; reflexivity.
Defined.

(** C3, as the specification words it, fails for the pages whose offset is
    no safe integer.  At [page=9007199254740992], [limit=20] the effective
    values are the parameters, and the handler's offset is
    180143985094819808 where [(page - 1) * limit] is 180143985094819820; at
    [page=1e308], [limit=50] the offset is [Infinity]. *)
Lemma skip_is_a_rounded_product :
  Double.value (Double.pageSafe Sample.twoTo53) = Num.ofZ (2 ^ 53) /\
  Double.value (Double.limitSafe Sample.twenty) = Num.ofZ 20 /\
  Double.value (Double.skip Sample.twoTo53 Sample.twenty) = Num.ofZ 180143985094819808 /\
  ((2 ^ 53 - 1) * 20 = 180143985094819820)%Z /\
  Num.isSafeInteger (Num.ofZ ((2 ^ 53 - 1) * 20)) = false /\
  Double.isFinite (Double.pageSafe Sample.tenTo308) = true /\
  Double.value (Double.limitSafe Sample.fifty) = Num.ofZ 50 /\
  Double.value (Double.skip Sample.tenTo308 Sample.fifty) = PosInfinity.
Proof. vm_compute. repeat split. Qed.

Example doubles_agree_on_small_pages :
  Double.value (Double.skip Sample.three Sample.ten)
  = skip (Sample.paged (Some (Double.value Sample.three)) (Some (Double.value Sample.ten))).
Proof. vm_compute. reflexivity. Qed.

Example page_three_of_ten :
  skip (Sample.paged (Some (Num.ofZ 3)) (Some (Num.ofZ 10))) = Finite 20.
Proof. reflexivity. Qed.

Example page_not_a_number :
  pageSafe (Sample.paged (Some NaN) (Some PosInfinity)) = Finite 1 /\
  limitSafe (Sample.paged (Some NaN) (Some PosInfinity)) = Finite 20.
Proof. split; reflexivity. Qed.

Local Close Scope Q_scope.

(** ** Search patterns *)

Lemma escape_covers_meta c : engineMeta c = true -> inClass escapeClass c = true.
Proof.
  intros M. generalize (by_cases_on_char
    (fun c => implb (engineMeta c) (inClass escapeClass c)) eq_refl c).
  now rewrite M.
Qed.

Lemma escaped_is_no_sequence c :
  inClass escapeClass c = true -> engineEscapeSequence c = false.
Proof.
  intros M. generalize (by_cases_on_char
    (fun c => implb (inClass escapeClass c) (negb (engineEscapeSequence c))) eq_refl c).
  rewrite M. simpl. now rewrite negb_true_iff.
Qed.

Lemma backslash_is_meta c : Ascii.eqb c Js.backslash = true -> engineMeta c = true.
Proof. intros E. apply Ascii.eqb_eq in E. now subst c. Qed.

Lemma escapeRegex_chars q :
  Js.chars (escapeRegex q)
  = flat_map (fun c => if inClass escapeClass c then [Js.backslash; c] else [c])
             (Js.chars q).
Proof. apply chars_str. Qed.

(** The engine reads an escaped text as that text. *)
Lemma compile_escaped l :
  compilePattern
    (flat_map (fun c => if inClass escapeClass c then [Js.backslash; c] else [c]) l)
  = Literal l.
Proof.
  induction l as [|c t IH]; [reflexivity|].
  cbn [flat_map]. destruct (inClass escapeClass c) eqn:K.
  - cbn [app compilePattern].
    replace (Ascii.eqb Js.backslash Js.backslash) with true by reflexivity.
    rewrite (escaped_is_no_sequence c K), IH. reflexivity.
  - cbn [app compilePattern].
    destruct (Ascii.eqb c Js.backslash) eqn:B.
    + apply backslash_is_meta, escape_covers_meta in B. congruence.
    + destruct (engineMeta c) eqn:M.
      * apply escape_covers_meta in M. congruence.
      * now rewrite IH.
Qed.

Lemma compile_escapeRegex q :
  compilePattern (Js.chars (escapeRegex q)) = Literal (Js.chars q).
Proof. rewrite escapeRegex_chars. apply compile_escaped. Qed.

Lemma prefixCI_spec needle : forall hay,
  prefixCI needle hay = true <->
  exists mid post, hay = mid ++ post /\ map Js.lowerChar mid = map Js.lowerChar needle.
Proof.
  induction needle as [|a n IH]; intros hay; cbn [prefixCI].
  - split; [|reflexivity]. intros _. exists [], hay. split; reflexivity.
  - destruct hay as [|b h].
    + split; [discriminate|]. intros (mid & post & E & M).
      symmetry in E. apply app_eq_nil in E. destruct E as [-> _]. discriminate.
    + rewrite andb_true_iff, Ascii.eqb_eq, IH. split.
      * intros (E & mid & post & -> & M). exists (b :: mid), post.
        split; [reflexivity|]. cbn [map]. now rewrite M, E.
      * intros (mid & post & E & M). destruct mid as [|m mid]; [discriminate|].
        injection E as -> ->. injection M as M1 M2. split; [now symmetry|].
        exists mid, post. split; [reflexivity | exact M2].
Qed.

Lemma includesCI_spec needle : forall hay,
  includesCI needle hay = true <->
  exists pre mid post,
    hay = pre ++ mid ++ post /\ map Js.lowerChar mid = map Js.lowerChar needle.
Proof.
  induction hay as [|b h IH].
  - cbn [includesCI]. rewrite orb_false_r, prefixCI_spec. split.
    + intros (mid & post & E & M). exists [], mid, post. split; assumption.
    + intros (pre & mid & post & E & M). symmetry in E.
      apply app_eq_nil in E. destruct E as [-> E]. exists mid, post. split; [|exact M].
      now rewrite E.
  - cbn [includesCI]. rewrite orb_true_iff, prefixCI_spec, IH. split.
    + intros [(mid & post & E & M) | (pre & mid & post & E & M)].
      * exists [], mid, post. split; assumption.
      * exists (b :: pre), mid, post. split; [now rewrite E | exact M].
    + intros (pre & mid & post & E & M). destruct pre as [|x pre].
      * left. exists mid, post. split; assumption.
      * right. injection E as -> ->. exists pre, mid, post. split; [reflexivity|exact M].
Qed.

Lemma condHolds_escaped f q d :
  condHolds {| field := f; regex := escapeRegex q; options := "i" |} d
  = Some (includesCI (Js.chars q) (Js.chars (fieldOf f d))).
Proof.
  unfold condHolds. cbn [regex options field]. now rewrite compile_escapeRegex.
Qed.

Lemma anyCond_escaped q d :
  anyCond (searchConds (escapeRegex q)) d
  = Some (existsb (fun f => includesCI (Js.chars q) (Js.chars (fieldOf f d)))
                  searchedFields).
Proof.
  unfold searchConds. cbn [anyCond]. rewrite !condHolds_escaped. reflexivity.
Qed.

(** The filter of a request is one the store can evaluate. *)
Lemma matches_total rq d : exists b, matches (buildFilter rq) d = Some b.
Proof.
  unfold matches, buildFilter. cbn [Filter.or].
  destruct (trimmedParam (Query.q rq)) as [q|]; [|eauto].
  rewrite anyCond_escaped. eauto.
Qed.

Lemma Job_find_selects f : forall store found,
  Job_find f store = Some found -> found = filter (selects f) store.
Proof.
  induction store as [|d rest IH]; intros found; cbn [Job_find filter].
  - now intros [= <-].
  - unfold selects at 1. destruct (matches f d) as [b|]; [|discriminate].
    destruct (Job_find f rest) as [fr|]; [|discriminate].
    intros [= <-]. rewrite <- (IH fr eq_refl). reflexivity.
Qed.

Lemma Job_find_total rq store : exists found, Job_find (buildFilter rq) store = Some found.
Proof.
  induction store as [|d rest (fr & IH)]; cbn [Job_find]; [eauto|].
  destruct (matches_total rq d) as (b & ->). rewrite IH. eauto.
Qed.

(** C6.  A search string that is not blank reaches the store as four
    [$regex] conditions, on title, department, state and qualification,
    joined by [$or], each with option [i] and the escaped string as
    pattern.  The engine reads that pattern as the string itself, every
    character standing for itself, so no operator is compiled and no syntax
    error can arise: a document satisfies the clause exactly when the string
    occurs in one of the four fields, letter case aside, and the query is
    always evaluated. *)
Theorem search_is_literal (rq : Query.t) (raw : string) :
  Query.q rq = Some raw -> Js.trim raw <> "" ->
  let q := Js.trim raw in
  Filter.or (buildFilter rq) = Some (searchConds (escapeRegex q)) /\
  compilePattern (Js.chars (escapeRegex q)) = Literal (Js.chars q) /\
  (forall c, engineMeta c = true -> inClass escapeClass c = true) /\
  (forall d,
     anyCond (searchConds (escapeRegex q)) d
     = Some (existsb (fun f => includesCI (Js.chars q) (Js.chars (fieldOf f d)))
                     searchedFields)) /\
  (forall d,
     anyCond (searchConds (escapeRegex q)) d = Some true <->
     occursCI q (Job.title d) \/ occursCI q (Job.department d) \/
     occursCI q (Job.state d) \/ occursCI q (Job.qualification d)) /\
  (forall store, exists found, Job_find (buildFilter rq) store = Some found).
Proof.
  intros Hq NE q. subst q. repeat split.
  - unfold buildFilter. cbn [Filter.or]. unfold trimmedParam. rewrite Hq.
    apply truthy_true in NE. now rewrite NE.
  - apply compile_escapeRegex.
  - apply escape_covers_meta.
  - apply anyCond_escaped.
  - rewrite anyCond_escaped. intros [= E]. unfold searchedFields in E.
    cbn [existsb fieldOf] in E. rewrite orb_false_r, !orb_true_iff in E.
    unfold occursCI. rewrite <- !includesCI_spec. tauto.
  - rewrite anyCond_escaped. unfold occursCI. rewrite <- !includesCI_spec.
    intros E. f_equal. unfold searchedFields. cbn [existsb fieldOf].
    rewrite orb_false_r, !orb_true_iff. tauto.
  - apply Job_find_total.
Qed.

Lemma search_is_literal_witness :
  compilePattern (Js.chars (escapeRegex (Js.trim " c++ "))) = Literal (Js.chars (Js.trim " c++ ")).
Proof.
  apply (search_is_literal
           {| Query.type := None; Query.q := Some " c++ "; Query.state := None;
              Query.qualification := None; Query.department := None;
              Query.includeExpired := None; Query.page := None; Query.limit := None |}
           " c++ ").
  - reflexivity.
  - discriminate.
Defined.

Example escape_c_plus_plus :
  escapeRegex "c++" = Js.str ["c"; Js.backslash; "+"; Js.backslash; "+"]%char /\
  compilePattern (Js.chars "c++") = Operators /\
  compilePattern (Js.chars (escapeRegex "c++")) = Literal ["c"; "+"; "+"]%char.
Proof. repeat split. Qed.

Example search_c_plus_plus :
  option_map (fun r => match payload r with ListBody items _ _ _ _ => map Job.title items
                                        | _ => [] end)
    (getJobs {| Query.type := None; Query.q := Some "C++"; Query.state := None;
                Query.qualification := None; Query.department := None;
                Query.includeExpired := None; Query.page := None; Query.limit := None |}
             [ Sample.job "a" "Senior c++ Developer" false 1;
               Sample.job "b" "Accountant" false 2;
               Sample.job "c" "ccc clerk" false 3 ])
  = Some ["Senior c++ Developer"].
Proof. reflexivity. Qed.

(** ** The page of results *)

Lemma insertNewest_In d l x : In x (insertNewest d l) <-> x = d \/ In x l.
Proof.
  induction l as [|y t IH]; cbn [insertNewest].
  - simpl. intuition congruence.
  - destruct (Job.createdAt y <=? Job.createdAt d)%N; simpl in *; [intuition congruence|].
    rewrite IH. intuition congruence.
Qed.

Lemma sortNewestFirst_In l x : In x (sortNewestFirst l) <-> In x l.
Proof.
  induction l as [|d t IH]; cbn [sortNewestFirst]; [reflexivity|].
  rewrite insertNewest_In, IH. simpl. intuition congruence.
Qed.

Lemma insertNewest_sorted d l :
  StronglySorted newerFirst l -> StronglySorted newerFirst (insertNewest d l).
Proof.
  induction 1 as [|y t St IH Fa]; cbn [insertNewest].
  - repeat constructor.
  - destruct (N.leb_spec (Job.createdAt y) (Job.createdAt d)) as [L | L].
    + constructor; [now constructor|].
      constructor; [exact L|].
      eapply Forall_impl; [|exact Fa]. unfold newerFirst. intros z Hz. lia.
    + constructor; [exact IH|].
      apply Forall_forall. intros z Hz. apply insertNewest_In in Hz.
      destruct Hz as [-> | Hz].
      * unfold newerFirst. lia.
      * rewrite Forall_forall in Fa. now apply Fa.
Qed.

Lemma sortNewestFirst_sorted l : StronglySorted newerFirst (sortNewestFirst l).
Proof.
  induction l as [|d t IH]; cbn [sortNewestFirst]; [constructor|].
  now apply insertNewest_sorted.
Qed.

Lemma StronglySorted_skipn {A} (R : A -> A -> Prop) n : forall l,
  StronglySorted R l -> StronglySorted R (skipn n l).
Proof.
  induction n as [|n IH]; intros l St; [exact St|].
  destruct l as [|x t]; [constructor|]. cbn [skipn].
  apply IH. now inversion St.
Qed.

Lemma StronglySorted_firstn {A} (R : A -> A -> Prop) n : forall l,
  StronglySorted R l -> StronglySorted R (firstn n l).
Proof.
  induction n as [|n IH]; intros l St; [constructor|].
  destruct l as [|x t]; [constructor|]. cbn [firstn].
  inversion St as [|? ? St' Fa]; subst. constructor; [now apply IH|].
  rewrite Forall_forall in *. intros z Hz. apply Fa.
  clear - Hz. revert n Hz. induction t as [|y t IHt]; intros [|n]; simpl; try easy.
  intros [-> | Hz]; [now left | right; eauto].
Qed.

Lemma window_incl {A} sk lim (l : list A) : incl (firstn lim (skipn sk l)) l.
Proof.
  intros x Hx.
  rewrite <- (firstn_skipn sk l). apply in_or_app. right.
  rewrite <- (firstn_skipn lim (skipn sk l)). apply in_or_app. now left.
Qed.

Local Open Scope Q_scope.

Lemma toCount_spec a n :
  Num.toCount a = Some n -> exists x, a = Finite x /\ inject_Z (Z.of_nat n) == x.
Proof.
  destruct a as [x| | |]; cbn [Num.toCount]; try discriminate.
  destruct (Qeq_bool x (inject_Z (Qfloor x))) eqn:E; [|discriminate].
  destruct (0 <=? Qfloor x)%Z eqn:P; [|discriminate]. cbn [andb].
  intros [= <-]. exists x. split; [reflexivity|].
  apply Qeq_bool_iff in E. apply Z.leb_le in P.
  rewrite Z2Nat.id by exact P. now symmetry.
Qed.

Lemma toCount_whole n : (0 <= n)%Z -> Num.toCount (Finite (n # 1)) = Some (Z.to_nat n).
Proof.
  intros P. cbn [Num.toCount].
  assert (F : Qfloor (n # 1) = n) by (cbn [Qfloor]; apply Z.div_1_r).
  rewrite F. apply Z.leb_le in P. rewrite P.
  replace (Qeq_bool (n # 1) (inject_Z n)) with true; [reflexivity|].
  symmetry. apply Qeq_bool_iff. reflexivity.
Qed.

Lemma pageSafe_whole rq :
  wholeNumber (Query.page rq) = true ->
  exists n, pageSafe rq = Finite (n # 1) /\ (1 <= n)%Z.
Proof.
  unfold pageSafe, pageOf, wholeNumber.
  destruct (Query.page rq) as [[[n d]| | |]|]; cbn [Num.isFinite Qden];
    try (intros _; exists 1%Z; split; [reflexivity | lia]).
  intros D. apply Pos.eqb_eq in D. subst d. cbn [Num.max Num.ofZ].
  destruct (Qle_bool (n # 1) (inject_Z 1)) eqn:E.
  - exists 1%Z. split; [reflexivity | lia].
  - exists n. split; [reflexivity|]. apply Qle_bool_false in E.
    unfold Qlt in E. simpl in E. lia.
Qed.

Lemma limitSafe_whole rq :
  wholeNumber (Query.limit rq) = true ->
  exists n, limitSafe rq = Finite (n # 1) /\ (1 <= n)%Z.
Proof.
  unfold limitSafe, limitOf, wholeNumber.
  destruct (Query.limit rq) as [[[n d]| | |]|]; cbn [Num.isFinite Qden];
    try (intros _; exists 20%Z; split; [reflexivity | lia]).
  intros D. apply Pos.eqb_eq in D. subst d. cbn [Num.max Num.min Num.ofZ].
  destruct (Qle_bool (n # 1) (inject_Z 1)) eqn:E.
  - exists 1%Z. split; [reflexivity | lia].
  - apply Qle_bool_false in E. unfold Qlt in E. simpl in E.
    destruct (Qle_bool (n # 1) (inject_Z 50)).
    + exists n. split; [reflexivity | lia].
    + exists 50%Z. split; [reflexivity | lia].
Qed.

Lemma getJobs_answers rq store :
  wholeNumber (Query.page rq) && wholeNumber (Query.limit rq) = true ->
  exists r, getJobs rq store = Some r.
Proof.
  intros W. apply andb_prop in W. destruct W as [Wp Wl].
  destruct (pageSafe_whole rq Wp) as (p & Ep & Hp).
  destruct (limitSafe_whole rq Wl) as (l & El & Hl).
  destruct (Job_find_total rq store) as (found & Ef).
  unfold getJobs, skip. rewrite Ep, El, Ef.
  assert (S : Num.mul (Num.sub (Finite (p # 1)) (Num.ofZ 1)) (Finite (l # 1))
              = Finite (((p * 1 + -1 * 1) * l) # 1)) by reflexivity.
  rewrite S, !toCount_whole by nia. eauto.
Qed.

(** The number of pages, by what it has to satisfy. *)
Lemma pages_spec (total : nat) (l : Q) :
  1 <= l ->
  let tp := Z.max (Qceiling (inject_Z (Z.of_nat total) / l)) 1 in
  Num.max (Num.ceil (Num.div (Num.ofNat total) (Finite l))) (Num.ofZ 1) = Num.ofZ tp /\
  (1 <= tp)%Z /\
  inject_Z (Z.of_nat total) <= inject_Z tp * l /\
  (total <> 0%nat -> inject_Z (tp - 1) * l < inject_Z (Z.of_nat total)).
Proof.
  intros Hl tp. set (t := inject_Z (Z.of_nat total)).
  assert (Lpos : 0 < l) by lra.
  assert (Tpos : inject_Z 0 <= t) by (unfold t; rewrite <- Zle_Qle; lia).
  change (inject_Z 0) with 0 in Tpos.
  assert (NZ : Qeq_bool l 0 = false).
  { destruct (Qeq_bool l 0) eqn:E; [|reflexivity]. apply Qeq_bool_iff in E. lra. }
  set (c := Qceiling (t / l)).
  assert (Up : t / l <= inject_Z c) by apply Qle_ceiling.
  assert (Lo : inject_Z (c - 1) < t / l) by apply Qceiling_lt.
  assert (Tl : t == (t / l) * l) by (field; lra).
  repeat split.
  - unfold Num.div, Num.ofNat, Num.ofZ. fold t. rewrite NZ.
    change (Finite (if Qle_bool (inject_Z c) (inject_Z 1) then inject_Z 1 else inject_Z c)
            = Finite (inject_Z (Z.max c 1))).
    destruct (Qle_bool (inject_Z c) (inject_Z 1)) eqn:E.
    + apply Qle_bool_iff in E. rewrite <- Zle_Qle in E. rewrite Z.max_r by exact E.
      reflexivity.
    + apply Qle_bool_false in E. rewrite <- Zlt_Qlt in E. rewrite Z.max_l by lia.
      reflexivity.
  - apply Z.le_max_r.
  - assert (inject_Z c <= inject_Z tp) by (rewrite <- Zle_Qle; apply Z.le_max_l).
    rewrite Tl. apply Qmult_le_compat_r; lra.
  - intros NE.
    assert (Tp : inject_Z 0 < t) by (unfold t; rewrite <- Zlt_Qlt; lia).
    change (inject_Z 0) with 0 in Tp.
    assert (Cp : (1 <= c)%Z).
    { assert (0 < t / l) by (apply Qlt_shift_div_l; lra).
      assert (C0 : inject_Z 0 < inject_Z c) by (change (inject_Z 0) with 0; lra).
      rewrite <- Zlt_Qlt in C0. lia. }
    unfold tp. fold t. fold c. rewrite Z.max_l by exact Cp.
    apply Qlt_le_trans with (t / l * l).
    + apply Qmult_lt_compat_r; [exact Lpos | exact Lo].
    + rewrite <- Tl. apply Qle_refl.
Qed.

(** C4.  Every page [GET /jobs] returns reports [total], the number of
    documents the filter selects whatever the page; [totalPages], which is
    [max(ceil(total / limit), 1)]: at least 1, enough pages for every
    match and, when there is a match, not one page too many; and [items],
    at most [limit] of the selected documents, newest first.  A page is
    returned whenever [page] and [limit] are whole numbers and the offset
    is a safe integer. *)
Theorem listing_page (rq : Query.t) (store : list Job.t) :
  (wholeNumber (Query.page rq) && wholeNumber (Query.limit rq) = true ->
   Num.isSafeInteger (skip rq) = true ->
   exists r, getJobs rq store = Some r) /\
  (forall r, getJobs rq store = Some r ->
   exists items l,
     let total := List.length (filter (selects (buildFilter rq)) store) in
     let tp := Z.max (Qceiling (inject_Z (Z.of_nat total) / l)) 1 in
     limitSafe rq = Finite l /\
     r = json (ListBody items total (pageSafe rq) (Finite l) (Num.ofZ tp)) /\
     (1 <= tp)%Z /\
     inject_Z (Z.of_nat total) <= inject_Z tp * l /\
     (total <> 0%nat -> inject_Z (tp - 1) * l < inject_Z (Z.of_nat total)) /\
     inject_Z (Z.of_nat (List.length items)) <= l /\
     StronglySorted newerFirst items /\
     incl items (filter (selects (buildFilter rq)) store)).
Proof.
  split; [intros W _; now apply getJobs_answers|].
  intros r. unfold getJobs.
  destruct (Num.toCount (skip rq)) as [sk|] eqn:Es; [|discriminate].
  destruct (Num.toCount (limitSafe rq)) as [lim|] eqn:El; [|discriminate].
  destruct (Job_find (buildFilter rq) store) as [found|] eqn:Ef; [|discriminate].
  apply Job_find_selects in Ef. subst found.
  destruct (limitSafe_finite rq) as (l & Hl & L1 & _).
  apply toCount_spec in El. destruct El as (l' & El & Elim).
  rewrite Hl in El. injection El as <-.
  destruct (pages_spec (List.length (filter (selects (buildFilter rq)) store)) l L1)
    as (P1 & P2 & P3 & P4).
  rewrite Hl, P1. intros E. injection E as <-.
  exists (firstn lim (skipn sk (sortNewestFirst
            (filter (selects (buildFilter rq)) store)))), l.
  repeat split; try assumption.
  - rewrite <- Elim, <- Zle_Qle. apply inj_le. rewrite length_firstn. lia.
  - apply StronglySorted_firstn, StronglySorted_skipn, sortNewestFirst_sorted.
  - intros x Hx. apply window_incl in Hx.
    exact (proj1 (sortNewestFirst_In _ _) Hx).
Qed.

Local Close Scope Q_scope.

Lemma listing_page_witness :
  let rq := Sample.paged (Some (Num.ofZ 2)) (Some (Num.ofZ 2)) in
  let store := [ Sample.job "a" "A" false 1; Sample.job "b" "B" false 4;
                 Sample.job "c" "C" true 3; Sample.job "d" "D" false 2 ] in
  (exists r, getJobs rq store = Some r) /\
  (exists items l,
     limitSafe rq = Finite l /\
     (inject_Z (Z.of_nat (List.length items)) <= l)%Q /\
     StronglySorted newerFirst items).
Proof.
  intros rq store. split.
  - apply (proj1 (listing_page rq store)); reflexivity.
  - destruct (proj2 (listing_page rq store)
                (json (ListBody [Sample.job "a" "A" false 1] 3
                         (Finite 2) (Finite 2) (Finite 2)))
                eq_refl)
      as (items & l & L & _ & _ & _ & _ & Short & Sorted & _).
    exists items, l. repeat split; assumption.
Defined.

Example second_page_of_two :
  option_map (fun r => match payload r with
                       | ListBody items total _ _ pages => (map Job.slug items, total, pages)
                       | _ => ([], 0, NaN)
                       end)
    (getJobs (Sample.paged (Some (Num.ofZ 2)) (Some (Num.ofZ 2)))
             [ Sample.job "a" "A" false 1; Sample.job "b" "B" false 4;
               Sample.job "c" "C" true 3; Sample.job "d" "D" false 2 ])
  = Some (["a"], 3, Finite 2).
Proof. reflexivity. Qed.

(** ** Expired listings *)

Lemma getJobs_inv rq store r :
  getJobs rq store = Some r ->
  exists sk lim total page limit pages,
    r = json (ListBody (firstn lim (skipn sk (sortNewestFirst
                          (filter (selects (buildFilter rq)) store))))
                       total page limit pages).
Proof.
  unfold getJobs.
  destruct (Num.toCount (skip rq)) as [sk|]; [|discriminate].
  destruct (Num.toCount (limitSafe rq)) as [lim|]; [|discriminate].
  destruct (Job_find (buildFilter rq) store) as [found|] eqn:Ef; [|discriminate].
  apply Job_find_selects in Ef. subst found.
  intros [= <-]. eexists _, _, _, _, _, _. reflexivity.
Qed.

Lemma selects_fields f d : selects f d = true -> matchesFields f d = true.
Proof.
  unfold selects, matches. destruct (Filter.or f) as [conds|].
  - destruct (anyCond conds d) as [b|]; [|discriminate].
    intros E. now apply andb_prop in E.
  - easy.
Qed.

Lemma selects_live f d :
  Filter.isExpired f = Some false -> selects f d = true -> Job.isExpired d = false.
Proof.
  intros F S. apply selects_fields in S. unfold matchesFields in S. rewrite F in S.
  repeat (apply andb_prop in S; destruct S as [S ?]).
  destruct (Job.isExpired d); [discriminate | reflexivity].
Qed.

Lemma includeExpired_marker rq :
  includeExpired rq = true <-> Query.includeExpired rq = Some "1".
Proof.
  unfold includeExpired, Js.orDefault.
  destruct (Query.includeExpired rq) as [s|]; [|split; discriminate].
  destruct (Js.truthy s) eqn:T.
  - rewrite String.eqb_eq. split; congruence.
  - apply truthy_false in T. subst s. split; discriminate.
Qed.

(** C5.  Unless [includeExpired] is the string ["1"], the filter demands
    [isExpired = false] and no item of the page is expired.  With
    [includeExpired=1] the filter says nothing about [isExpired], and
    expired listings are returned with the others. *)
Theorem expired_hidden_by_default (rq : Query.t) (store : list Job.t) :
  (Query.includeExpired rq <> Some "1" ->
   Filter.isExpired (buildFilter rq) = Some false /\
   forall r items total page limit pages,
     getJobs rq store = Some r ->
     payload r = ListBody items total page limit pages ->
     Forall (fun d => Job.isExpired d = false) items) /\
  (Query.includeExpired rq = Some "1" ->
   Filter.isExpired (buildFilter rq) = None) /\
  (exists r items total page limit pages d,
     getJobs Sample.withExpired
       [Sample.job "a" "A" false 1; Sample.job "b" "B" true 2] = Some r /\
     payload r = ListBody items total page limit pages /\
     In d items /\ Job.isExpired d = true).
Proof.
  split; [|split].
  - intros NotMarked.
    assert (F : Filter.isExpired (buildFilter rq) = Some false).
    { unfold buildFilter. cbn [Filter.isExpired].
      destruct (includeExpired rq) eqn:I; [|reflexivity].
      now apply includeExpired_marker in I. }
    split; [exact F|].
    intros r items total page limit pages G P.
    apply getJobs_inv in G. destruct G as (sk & lim & t & p & l & tp & ->).
    cbn [payload json reply] in P. injection P as <- _ _ _ _.
    apply Forall_forall. intros d Hd.
    apply window_incl, sortNewestFirst_In, filter_In in Hd.
    destruct Hd as [_ S]. now apply (selects_live _ _ F).
  - intros Marked. apply includeExpired_marker in Marked.
    unfold buildFilter. cbn [Filter.isExpired]. now rewrite Marked.
  - eexists _, _, _, _, _, _, (Sample.job "b" "B" true 2).
    split; [reflexivity|]. split; [reflexivity|]. split; [|reflexivity].
    left. reflexivity.
Qed.

Lemma expired_hidden_by_default_witness :
  Filter.isExpired (buildFilter Sample.query) = Some false /\
  Forall (fun d => Job.isExpired d = false) [Sample.job "a" "A" false 1].
Proof.
  destruct (proj1 (expired_hidden_by_default Sample.query
                     [Sample.job "a" "A" false 1; Sample.job "b" "B" true 2])
                  ltac:(discriminate)) as [F Live].
  split; [exact F|].
  apply (Live (json (ListBody [Sample.job "a" "A" false 1] 1
                       (Finite 1) (Finite 20) (Finite 1)))
              [Sample.job "a" "A" false 1] 1 (Finite 1) (Finite 20) (Finite 1)
              eq_refl eq_refl).
Defined.

Example expired_listing_left_out :
  option_map (fun r => match payload r with ListBody items _ _ _ _ => map Job.slug items
                                        | _ => [] end)
    (getJobs Sample.query [Sample.job "a" "A" false 1; Sample.job "b" "B" true 2])
  = Some ["a"].
Proof. reflexivity. Qed.

(** ** The access gate *)

Lemma requireAdmin_refusals `{AuthLib} req r :
  requireAdmin req = Respond r -> r = unauthorized \/ r = forbidden.
Proof.
  unfold requireAdmin.
  destruct (getTokenFromRequest req) as [token|]; [|intros [= <-]; now left].
  destruct (negb (Js.truthy token)); [intros [= <-]; now left|].
  destruct (verifyAuthToken token) as [p|e]; [|intros [= <-]; now left].
  destruct (negb (Claims.role p =? "admin")); [intros [= <-]; now right | discriminate].
Qed.

Lemma requireAdmin_bad_token `{AuthLib} req token e :
  getTokenFromRequest req = Some token -> token <> "" ->
  verifyAuthToken token = Throws e ->
  requireAdmin req = Respond unauthorized.
Proof.
  intros G NE V. unfold requireAdmin. rewrite G.
  apply truthy_true in NE. now rewrite NE, V.
Qed.

(** C7.  The gate answers 401 when the request carries no token, and the
    same 401 when verification of the token throws, whatever the reason:
    two requests whose tokens fail, one expired and one malformed, get
    equal responses.  It answers 403 when the token verifies with a role
    other than [admin], and otherwise passes the verified claims on. *)
Theorem gate_outcomes `{AuthLib} (req : Request) :
  (getTokenFromRequest req = None \/ getTokenFromRequest req = Some "" ->
   requireAdmin req = Respond unauthorized) /\
  (forall token e,
     getTokenFromRequest req = Some token -> token <> "" ->
     verifyAuthToken token = Throws e ->
     requireAdmin req = Respond unauthorized /\
     forall req' token' e',
       getTokenFromRequest req' = Some token' -> token' <> "" ->
       verifyAuthToken token' = Throws e' ->
       requireAdmin req' = requireAdmin req) /\
  (forall token claims,
     getTokenFromRequest req = Some token -> token <> "" ->
     verifyAuthToken token = Returns claims ->
     (Claims.role claims <> "admin" -> requireAdmin req = Respond forbidden) /\
     (Claims.role claims = "admin" -> requireAdmin req = Next claims)) /\
  status unauthorized = 401 /\ status forbidden = 403.
Proof.
  split; [|split; [|split; [|split; reflexivity]]].
  - intros [G | G]; unfold requireAdmin; now rewrite G.
  - intros token e G NE V.
    pose proof (requireAdmin_bad_token req token e G NE V) as Here.
    split; [exact Here|].
    intros req' token' e' G' NE' V'.
    now rewrite Here, (requireAdmin_bad_token req' token' e' G' NE' V').
  - intros token claims G NE V. apply truthy_true in NE.
    unfold requireAdmin. rewrite G, NE, V. cbn [negb].
    split; intros R.
    + apply String.eqb_neq in R. now rewrite R.
    + apply String.eqb_eq in R. now rewrite R.
Qed.

Lemma gate_outcomes_witness :
  @requireAdmin Sample.auth (Sample.cookieReq "garbage")
  = @requireAdmin Sample.auth (Sample.cookieReq "expired").
Proof.
  apply (proj2 (proj1 (proj2 (@gate_outcomes Sample.auth (Sample.cookieReq "expired")))
                  "expired" TokenExpired eq_refl ltac:(discriminate) eq_refl)
           (Sample.cookieReq "garbage") "garbage" TokenMalformed).
  - reflexivity.
  - discriminate.
  - reflexivity.
Defined.

Example gate_lets_admin_through :
  @requireAdmin Sample.auth (Sample.cookieReq "admin")
  = Next {| Claims.sub := "u1"; Claims.name := None;
            Claims.email := "root@example.org"; Claims.role := "admin" |}.
Proof. reflexivity. Qed.

Example gate_stops_user :
  @requireAdmin Sample.auth (Sample.cookieReq "user") = Respond forbidden.
Proof. reflexivity. Qed.

(** ** Accounts *)

Lemma trim_toLowerCase s : Js.trim (Js.toLowerCase s) = Js.toLowerCase (Js.trim s).
Proof.
  unfold Js.trim, Js.toLowerCase. rewrite !chars_str. f_equal.
  unfold Js.trimEnd, Js.trimStart.
  rewrite (dropWhile_map _ _ _ lowerChar_space), <- map_rev,
          (dropWhile_map _ _ _ lowerChar_space), map_rev.
  reflexivity.
Qed.

Lemma zEmail_accepts `{Runtime} v s : zEmail v = Some s -> isEmail s = true.
Proof.
  unfold zEmail. destruct v as [[| | |t| |]|]; try discriminate.
  destruct (isEmail t) eqn:E; [|discriminate]. now intros [= <-].
Qed.

Lemma parseRegister_email `{Runtime} b name email password :
  parseRegister b = Some (name, email, password) -> isEmail email = true.
Proof.
  unfold parseRegister. destruct b as [| | | | |o]; try discriminate.
  destruct (zString 2 (prop "name" o)); [|discriminate].
  destruct (zEmail (prop "email" o)) as [e|] eqn:E; [|discriminate].
  destruct (zString 8 (prop "password" o)); [|discriminate].
  intros [= _ <- _]. now apply zEmail_accepts in E.
Qed.

(** The address as the schema stores it is the lowercased address. *)
Lemma stored_email `{Runtime} email :
  isEmail email = true ->
  Js.trim (Js.toLowerCase (Js.toLowerCase email)) = Js.toLowerCase email.
Proof.
  intros E. rewrite toLowerCase_idempotent, trim_toLowerCase.
  now rewrite (isEmail_trimmed email E).
Qed.

Lemma User_exists_In users email :
  User_exists users email = true <-> In email (map User.email users).
Proof.
  unfold User_exists. rewrite existsb_exists, in_map_iff.
  split; intros (u & A & B).
  - apply String.eqb_eq in B. eauto.
  - exists u. split; [exact B | now apply String.eqb_eq].
Qed.

Lemma User_findOne_None users email :
  ~ In email (map User.email users) -> User_findOne users email = None.
Proof.
  intros NI. unfold User_findOne.
  destruct (find _ users) as [u|] eqn:F; [|reflexivity].
  apply find_some in F. destruct F as [I E]. apply String.eqb_eq in E.
  elim NI. rewrite <- E. now apply in_map.
Qed.

Lemma User_findOne_Some users email :
  In email (map User.email users) ->
  exists u, User_findOne users email = Some u /\ In u users /\ User.email u = email.
Proof.
  intros I. unfold User_findOne.
  destruct (find _ users) as [u|] eqn:F.
  - apply find_some in F. destruct F as [Iu E]. apply String.eqb_eq in E. eauto.
  - apply in_map_iff in I. destruct I as (u & E & Iu).
    apply (find_none _ _ F) in Iu. apply String.eqb_neq in Iu. contradiction.
Qed.

(** C8.  Two login attempts with well-formed bodies, one for an address
    no account has, one for a known address with a password that fails
    verification against the stored hash, get equal responses: status 401,
    the same error body, no cookie. *)
Theorem login_failures_alike `{AuthLib} `{Runtime} (users : list User.t)
  (req1 req2 : Request) (email1 password1 email2 password2 : string) :
  parseLogin (body req1) = Some (email1, password1) ->
  parseLogin (body req2) = Some (email2, password2) ->
  ~ In (Js.toLowerCase email1) (map User.email users) ->
  In (Js.toLowerCase email2) (map User.email users) ->
  (forall u, In u users -> User.email u = Js.toLowerCase email2 ->
             verifyPassword password2 (User.password u) = false) ->
  login req1 users = login req2 users /\
  status (login req1 users) = 401 /\
  payload (login req1 users) = ErrorBody "Invalid email or password" /\
  setCookie (login req1 users) = None.
Proof.
  intros P1 P2 Unknown Known Wrong.
  assert (L1 : login req1 users = reply 401 (ErrorBody "Invalid email or password")).
  { unfold login. now rewrite P1, (User_findOne_None _ _ Unknown). }
  assert (L2 : login req2 users = reply 401 (ErrorBody "Invalid email or password")).
  { unfold login. rewrite P2.
    destruct (User_findOne_Some _ _ Known) as (u & -> & Iu & Eu).
    now rewrite (Wrong u Iu Eu). }
  rewrite L1, L2. repeat split.
Qed.

Lemma login_failures_alike_witness :
  @login Sample.auth Sample.runtime
         (Sample.credentials "Ravi" "nobody@example.org" "password1")
         [Sample.user "asha@example.org" "s$secret-one"]
  = @login Sample.auth Sample.runtime
           (Sample.credentials "Asha" "Asha@Example.org" "password1")
           [Sample.user "asha@example.org" "s$secret-one"].
Proof.
  apply (@login_failures_alike Sample.auth Sample.runtime
           [Sample.user "asha@example.org" "s$secret-one"]
           (Sample.credentials "Ravi" "nobody@example.org" "password1")
           (Sample.credentials "Asha" "Asha@Example.org" "password1")
           "nobody@example.org" "password1" "Asha@Example.org" "password1").
  - reflexivity.
  - reflexivity.
  - simpl. intros [E | []]. discriminate.
  - simpl. left. reflexivity.
  - intros u [<- | []] _. reflexivity.
Defined.

Example login_succeeds :
  @login Sample.auth Sample.runtime
         (Sample.credentials "Asha" "Asha@Example.org" "secret-one")
         [Sample.user "asha@example.org" "s$secret-one"]
  = {| status := 200; payload := OkBody; setCookie := Some "auth=signed:u1" |}.
Proof. reflexivity. Qed.

(** *** Registration *)

Lemma User_create_cases env name email password role users :
  let doc := castUser env name email password role in
  (User_create env name email password role users = inl ValidationFailed /\
   userValid doc = false) \/
  (User_create env name email password role users = inl DuplicateKey /\
   In (User.email doc) (map User.email users)) \/
  (User_create env name email password role users = inr (doc, users ++ [doc]) /\
   ~ In (User.email doc) (map User.email users)).
Proof.
  intros doc. unfold User_create. fold doc.
  destruct (userValid doc); cbn [negb]; [|now left].
  destruct (User_exists users (User.email doc)) eqn:X; right.
  - left. split; [reflexivity | now apply User_exists_In].
  - right. split; [reflexivity|]. rewrite <- User_exists_In. congruence.
Qed.

(** C9.  A registration with a well-formed body whose lowercased address
    belongs to a stored user is answered 409 and leaves the collection as
    it was: by the existence check when the handler runs alone, and, when
    the check read the collection before another writer stored the address,
    by the duplicate-key error of the insert.  A registration answered 201
    appends one user, with the lowercased address and role [user], to
    records that are otherwise untouched. *)
Theorem register_conflict `{AuthLib} `{Runtime} (env : Env) (req : Request)
  (seen users : list User.t) (name email password : string) :
  parseRegister (body req) = Some (name, email, password) ->
  (In (Js.toLowerCase email) (map User.email users) ->
   register env req users = (conflict, users)) /\
  (In (Js.toLowerCase email) (map User.email users) ->
   userValid (castUser env (Js.trim name) (Js.toLowerCase email)
                       (hashPassword (salt env) password) "user") = true ->
   registerAt env req seen users = (conflict, users)) /\
  (forall r users',
     registerAt env req seen users = (r, users') -> status r = 201 ->
     exists u, users' = users ++ [u] /\
               User.email u = Js.toLowerCase email /\ User.role u = "user" /\
               ~ In (Js.toLowerCase email) (map User.email users)) /\
  (forall r users',
     registerAt env req seen users = (r, users') -> status r <> 201 -> users' = users) /\
  status conflict = 409.
Proof.
  intros P. pose proof (parseRegister_email _ _ _ _ P) as Em.
  pose proof (stored_email email Em) as St.
  split; [|split; [|split; [|split; [|reflexivity]]]].
  - intros Dup. unfold register, registerAt. rewrite P.
    apply User_exists_In in Dup. now rewrite Dup.
  - intros Dup Valid. unfold registerAt. rewrite P.
    destruct (User_exists seen (Js.toLowerCase email)); [reflexivity|].
    destruct (User_create_cases env (Js.trim name) (Js.toLowerCase email)
                (hashPassword (salt env) password) "user" users)
      as [(_ & V) | [(-> & _) | (_ & Fresh)]].
    + congruence.
    + reflexivity.
    + cbn [castUser User.email] in Fresh. rewrite St in Fresh. contradiction.
  - intros r users'. unfold registerAt. rewrite P.
    destruct (User_exists seen (Js.toLowerCase email));
      [intros [= <- <-]; discriminate|].
    destruct (User_create_cases env (Js.trim name) (Js.toLowerCase email)
                (hashPassword (salt env) password) "user" users)
      as [(-> & _) | [(-> & _) | (-> & Fresh)]];
      intros [= <- <-]; try discriminate.
    intros _. eexists. split; [reflexivity|].
    cbn [castUser User.email User.role] in *. rewrite St in *. repeat split.
    exact Fresh.
  - intros r users'. unfold registerAt. rewrite P.
    destruct (User_exists seen (Js.toLowerCase email));
      [now intros [= <- <-]|].
    destruct (User_create_cases env (Js.trim name) (Js.toLowerCase email)
                (hashPassword (salt env) password) "user" users)
      as [(-> & _) | [(-> & _) | (-> & Fresh)]];
      intros [= <- <-]; try reflexivity.
    intros NotCreated. now elim NotCreated.
Qed.

Lemma register_conflict_witness :
  @register Sample.auth Sample.runtime (Sample.env 7)
            (Sample.credentials "Asha" "ASHA@example.org" "password1")
            [Sample.user "asha@example.org" "s$secret-one"]
  = (conflict, [Sample.user "asha@example.org" "s$secret-one"]).
Proof.
  apply (proj1 (@register_conflict Sample.auth Sample.runtime (Sample.env 7)
                  (Sample.credentials "Asha" "ASHA@example.org" "password1")
                  [] [Sample.user "asha@example.org" "s$secret-one"]
                  "Asha" "ASHA@example.org" "password1" eq_refl)).
  simpl. left. reflexivity.
Defined.

(** The address was free when the handler looked and taken when it wrote. *)
Example register_loses_race :
  @registerAt Sample.auth Sample.runtime (Sample.env 7)
              (Sample.credentials "Asha" "ASHA@example.org" "password1")
              [] [Sample.user "asha@example.org" "s$secret-one"]
  = (conflict, [Sample.user "asha@example.org" "s$secret-one"]).
Proof. reflexivity. Qed.

Example register_stores_lowercase :
  map User.email
      (snd (@register Sample.auth Sample.runtime (Sample.env 7)
              (Sample.credentials "Asha" "ASHA@Example.Org" "password1") []))
  = ["asha@example.org"].
Proof. reflexivity. Qed.

(** ** Listings are created live *)

Lemma prop_skip k k' v o1 o2 :
  k <> k' -> prop k (o1 ++ (k', v) :: o2) = prop k (o1 ++ o2).
Proof.
  intros NE. unfold prop. induction o1 as [|[k1 v1] o1 IH]; cbn [app find fst].
  - apply String.eqb_neq in NE. rewrite String.eqb_sym in NE. now rewrite NE.
  - destruct (k1 =? k)%string; [reflexivity | exact IH].
Qed.

(** A key [isExpired] in the body does not reach the parsed input. *)
Lemma parseJobInput_drops_isExpired `{Runtime} o1 o2 v :
  parseJobInput (JObj (o1 ++ ("isExpired", v) :: o2)) = parseJobInput (JObj (o1 ++ o2)).
Proof.
  unfold parseJobInput. now rewrite !prop_skip by discriminate.
Qed.

Lemma createJobAdmin_same `{Runtime} env data store :
  createJobAdmin env data store = createJob env data store.
Proof. reflexivity. Qed.

Lemma postAdminJob_same `{AuthLib} `{Runtime} env req store :
  postAdminJob env req store = postJob env req store.
Proof. reflexivity. Qed.

Lemma postJob_total `{AuthLib} `{Runtime} env req store :
  exists r store', postJob env req store = Some (r, store').
Proof.
  unfold postJob. destruct (requireAdmin req); [eauto|].
  destruct (parseJobInput (body req)); [apply createJob_total | eauto].
Qed.

Lemma postJob_cases `{AuthLib} `{Runtime} env req store r store' :
  postJob env req store = Some (r, store') ->
  (exists doc, status r = 200 /\ store' = store ++ [doc] /\
               Job.isExpired doc = false /\ assignedSlug r = Some (Job.slug doc)) \/
  (status r <> 200 /\ store' = store).
Proof.
  unfold postJob. destruct (requireAdmin req) as [g|claims] eqn:G.
  - intros [= <- <-]. right. split; [|reflexivity].
    destruct (requireAdmin_refusals _ _ G) as [-> | ->]; discriminate.
  - destruct (parseJobInput (body req)) as [data|].
    + intros C. apply createJob_cases in C.
      destruct C as [(slug & doc & _ & -> & S & X & ->) | (_ & St & ->)].
      * left. exists doc. repeat split; [exact X|]. cbn. now rewrite S.
      * right. split; [exact St | reflexivity].
    + intros [= <- <-]. right. split; [discriminate | reflexivity].
Qed.

(** C10.  Both creation routes always answer.  When the answer is the
    success, the store has gained exactly one document and its [isExpired]
    is [false]; otherwise the store is as before.  The body cannot change
    that: a key [isExpired], wherever it stands and whatever its value, is
    not part of what the schema yields. *)
Theorem created_listing_is_live `{AuthLib} `{Runtime} (env : Env) (req : Request)
  (store : list Job.t) :
  (exists r store', postJob env req store = Some (r, store')) /\
  (forall r store',
     postJob env req store = Some (r, store') \/
     postAdminJob env req store = Some (r, store') ->
     (status r = 200 ->
      exists doc, store' = store ++ [doc] /\ Job.isExpired doc = false /\
                  assignedSlug r = Some (Job.slug doc)) /\
     (status r <> 200 -> store' = store) /\
     (forall d, In d store' -> In d store \/ Job.isExpired d = false)) /\
  (forall o1 o2 v,
     parseJobInput (JObj (o1 ++ ("isExpired", v) :: o2)) = parseJobInput (JObj (o1 ++ o2))) /\
  postAdminJob env req store = postJob env req store.
Proof.
  split; [apply postJob_total|].
  split; [|split; [apply parseJobInput_drops_isExpired | reflexivity]].
  intros r store' P.
  assert (P' : postJob env req store = Some (r, store')) by (destruct P; assumption).
  destruct (postJob_cases _ _ _ _ _ P') as [(doc & S & -> & X & A) | (S & ->)].
  - split; [|split].
    + intros _. exists doc. repeat split; assumption.
    + intros NS. contradiction.
    + intros d Hd. apply in_app_or in Hd. destruct Hd as [Hd | [<- | []]]; auto.
  - split; [|split].
    + intros S'. contradiction.
    + reflexivity.
    + intros d Hd. now left.
Qed.

Lemma created_listing_is_live_witness :
  exists doc,
    [castJob (Sample.env 3)
       (newJob (Sample.input "Clerk" "https://x.example.org") "clerk" None None)]
    = [] ++ [doc] /\
    Job.isExpired doc = false /\
    assignedSlug (json (CreatedBody "3" "clerk")) = Some (Job.slug doc).
Proof.
  apply (proj1 (proj1 (proj2 (@created_listing_is_live Sample.auth Sample.runtime
           (Sample.env 3)
           (Sample.adminReq (Sample.jobBody "Clerk" "https://x.example.org"
                                            [("isExpired", JBool true)]))
           []))
           (json (CreatedBody "3" "clerk"))
           [castJob (Sample.env 3)
              (newJob (Sample.input "Clerk" "https://x.example.org") "clerk" None None)]
           (or_introl eq_refl))).
  reflexivity.
Defined.

Example body_cannot_expire_a_listing :
  option_map (fun x => (status (fst x), map Job.isExpired (snd x), map Job.slug (snd x)))
    (@postJob Sample.auth Sample.runtime (Sample.env 3)
       (Sample.adminReq (Sample.jobBody "Clerk" "https://x.example.org"
                                        [("isExpired", JBool true)]))
       [])
  = Some (200, [false], ["clerk"]).
Proof. reflexivity. Qed.

Example creation_needs_admin :
  option_map (fun x => (status (fst x), List.length (snd x)))
    (@postJob Sample.auth Sample.runtime (Sample.env 3)
       {| headers := [("cookie", "user")];
          body := Sample.jobBody "Clerk" "https://x.example.org" [] |}
       [])
  = Some (403, 0).
Proof. reflexivity. Qed.

(* ================================================================== *)
(** * Part III: further properties of the code *)
(* ================================================================== *)

(** ** More on slugs *)

(** X1.  Whatever the store holds, a title with a non-empty normal form is
    given the first slug of its series [base], [base-2], [base-3], ... that
    no stored document has, found within as many probes as there are
    documents, plus one. *)
Theorem ensureUniqueSlug_first_free (env : Env) (store : list Job.t) (title : string) :
  slugify title <> "" ->
  exists k : N,
    (1 <= k <= N.of_nat (S (List.length store)))%N /\
    ensureUniqueSlug env store title = Some (candidate (slugify title) k) /\
    slugTaken store (candidate (slugify title) k) = false /\
    forall j, (1 <= j < k)%N -> slugTaken store (candidate (slugify title) j) = true.
Proof.
  intros NE.
  destruct (ensureUniqueSlug_total env store title) as (s & E).
  pose proof E as E'.
  unfold ensureUniqueSlug in E'. apply truthy_true in NE. rewrite NE in E'.
  cbn [negb] in E'.
  change (probe (probeBound store) store (slugify title)
            (candidate (slugify title) 1) (1 + 1)%N = Some s) in E'.
  apply probe_least in E'; [|lia]. destruct E' as (m & -> & F & A).
  assert (B : (m <= N.of_nat (List.length store))%N).
  { assert (B : forall j, (1 <= j < 1 + N.of_nat (N.to_nat m))%N ->
                          slugTaken store (candidate (slugify title) j) = true)
      by (intros j Hj; apply A; lia).
    apply taken_candidates_bounded in B. lia. }
  exists (1 + m)%N.
  split; [lia|]. split; [exact E|]. split; [exact F | exact A].
Qed.

Lemma ensureUniqueSlug_first_free_witness :
  exists k : N,
    (1 <= k <= 3)%N /\
    ensureUniqueSlug (Sample.env 9)
      [Sample.job "clerk" "Clerk" false 1; Sample.job "clerk-3" "Clerk 3" false 2] "Clerk"
    = Some (candidate (slugify "Clerk") k).
Proof.
  destruct (ensureUniqueSlug_first_free (Sample.env 9)
              [Sample.job "clerk" "Clerk" false 1; Sample.job "clerk-3" "Clerk 3" false 2]
              "Clerk" ltac:(discriminate)) as (k & B & E & _).
  exists k. split; [exact B | exact E].
Defined.

(** *** Normalising a slug again *)

Lemma slugChar_lower c : slugChar c = true -> Js.lowerChar c = c.
Proof.
  intros S. apply Ascii.eqb_eq.
  generalize (by_cases_on_char
    (fun c => implb (slugChar c) (Ascii.eqb (Js.lowerChar c) c)) eq_refl c).
  now rewrite S.
Qed.

Lemma slugChar_kept c : slugChar c = true -> slugKeep c = true.
Proof.
  intros S. generalize (by_cases_on_char
    (fun c => implb (slugChar c) (slugKeep c)) eq_refl c).
  now rewrite S.
Qed.

Lemma slugChar_no_space c : slugChar c = true -> Js.isWhiteSpace c = false.
Proof.
  intros S. generalize (by_cases_on_char
    (fun c => implb (slugChar c) (negb (Js.isWhiteSpace c))) eq_refl c).
  rewrite S. simpl. now rewrite negb_true_iff.
Qed.

Lemma isHyphen_hyphen c : Js.isHyphen c = true -> c = Js.hyphen.
Proof.
  intros S. apply Ascii.eqb_eq.
  generalize (by_cases_on_char
    (fun c => implb (Js.isHyphen c) (Ascii.eqb c Js.hyphen)) eq_refl c).
  now rewrite S.
Qed.

Lemma replaceRuns_single_hyphens l :
  noAdjacent Js.isHyphen l = true -> Js.replaceRuns Js.isHyphen Js.hyphen l = l.
Proof.
  induction l as [|c t IH]; [reflexivity|].
  destruct t as [|c' t'].
  - intros _. destruct (Js.isHyphen c) eqn:Hc.
    + rewrite (replaceRuns_in_end _ _ c Hc). now rewrite (isHyphen_hyphen c Hc).
    + now rewrite (replaceRuns_cons_keep _ _ c [] Hc).
  - cbn [noAdjacent]. intros N. apply andb_prop in N. destruct N as [N1 N2].
    specialize (IH N2). destruct (Js.isHyphen c) eqn:Hc.
    + cbn [andb] in N1. apply negb_true_iff in N1.
      rewrite (replaceRuns_in_out _ _ c c' t' Hc N1), IH.
      now rewrite (isHyphen_hyphen c Hc).
    + now rewrite (replaceRuns_cons_keep _ _ c _ Hc), IH.
Qed.

(** X2.  A slug is its own normal form: normalising the result of
    [slugify] again changes nothing, so a title that repeats an existing
    slug starts the same series. *)
Theorem slugify_idempotent (title : string) : slugify (slugify title) = slugify title.
Proof.
  apply chars_inj. rewrite (slugify_chars (slugify title)).
  set (l := Js.chars (slugify title)).
  assert (A : forall x, In x l -> slugChar x = true).
  { apply forallb_forall. apply slugify_alphabet. }
  assert (P : noAdjacent Js.isHyphen l = true).
  { unfold l. rewrite slugify_chars. now apply replaceRuns_noAdjacent. }
  rewrite (map_fixed Js.lowerChar l) by (intros x Hx; apply slugChar_lower, A, Hx).
  rewrite (filter_all slugKeep l)
    by (apply forallb_forall; intros x Hx; apply slugChar_kept, A, Hx).
  unfold Js.trimStart, Js.trimEnd.
  rewrite (dropWhile_none _ l) by (intros x Hx; apply slugChar_no_space, A, Hx).
  rewrite (dropWhile_none _ (rev l))
    by (intros x Hx; apply slugChar_no_space, A; now apply in_rev).
  rewrite rev_involutive.
  rewrite (replaceRuns_none Js.isWhiteSpace _ l)
    by (intros x Hx; apply slugChar_no_space, A, Hx).
  now apply replaceRuns_single_hyphens.
Qed.

(** *** What a creation does to the store *)

Lemma Job_create_inv env d store doc store' :
  Job_create env d store = inr (doc, store') ->
  doc = castJob env d /\ store' = store ++ [doc] /\
  jobValid doc = true /\ jobIndexClash store doc = false.
Proof.
  unfold Job_create.
  destruct (jobValid (castJob env d)) eqn:V; cbn [negb]; [|discriminate].
  destruct (jobIndexClash store (castJob env d)) eqn:C; [discriminate|].
  intros [= <- <-]. repeat split; assumption.
Qed.

Lemma jobIndexClash_false store doc :
  jobIndexClash store doc = false ->
  ~ In (Job.slug doc) (map Job.slug store) /\
  ~ In (Job.sourceUrl doc) (map Job.sourceUrl store).
Proof.
  unfold jobIndexClash. intros C.
  split; intros I; apply in_map_iff in I; destruct I as (x & E & Ix);
    assert (T : existsb (fun x => (Job.slug x =? Job.slug doc)
                                   || (Job.sourceUrl x =? Job.sourceUrl doc)) store = true)
      by (apply existsb_exists; exists x; split; [exact Ix|];
          rewrite E, String.eqb_refl; now rewrite ?orb_true_r);
    congruence.
Qed.

(** What a request to [POST /jobs] can do. *)
Lemma postJob_effect `{AuthLib} `{Runtime} env req store r store' :
  postJob env req store = Some (r, store') ->
  (status r <> 200 /\ assignedSlug r = None /\ store' = store) \/
  (exists doc,
     r = json (CreatedBody (Job._id doc) (Job.slug doc)) /\
     store' = store ++ [doc] /\ jobValid doc = true /\
     jobIndexClash store doc = false /\ Job.isExpired doc = false).
Proof.
  unfold postJob. destruct (requireAdmin req) as [g|claims] eqn:G.
  - intros [= <- <-]. left.
    destruct (requireAdmin_refusals _ _ G) as [-> | ->]; repeat split; discriminate.
  - destruct (parseJobInput (body req)) as [data|];
      [|intros [= <- <-]; left; repeat split; discriminate].
    unfold createJob.
    destruct (ensureUniqueSlug env store (Input.title data)) as [slug|]; [|discriminate].
    destruct (Job_create env _ store) as [[|] | [doc st]] eqn:C;
      try (intros [= <- <-]; left; repeat split; discriminate).
    intros [= <- <-]. right. exists doc.
    apply Job_create_inv in C. destruct C as (D & S & V & K).
    repeat split; try assumption. subst doc. reflexivity.
Qed.

(** X3.  When a title normalises to nothing, the placeholder
    [job-<timestamp>] is assigned without a look at the store; if a stored
    listing already has it, the creation is refused (409, or 500 when the
    schema validators reject the document) and the store is left as it
    was. *)
Theorem placeholder_slug_not_probed `{Runtime} (env : Env) (data : Input.t)
  (store : list Job.t) :
  slugify (Input.title data) = "" ->
  ensureUniqueSlug env store (Input.title data)
  = Some ("job-" ++ Js.decimal (now env))%string /\
  (slugTaken store ("job-" ++ Js.decimal (now env))%string = true ->
   exists r, createJob env data store = Some (r, store) /\
             (status r = 409 \/ status r = 500)).
Proof.
  intros Empty.
  assert (E : ensureUniqueSlug env store (Input.title data)
              = Some ("job-" ++ Js.decimal (now env))%string)
    by (unfold ensureUniqueSlug; now rewrite Empty).
  split; [exact E|]. intros Taken.
  unfold createJob. rewrite E.
  destruct (Job_create env _ store) as [[|] | [doc st]] eqn:C.
  - eexists. split; [reflexivity | now left].
  - eexists. split; [reflexivity | now right].
  - exfalso. apply Job_create_inv in C. destruct C as (D & _ & _ & K).
    apply jobIndexClash_false in K. destruct K as [K _]. apply K.
    subst doc. cbn [castJob newJob Job.slug]. now apply slugTaken_In.
Qed.

Lemma placeholder_slug_not_probed_witness :
  exists r,
    @createJob Sample.runtime (Sample.env 5) (Sample.input "!!!" "https://n.example.org")
               [Sample.job "job-5" "???" false 5]
    = Some (r, [Sample.job "job-5" "???" false 5]) /\
    (status r = 409 \/ status r = 500).
Proof.
  apply (proj2 (@placeholder_slug_not_probed Sample.runtime (Sample.env 5)
                  (Sample.input "!!!" "https://n.example.org")
                  [Sample.job "job-5" "???" false 5] eq_refl)).
  reflexivity.
Defined.

(** *** Deleting *)

Lemma takeById_split id store d rest :
  takeById id store = Some (d, rest) ->
  exists pre post,
    store = pre ++ d :: post /\ rest = pre ++ post /\ Job._id d = id /\
    Forall (fun x => Job._id x <> id) pre.
Proof.
  revert d rest. induction store as [|x t IH]; intros d rest; cbn [takeById];
    [discriminate|].
  destruct (String.eqb_spec (Job._id x) id) as [E | NE].
  - intros [= <- <-]. exists [], t. repeat split; [exact E | constructor].
  - destruct (takeById id t) as [[y rest']|]; [|discriminate].
    intros [= <- <-]. destruct (IH y rest' eq_refl) as (pre & post & -> & -> & I & F).
    exists (x :: pre), post. repeat split; [exact I | now constructor].
Qed.

Lemma takeById_none id store :
  takeById id store = None -> Forall (fun x => Job._id x <> id) store.
Proof.
  induction store as [|x t IH]; cbn [takeById]; [constructor|].
  destruct (String.eqb_spec (Job._id x) id) as [E | NE]; [discriminate|].
  destruct (takeById id t) as [[y rest']|]; [discriminate|].
  intros _. constructor; [exact NE | now apply IH].
Qed.

(** What a request to [DELETE /jobs/:id] can do. *)
Lemma deleteJob_effect `{AuthLib} `{ObjectIds} req id store resp store' :
  deleteJob req id store = (resp, store') ->
  (store' = store /\ resp <> Some (json OkBody)) \/
  (exists pre d post,
     store = pre ++ d :: post /\ store' = pre ++ post /\ Job._id d = id /\
     Forall (fun x => Job._id x <> id) pre /\ resp = Some (json OkBody)).
Proof.
  unfold deleteJob. destruct (requireAdmin req) as [g|claims] eqn:G.
  - intros [= <- <-]. left. split; [reflexivity|].
    destruct (requireAdmin_refusals _ _ G) as [-> | ->]; discriminate.
  - unfold Job_findByIdAndDelete. destruct (negb (isObjectId id)).
    + intros [= <- <-]. left. split; [reflexivity | discriminate].
    + destruct (takeById id store) as [[d rest]|] eqn:T.
      * intros [= <- <-]. right.
        destruct (takeById_split _ _ _ _ T) as (pre & post & S & R & I & F).
        exists pre, d, post. repeat split; assumption.
      * intros [= <- <-]. left. split; [reflexivity | discriminate].
Qed.

Lemma NoDup_map_remove_middle {A B} (f : A -> B) pre d post :
  NoDup (map f (pre ++ d :: post)) ->
  NoDup (map f (pre ++ post)) /\ ~ In (f d) (map f (pre ++ post)).
Proof.
  rewrite !map_app. cbn [map]. intros N.
  split; [eapply NoDup_remove_1; exact N | eapply NoDup_remove_2; exact N].
Qed.

Lemma NoDup_map_snoc {A B} (f : A -> B) l x :
  NoDup (map f l) -> ~ In (f x) (map f l) -> NoDup (map f (l ++ [x])).
Proof.
  intros N NI. rewrite map_app. cbn [map].
  apply NoDup_app; [exact N | repeat constructor; easy |].
  intros y Hy [<- | []]. contradiction.
Qed.

(** X4.  Creating and deleting keep the store's slugs pairwise distinct and
    its source URLs pairwise distinct, whatever the requests and whatever
    the answers. *)
Theorem unique_indexes_kept `{AuthLib} `{Runtime} `{ObjectIds} (store : list Job.t) :
  NoDup (map Job.slug store) -> NoDup (map Job.sourceUrl store) ->
  (forall env req r store',
     postJob env req store = Some (r, store') \/
     postAdminJob env req store = Some (r, store') ->
     NoDup (map Job.slug store') /\ NoDup (map Job.sourceUrl store')) /\
  (forall req id resp store',
     deleteJob req id store = (resp, store') ->
     NoDup (map Job.slug store') /\ NoDup (map Job.sourceUrl store')).
Proof.
  intros NS NU. split.
  - intros env req r store' P.
    assert (P' : postJob env req store = Some (r, store')) by (destruct P; assumption).
    destruct (postJob_effect _ _ _ _ _ P') as [(_ & _ & ->) | (doc & _ & -> & _ & K & _)];
      [now split|].
    apply jobIndexClash_false in K. destruct K as [K1 K2].
    split; now apply NoDup_map_snoc.
  - intros req id resp store' D.
    destruct (deleteJob_effect _ _ _ _ _ D)
      as [(-> & _) | (pre & d & post & -> & -> & _)]; [now split|].
    split; now apply NoDup_map_remove_middle with (d := d).
Qed.

Lemma unique_indexes_kept_witness :
  NoDup (map Job.slug
    (snd (@deleteJob Sample.auth Sample.ids (Sample.cookieReq "admin") "1"
            [Sample.job "a" "A" false 1; Sample.job "b" "B" false 2]))).
Proof.
  apply (proj2 (@unique_indexes_kept Sample.auth Sample.runtime Sample.ids
                  [Sample.job "a" "A" false 1; Sample.job "b" "B" false 2]
                  ltac:(repeat constructor; simpl; intuition discriminate)
                  ltac:(repeat constructor; simpl; intuition discriminate))
               (Sample.cookieReq "admin") "1" _ _ eq_refl).
Defined.

(** ** Looking a listing up *)

Lemma find_app_new {A} (p : A -> bool) l x :
  (forall y, In y l -> p y = false) -> p x = true -> find p (l ++ [x]) = Some x.
Proof.
  intros N P. induction l as [|y t IH]; cbn [app find]; [now rewrite P|].
  rewrite (N y) by now left. apply IH. intros z Hz. apply N. now right.
Qed.

Lemma findOneBySlug_none store slug :
  Job_findOneBySlug store slug = None <-> slugTaken store slug = false.
Proof.
  unfold Job_findOneBySlug, slugTaken. split.
  - intros F. apply not_true_is_false. intros T. apply existsb_exists in T.
    destruct T as (d & I & E). now rewrite (find_none _ _ F d I) in E.
  - intros T. destruct (find _ store) as [d|] eqn:F; [|reflexivity].
    apply find_some in F. destruct F as [I E].
    assert (X : existsb (fun d => Job.slug d =? slug) store = true)
      by (apply existsb_exists; eauto).
    congruence.
Qed.

(** X5.  A listing can be fetched by the slug its creation announced: after
    a successful [POST /jobs], [GET /jobs/slug/<slug>] on the new store
    returns the document that was just stored, whatever else the store
    holds.  A slug nobody holds is answered 404. *)
Theorem created_listing_found_by_slug `{AuthLib} `{Runtime} (env : Env) (req : Request)
  (store store' : list Job.t) (r : Response) (slug : string) :
  postJob env req store = Some (r, store') ->
  assignedSlug r = Some slug ->
  (exists doc,
     getBySlug slug store' = Sent (Item doc) /\
     store' = store ++ [doc] /\ Job.slug doc = slug /\
     r = json (CreatedBody (Job._id doc) slug)) /\
  getBySlug slug store = Plain notFound.
Proof.
  intros P A.
  destruct (postJob_effect _ _ _ _ _ P) as [(_ & N & _) | (doc & -> & -> & _ & K & _)];
    [congruence|].
  cbn in A. injection A as <-.
  pose proof (jobIndexClash_false _ _ K) as [Fresh _].
  split.
  - exists doc. repeat split. unfold getBySlug, Job_findOneBySlug.
    rewrite find_app_new; [reflexivity | | apply String.eqb_refl].
    intros y Hy. apply String.eqb_neq. intros E. apply Fresh.
    rewrite <- E. now apply in_map.
  - unfold getBySlug.
    replace (Job_findOneBySlug store (Job.slug doc)) with (@None Job.t); [reflexivity|].
    symmetry. apply findOneBySlug_none. apply not_true_is_false.
    intros T. apply slugTaken_In in T. contradiction.
Qed.

Lemma created_listing_found_by_slug_witness :
  exists doc,
    getBySlug "clerk"
      ([Sample.job "a" "A" false 1] ++
       [castJob (Sample.env 3)
          (newJob (Sample.input "Clerk" "https://x.example.org") "clerk" None None)])
    = Sent (Item doc) /\ Job.slug doc = "clerk".
Proof.
  destruct (proj1 (@created_listing_found_by_slug Sample.auth Sample.runtime
              (Sample.env 3)
              (Sample.adminReq (Sample.jobBody "Clerk" "https://x.example.org" []))
              [Sample.job "a" "A" false 1]
              ([Sample.job "a" "A" false 1] ++
               [castJob (Sample.env 3)
                  (newJob (Sample.input "Clerk" "https://x.example.org") "clerk" None None)])
              (json (CreatedBody "3" "clerk")) "clerk" eq_refl eq_refl))
    as (doc & G & _ & S & _).
  exists doc. split; assumption.
Defined.

(** ** Deleting a listing *)

(** X6.  [DELETE /jobs/:id] removes at most one document and changes no
    other: when it answers [{ ok: true }] the store has lost exactly the
    first document with that identifier, and in every other case (refused
    by the gate, identifier unknown, identifier that does not cast) the
    store is as before.  Where slugs are distinct the slug of the deleted
    listing is free again, so the next creation with a title of that normal
    form is given the same slug once more. *)
Theorem delete_removes_one `{AuthLib} `{ObjectIds} (req : Request) (id : string)
  (store store' : list Job.t) (resp : option Response) :
  deleteJob req id store = (resp, store') ->
  (resp <> Some (json OkBody) -> store' = store) /\
  (resp = Some (json OkBody) ->
   exists pre d post,
     store = pre ++ d :: post /\ store' = pre ++ post /\ Job._id d = id /\
     Forall (fun x => Job._id x <> id) pre /\
     (NoDup (map Job.slug store) ->
      slugTaken store' (Job.slug d) = false /\
      forall env title,
        slugify title = Job.slug d -> Job.slug d <> "" ->
        ensureUniqueSlug env store' title = Some (Job.slug d))).
Proof.
  intros D.
  destruct (deleteJob_effect _ _ _ _ _ D)
    as [(-> & NotOk) | (pre & d & post & -> & -> & I & F & ->)].
  - split; [reflexivity | contradiction].
  - split; [intros X; now elim X|]. intros _.
    exists pre, d, post.
    split; [reflexivity|]. split; [reflexivity|]. split; [exact I|]. split; [exact F|].
    intros Distinct.
    apply NoDup_map_remove_middle in Distinct. destruct Distinct as [_ NI].
    assert (Free : slugTaken (pre ++ post) (Job.slug d) = false)
      by (apply not_true_is_false; intros T; now apply slugTaken_In in T).
    split; [exact Free|].
    + intros env title Base NE.
      unfold ensureUniqueSlug. rewrite Base.
      apply truthy_true in NE. rewrite NE. cbn [negb].
      unfold probeBound. cbn [probe]. now rewrite Free.
Qed.

Lemma delete_removes_one_witness :
  exists pre d post,
    [Sample.job "a" "A" false 1; Sample.job "b" "B" false 2] = pre ++ d :: post /\
    [Sample.job "b" "B" false 2] = pre ++ post /\ Job._id d = "1".
Proof.
  destruct (proj2 (@delete_removes_one Sample.auth Sample.ids
                     (Sample.cookieReq "admin") "1"
                     [Sample.job "a" "A" false 1; Sample.job "b" "B" false 2]
                     [Sample.job "b" "B" false 2] (Some (json OkBody)) eq_refl) eq_refl)
    as (pre & d & post & A & B & C & _).
  exists pre, d, post. repeat split; assumption.
Defined.

(** A slug is handed out again after its holder was deleted. *)
Example slug_reused_after_delete :
  let s0 := [] in
  let s1 := match @createJob Sample.runtime (Sample.env 1)
                    (Sample.input "Clerk" "https://a.example.org") s0 with
            | Some (_, s) => s | None => s0 end in
  let s2 := snd (@deleteJob Sample.auth Sample.ids (Sample.cookieReq "admin") "1" s1) in
  option_map (fun x => assignedSlug (fst x))
    (@createJob Sample.runtime (Sample.env 2)
       (Sample.input "Clerk" "https://b.example.org") s2)
  = Some (Some "clerk").
Proof. reflexivity. Qed.

(** ** The other reads *)

Lemma liveOfType_fields type d :
  matchesFields (liveOfType type) d = (type =? Job.type d) && negb (Job.isExpired d).
Proof.
  unfold matchesFields, liveOfType. cbn. rewrite !andb_true_r.
  now destruct (Job.isExpired d).
Qed.

Lemma Job_find_liveOfType type store :
  Job_find (liveOfType type) store
  = Some (filter (matchesFields (liveOfType type)) store).
Proof.
  induction store as [|d rest IH]; [reflexivity|].
  cbn [Job_find filter]. unfold matches at 1. cbn [Filter.or liveOfType].
  now rewrite IH.
Qed.

Lemma sortNewestFirst_length l : List.length (sortNewestFirst l) = List.length l.
Proof.
  assert (I : forall d s, List.length (insertNewest d s) = S (List.length s)).
  { intros d s. induction s as [|x t IH]; [reflexivity|]. cbn [insertNewest].
    destruct (Job.createdAt x <=? Job.createdAt d)%N; cbn [List.length]; now rewrite ?IH. }
  induction l as [|d t IH]; [reflexivity|]. cbn [sortNewestFirst]. now rewrite I, IH.
Qed.

Local Open Scope Q_scope.

Lemma latestLimit_cases rq :
  match limitOf rq with
  | NaN => latestLimit rq = NaN
  | _ => exists l, latestLimit rq = Finite l /\ 1 <= l /\ l <= 50
  end.
Proof.
  unfold latestLimit. destruct (limitOf rq) as [x| | |].
  - eexists. split; [reflexivity|].
    change (1 <= (if Qle_bool (if Qle_bool x (inject_Z 1) then inject_Z 1 else x)
                              (inject_Z 50)
                  then if Qle_bool x (inject_Z 1) then inject_Z 1 else x
                  else inject_Z 50)
            /\ (if Qle_bool (if Qle_bool x (inject_Z 1) then inject_Z 1 else x)
                            (inject_Z 50)
                then if Qle_bool x (inject_Z 1) then inject_Z 1 else x
                else inject_Z 50) <= 50).
    rewrite pickMin_spec, (pickMax_spec x (inject_Z 1)). split.
    + apply Q.min_glb; [apply Q.le_max_r | discriminate].
    + apply Q.le_min_r.
  - reflexivity.
  - exists 50. repeat split; discriminate.
  - exists 1. repeat split; discriminate.
Qed.

Lemma latestLimit_whole rq :
  wholeNumber (Query.limit rq) = true -> limitOf rq <> NaN ->
  exists n, latestLimit rq = Finite (n # 1) /\ (1 <= n <= 50)%Z.
Proof.
  intros W NN. unfold latestLimit, limitOf in *. unfold wholeNumber in W.
  destruct (Query.limit rq) as [[[n d]| | |]|]; cbn [Qden] in W;
    try (exists 20%Z; split; [reflexivity | lia]);
    try (exists 50%Z; split; [reflexivity | lia]);
    try (exists 1%Z; split; [reflexivity | lia]);
    try (now elim NN).
  apply Pos.eqb_eq in W. subst d. cbn [Num.max Num.min Num.ofZ].
  destruct (Qle_bool (n # 1) (inject_Z 1)) eqn:E1.
  - exists 1%Z. split; [reflexivity | lia].
  - apply Qle_bool_false in E1. unfold Qlt in E1. simpl in E1.
    destruct (Qle_bool (n # 1) (inject_Z 50)) eqn:E2.
    + exists n. split; [reflexivity|]. apply Qle_bool_iff in E2.
      unfold Qle in E2. simpl in E2. lia.
    + exists 50%Z. split; [reflexivity | lia].
Qed.

(** X7.  [GET /jobs/latest] clamps its limit into [1, 50] for every value
    of [limit] but [NaN]: an infinite limit is 50 or 1.  For a whole-number
    limit it sends the first [n] of the listings of the requested type that
    are not expired, newest first, where [n] is the clamped limit: at most
    50 of them.  A limit that is not a number is not clamped: the cursor is
    given [NaN], where [GET /jobs] would have used 20, and what is sent is
    what the store then hands back. *)
Theorem latest_window `{Cursor} (rq : Query.t) (store : list Job.t) :
  let live :=
    sortNewestFirst
      (filter (fun d => (Js.orDefault (Query.type rq) "job" =? Job.type d)
                        && negb (Job.isExpired d)) store) in
  (limitOf rq <> NaN ->
   exists l, latestLimit rq = Finite l /\ 1 <= l /\ l <= 50) /\
  (limitOf rq = NaN ->
   latestLimit rq = NaN /\ limitSafe rq = Finite 20 /\
   getLatest rq store
   = option_map (fun items => Sent (ItemsOnly items)) (limitOther NaN live)) /\
  (wholeNumber (Query.limit rq) = true -> limitOf rq <> NaN ->
   exists n items,
     latestLimit rq = Num.ofNat n /\ (1 <= n <= 50)%nat /\
     getLatest rq store = Some (Sent (ItemsOnly items)) /\
     items = firstn n live /\
     (List.length items <= 50)%nat /\
     StronglySorted newerFirst items /\ incl items store /\
     Forall (fun d => Job.isExpired d = false /\
                      Job.type d = Js.orDefault (Query.type rq) "job") items).
Proof.
  intros live.
  assert (Live : sortNewestFirst
                   (filter (matchesFields (liveOfType (Js.orDefault (Query.type rq) "job")))
                           store) = live).
  { unfold live. f_equal. apply filter_ext. intros d. apply liveOfType_fields. }
  pose proof (latestLimit_cases rq) as C.
  split; [|split].
  - intros NN. destruct (limitOf rq); try exact C. now elim NN.
  - intros N. rewrite N in C. split; [exact C|].
    split; [unfold limitSafe; now rewrite N|].
    unfold getLatest. rewrite Job_find_liveOfType, Live, C.
    unfold Cursor_limit. cbn [Num.toCount].
    destruct (limitOther NaN live); reflexivity.
  - intros W NN. destruct (latestLimit_whole rq W NN) as (z & E & Z1).
    exists (Z.to_nat z), (firstn (Z.to_nat z) live).
    split; [rewrite E; unfold Num.ofNat, Num.ofZ; rewrite Z2Nat.id by lia; reflexivity|].
    split; [lia|].
    split.
    { unfold getLatest. rewrite Job_find_liveOfType, Live, E.
      unfold Cursor_limit. rewrite toCount_whole by lia.
      destruct (Z.to_nat z) eqn:Ez; [lia | reflexivity]. }
    split; [reflexivity|].
    split; [rewrite length_firstn; lia|].
    split; [apply StronglySorted_firstn; unfold live; apply sortNewestFirst_sorted|].
    assert (S : forall d, In d (firstn (Z.to_nat z) live) ->
                In d store /\
                ((Js.orDefault (Query.type rq) "job" =? Job.type d)
                 && negb (Job.isExpired d) = true)).
    { intros d Hd. apply (window_incl 0 (Z.to_nat z)) in Hd.
      unfold live in Hd. apply sortNewestFirst_In, filter_In in Hd. exact Hd. }
    split; [intros d Hd; now apply S|].
    apply Forall_forall. intros d Hd. apply S in Hd. destruct Hd as [_ M].
    apply andb_prop in M. destruct M as [M1 M2].
    apply String.eqb_eq in M1. apply negb_true_iff in M2. now split.
Qed.

Local Close Scope Q_scope.

Lemma latest_window_witness :
  exists n items,
    @getLatest Sample.cursor (Sample.paged None (Some PosInfinity))
              [Sample.job "a" "A" false 1; Sample.job "b" "B" true 2;
               Sample.job "c" "C" false 3]
    = Some (Sent (ItemsOnly items)) /\ (1 <= n <= 50)%nat /\
    (List.length items <= 50)%nat.
Proof.
  assert (NN : limitOf (Sample.paged None (Some PosInfinity)) <> NaN) by discriminate.
  destruct (proj2 (proj2 (@latest_window Sample.cursor
              (Sample.paged None (Some PosInfinity))
              [Sample.job "a" "A" false 1; Sample.job "b" "B" true 2;
               Sample.job "c" "C" false 3]))
              eq_refl NN) as (n & items & _ & B & G & _ & L & _).
  exists n, items. split; [exact G|]. split; [exact B | exact L].
Defined.

(** With a store that reads a limit it cannot use as no limit, a request
    with [limit=abc] is sent all 51 listings. *)
Example latest_limit_not_a_number :
  option_map (fun a => match a with
                       | Sent (ItemsOnly items) => List.length items
                       | _ => 0
                       end)
    (@getLatest Sample.cursor (Sample.paged None (Some NaN))
       (map (fun i => Sample.job "s" "S" false (N.of_nat i)) (seq 0 51)))
  = Some 51.
Proof. vm_compute. reflexivity. Qed.

(** ** Grouped counts *)

Lemma string_leb_trans a : forall b c,
  (a <=? b) = true -> (b <=? c) = true -> (a <=? c) = true.
Proof.
  unfold String.leb. induction a as [|x a IH]; intros [|y b] [|z c]; simpl; try easy.
  unfold Ascii.compare.
  destruct (N.compare_spec (N_of_ascii x) (N_of_ascii y)) as [E1|L1|G1];
    destruct (N.compare_spec (N_of_ascii y) (N_of_ascii z)) as [E2|L2|G2];
    destruct (N.compare_spec (N_of_ascii x) (N_of_ascii z)) as [E3|L3|G3];
    try easy; try lia.
  apply IH.
Qed.

Lemma rowBefore_spec a b :
  rowBefore a b = true <->
  count b < count a \/ (count a = count b /\ (key a <=? key b) = true).
Proof.
  unfold rowBefore. rewrite orb_true_iff, andb_true_iff, Nat.ltb_lt, Nat.eqb_eq.
  reflexivity.
Qed.

Lemma rowBefore_total a b : rowBefore a b = false -> rowBefore b a = true.
Proof.
  intros F. apply rowBefore_spec.
  assert (N : ~ (count b < count a \/ (count a = count b /\ (key a <=? key b) = true)))
    by (rewrite <- rowBefore_spec; congruence).
  destruct (Nat.lt_trichotomy (count a) (count b)) as [L | [E | G]].
  - now left.
  - right. split; [now symmetry|].
    destruct (String.leb_total (key a) (key b)) as [T | T]; [|exact T].
    elim N. right. now split.
  - elim N. now left.
Qed.

Lemma rowBefore_trans a b c :
  rowBefore a b = true -> rowBefore b c = true -> rowBefore a c = true.
Proof.
  rewrite !rowBefore_spec. intros [L1 | [E1 K1]] [L2 | [E2 K2]].
  - left. lia.
  - left. lia.
  - left. lia.
  - right. split; [lia|]. now apply string_leb_trans with (b := key b).
Qed.

Lemma insertRow_perm r l : Permutation (insertRow r l) (r :: l).
Proof.
  induction l as [|x t IH]; cbn [insertRow]; [reflexivity|].
  destruct (rowBefore r x); [reflexivity|].
  rewrite IH. apply perm_swap.
Qed.

Lemma sortRows_perm l : Permutation (sortRows l) l.
Proof.
  induction l as [|r t IH]; cbn [sortRows]; [reflexivity|].
  rewrite insertRow_perm. now constructor.
Qed.

Lemma insertRow_sorted r l :
  StronglySorted (fun a b => rowBefore a b = true) l ->
  StronglySorted (fun a b => rowBefore a b = true) (insertRow r l).
Proof.
  induction 1 as [|x t St IH Fa]; cbn [insertRow]; [repeat constructor|].
  destruct (rowBefore r x) eqn:B.
  - constructor; [now constructor|]. constructor; [exact B|].
    eapply Forall_impl; [|exact Fa]. intros y. now apply rowBefore_trans.
  - constructor; [exact IH|].
    apply Forall_forall. intros y Hy.
    apply (Permutation_in _ (insertRow_perm r t)) in Hy. destruct Hy as [<- | Hy].
    + now apply rowBefore_total.
    + rewrite Forall_forall in Fa. now apply Fa.
Qed.

Lemma sortRows_sorted l : StronglySorted (fun a b => rowBefore a b = true) (sortRows l).
Proof.
  induction l as [|r t IH]; cbn [sortRows]; [constructor | now apply insertRow_sorted].
Qed.

Lemma bump_keys k rows :
  map key (bump k rows)
  = if existsb (fun r => key r =? k) rows then map key rows else map key rows ++ [k].
Proof.
  induction rows as [|r t IH]; [reflexivity|]. cbn [bump existsb map].
  destruct (key r =? k); [reflexivity|]. cbn [orb map]. rewrite IH.
  now destruct (existsb _ t).
Qed.

Lemma existsb_key k rows :
  existsb (fun r => key r =? k) rows = true <-> In k (map key rows).
Proof.
  rewrite existsb_exists, in_map_iff. split; intros (r & A & B).
  - apply String.eqb_eq in B. eauto.
  - exists r. split; [exact B | now apply String.eqb_eq].
Qed.

Lemma bump_In k rows r :
  NoDup (map key rows) ->
  In r (bump k rows) ->
  (key r <> k /\ In r rows) \/
  (key r = k /\
   ((exists r0, In r0 rows /\ key r0 = k /\ count r = S (count r0)) \/
    (~ In k (map key rows) /\ count r = 1))).
Proof.
  induction rows as [|x t IH]; cbn [bump map]; intros N.
  - intros [<- | []]. right. split; [reflexivity|]. right. split; [easy | reflexivity].
  - apply NoDup_cons_iff in N. destruct N as [Nx Nt].
    destruct (String.eqb_spec (key x) k) as [E | NE].
    + intros [<- | I].
      * right. split; [exact E|]. left. exists x. repeat split; [now left | exact E].
      * left. split; [|now right]. intros E'. apply Nx. rewrite E, <- E'.
        now apply in_map.
    + intros [<- | I].
      * left. split; [exact NE | now left].
      * destruct (IH Nt I) as [(A & B) | (A & [(r0 & B & C & D) | (B & C)])].
        -- left. split; [exact A | now right].
        -- right. split; [exact A|]. left. exists r0.
           repeat split; [now right | exact C | exact D].
        -- right. split; [exact A|]. right. split; [|exact C].
           intros [F | F]; [contradiction | now apply B].
Qed.

Lemma bump_NoDup k rows : NoDup (map key rows) -> NoDup (map key (bump k rows)).
Proof.
  intros N. rewrite bump_keys. destruct (existsb _ rows) eqn:X; [exact N|].
  apply NoDup_app; [exact N | repeat constructor; easy|].
  intros y Hy [<- | []]. apply existsb_key in Hy. congruence.
Qed.

Lemma bump_sum k rows :
  list_sum (map count (bump k rows)) = S (list_sum (map count rows)).
Proof.
  induction rows as [|x t IH]; [reflexivity|]. cbn [bump].
  destruct (key x =? k); [reflexivity|].
  change (count x + list_sum (map count (bump k t))
          = S (count x + list_sum (map count t))).
  rewrite IH. lia.
Qed.

Lemma groupCount_snoc keys k : groupCount (keys ++ [k]) = bump k (groupCount keys).
Proof. unfold groupCount. now rewrite fold_left_app. Qed.

Lemma count_occ_length k keys :
  count_occ string_dec keys k = List.length (filter (fun x => x =? k) keys).
Proof.
  induction keys as [|x t IH]; [reflexivity|]. cbn [count_occ filter].
  destruct (string_dec x k) as [E | NE].
  - apply String.eqb_eq in E. rewrite E. cbn [List.length]. now rewrite IH.
  - apply String.eqb_neq in NE. now rewrite NE.
Qed.

(** What grouping yields: one row per value met, with the number of times
    it was met. *)
Lemma groupCount_spec keys :
  NoDup (map key (groupCount keys)) /\
  (forall r, In r (groupCount keys) ->
             0 < count r /\ count r = count_occ string_dec keys (key r)) /\
  (forall k, In k keys -> In k (map key (groupCount keys))) /\
  list_sum (map count (groupCount keys)) = List.length keys.
Proof.
  induction keys as [|k keys (N & C & K & S)] using rev_ind.
  - unfold groupCount. cbn. repeat split; try constructor; try contradiction.
  - rewrite groupCount_snoc.
    split; [now apply bump_NoDup|]. split; [|split].
    + intros r Hr. rewrite count_occ_app. cbn [count_occ].
      destruct (bump_In _ _ _ N Hr) as [(A & B) | (A & [(r0 & B & E & D) | (B & D)])].
      * destruct (string_dec k (key r)) as [X | X]; [now elim A|].
        apply C in B. lia.
      * destruct (string_dec k (key r)) as [X | X]; [|now elim X].
        apply C in B. destruct B as [_ B]. rewrite E in B. rewrite A. lia.
      * destruct (string_dec k (key r)) as [X | X]; [|now elim X].
        assert (Z : count_occ string_dec keys (key r) = 0).
        { apply count_occ_not_In. intros I. apply B, K. now rewrite <- A. }
        lia.
    + intros k' Hk'. rewrite bump_keys. apply in_app_or in Hk'.
      destruct (existsb _ (groupCount keys)) eqn:X.
      * destruct Hk' as [I | [<- | []]]; [now apply K | now apply existsb_key].
      * apply in_or_app. destruct Hk' as [I | I]; [left; now apply K | now right].
    + rewrite bump_sum, S, length_app. cbn. lia.
Qed.

Lemma filter_map_length {A} (f : A -> string) k l :
  List.length (filter (fun x => x =? k) (map f l))
  = List.length (filter (fun d => f d =? k) l).
Proof.
  induction l as [|d t IH]; [reflexivity|]. cbn [map filter].
  destruct (f d =? k); cbn [List.length]; now rewrite IH.
Qed.

Lemma list_sum_perm l l' : Permutation l l' -> list_sum l = list_sum l'.
Proof. induction 1; simpl; lia. Qed.

(** X8.  Each of the three count routes returns one row per value of its
    field among the listings of the requested type that are not expired.
    A row's count is the number of those listings with that value and is
    never zero, the counts add up to the number of those listings, and the
    rows are ordered by falling count, rows with equal counts by rising
    key. *)
Theorem counts_rows (rq : Query.t) (store : list Job.t)
  (read : Job.t -> string) (a : Answer) :
  In (read, a) [ (Job.state, getCountsState rq store);
                 (Job.qualification, getCountsQualification rq store);
                 (Job.department, getCountsDepartment rq store) ] ->
  let type := Js.orDefault (Query.type rq) "job" in
  let live := filter (fun d => (type =? Job.type d) && negb (Job.isExpired d)) store in
  exists rows,
    a = Sent (Rows rows) /\
    NoDup (map key rows) /\
    (forall r, In r rows ->
       0 < count r /\
       count r = List.length (filter (fun d => read d =? key r) live)) /\
    (forall d, In d live -> In (read d) (map key rows)) /\
    list_sum (map count rows) = List.length live /\
    StronglySorted (fun x y => rowBefore x y = true) rows /\
    (forall x y, rowBefore x y = true <->
       count y < count x \/ (count x = count y /\ (key x <=? key y) = true)).
Proof.
  intros I type live.
  assert (E : a = Sent (Rows (countsBy read type store))).
  { destruct I as [[= <- <-] | [[= <- <-] | [[= <- <-] | []]]]; reflexivity. }
  exists (countsBy read type store). split; [exact E|].
  unfold countsBy.
  replace (filter (matchesFields (liveOfType type)) store) with live
    by (apply filter_ext; intros d; now rewrite liveOfType_fields).
  destruct (groupCount_spec (map read live)) as (N & C & K & S).
  pose proof (sortRows_perm (groupCount (map read live))) as P.
  split; [|split; [|split; [|split; [|split]]]].
  - apply (Permutation_NoDup (l := map key (groupCount (map read live))));
      [|exact N]. symmetry. now apply Permutation_map.
  - intros r Hr. apply (Permutation_in _ P) in Hr. apply C in Hr.
    rewrite count_occ_length, filter_map_length in Hr. exact Hr.
  - intros d Hd.
    apply (Permutation_in (l := map key (groupCount (map read live))));
      [symmetry; now apply Permutation_map|].
    apply K. now apply in_map.
  - rewrite (list_sum_perm _ _ (Permutation_map count P)), S. apply length_map.
  - apply sortRows_sorted.
  - apply rowBefore_spec.
Qed.

Lemma counts_rows_witness :
  exists rows,
    getCountsState Sample.query
      [Sample.job "a" "A" false 1; Sample.job "b" "B" true 2; Sample.job "c" "C" false 3]
    = Sent (Rows rows) /\ list_sum (map count rows) = 2.
Proof.
  destruct (counts_rows Sample.query
              [Sample.job "a" "A" false 1; Sample.job "b" "B" true 2;
               Sample.job "c" "C" false 3]
              Job.state _ (or_introl eq_refl)) as (rows & E & _ & _ & _ & S & _).
  exists rows. split; [exact E | exact S].
Defined.

Example counts_by_state :
  countsBy Job.state "job"
    [ {| Job._id := "1"; Job.type := "job"; Job.title := "A"; Job.slug := "a";
         Job.department := "Health"; Job.state := "Kerala"; Job.qualification := "BSc";
         Job.eligibility := None; Job.ageLimit := None; Job.vacancies := None;
         Job.salary := None; Job.fees := None; Job.startDate := None;
         Job.lastDate := None; Job.selectionProcess := None; Job.applyLink := "";
         Job.notificationPDF := None; Job.sourceName := ""; Job.sourceUrl := "u1";
         Job.isExpired := false; Job.createdAt := 1%N; Job.updatedAt := 1%N |};
      {| Job._id := "2"; Job.type := "job"; Job.title := "B"; Job.slug := "b";
         Job.department := "Health"; Job.state := "Goa"; Job.qualification := "BSc";
         Job.eligibility := None; Job.ageLimit := None; Job.vacancies := None;
         Job.salary := None; Job.fees := None; Job.startDate := None;
         Job.lastDate := None; Job.selectionProcess := None; Job.applyLink := "";
         Job.notificationPDF := None; Job.sourceName := ""; Job.sourceUrl := "u2";
         Job.isExpired := false; Job.createdAt := 2%N; Job.updatedAt := 2%N |};
      Sample.job "c" "C" false 3; Sample.job "d" "D" true 4 ]
  = [ {| key := "Kerala"; count := 2 |}; {| key := "Goa"; count := 1 |} ].
Proof. reflexivity. Qed.

(** ** Statistics and the admin list *)

Lemma countLive_cons type d store :
  countLive type (d :: store)
  = (if (type =? Job.type d) && negb (Job.isExpired d) then 1 else 0)
    + countLive type store.
Proof.
  unfold countLive. cbn [filter]. rewrite liveOfType_fields.
  now destruct ((type =? Job.type d) && negb (Job.isExpired d)).
Qed.

(** X9.  The three numbers of [GET /admin/stats] count disjoint sets of
    listings that are not expired: together they never exceed the number of
    such listings and equal it when every stored type is one of [job],
    [result] and [admit-card].  Each is also the sum of the rows the count
    routes return for that type.  A request the gate refuses gets the
    refusal and no numbers. *)
Theorem stats_partition `{AuthLib} (req : Request) (store : list Job.t) :
  (forall claims, requireAdmin req = Next claims ->
   exists j r a,
     adminStats req store = Sent (Stats j r a) /\
     j + r + a <= List.length (filter (fun d => negb (Job.isExpired d)) store) /\
     (Forall (fun d => isJobType (Job.type d) = true) store ->
      j + r + a = List.length (filter (fun d => negb (Job.isExpired d)) store)) /\
     j = list_sum (map count (countsBy Job.state "job" store)) /\
     r = list_sum (map count (countsBy Job.state "result" store)) /\
     a = list_sum (map count (countsBy Job.state "admit-card" store))) /\
  (forall r, requireAdmin req = Respond r ->
   adminStats req store = Plain r /\ (r = unauthorized \/ r = forbidden)).
Proof.
  split.
  - intros claims G. unfold adminStats. rewrite G.
    eexists _, _, _. split; [reflexivity|].
    assert (Sum : forall type,
              countLive type store
              = list_sum (map count (countsBy Job.state type store))).
    { intros type. unfold countsBy, countLive.
      rewrite (list_sum_perm _ _ (Permutation_map count (sortRows_perm _))).
      destruct (groupCount_spec
                  (map Job.state (filter (matchesFields (liveOfType type)) store)))
        as (_ & _ & _ & S).
      now rewrite S, length_map. }
    split; [|split; [|repeat split; apply Sum]].
    + clear Sum. induction store as [|d t IH]; [cbn; lia|].
      rewrite !countLive_cons. cbn [filter].
      destruct (Job.isExpired d); cbn [negb List.length]; rewrite ?andb_false_r.
      * cbv iota. lia.
      * rewrite !andb_true_r.
        destruct (String.eqb_spec "job" (Job.type d)) as [E1 | N1];
          destruct (String.eqb_spec "result" (Job.type d)) as [E2 | N2];
          destruct (String.eqb_spec "admit-card" (Job.type d)) as [E3 | N3];
          try (exfalso; congruence); try (cbn in Fd; discriminate); cbv iota; lia.
    + clear Sum. induction store as [|d t IH]; intros F; [reflexivity|].
      apply Forall_cons_iff in F. destruct F as [Fd Ft]. specialize (IH Ft).
      rewrite !countLive_cons. cbn [filter].
      destruct (Job.isExpired d); cbn [negb List.length]; rewrite ?andb_false_r.
      * cbv iota. lia.
      * rewrite !andb_true_r. unfold isJobType, jobTypes in Fd. cbn [existsb] in Fd.
        rewrite orb_false_r, (String.eqb_sym (Job.type d) "job"),
          (String.eqb_sym (Job.type d) "result"),
          (String.eqb_sym (Job.type d) "admit-card") in Fd.
        destruct (String.eqb_spec "job" (Job.type d)) as [E1 | N1];
          destruct (String.eqb_spec "result" (Job.type d)) as [E2 | N2];
          destruct (String.eqb_spec "admit-card" (Job.type d)) as [E3 | N3];
          try (exfalso; congruence); try (cbn in Fd; discriminate); cbv iota; lia.
  - intros r G. unfold adminStats. rewrite G. split; [reflexivity|].
    exact (requireAdmin_refusals req r G).
Qed.

Lemma stats_partition_witness :
  exists j r a,
    @adminStats Sample.auth (Sample.cookieReq "admin")
      [Sample.job "a" "A" false 1; Sample.job "b" "B" true 2] = Sent (Stats j r a) /\
    j + r + a <= 1.
Proof.
  destruct (proj1 (@stats_partition Sample.auth (Sample.cookieReq "admin")
                     [Sample.job "a" "A" false 1; Sample.job "b" "B" true 2])
                  _ eq_refl) as (j & r & a & E & L & _).
  exists j, r, a. split; [exact E | exact L].
Defined.

(** X10.  [GET /admin/jobs], for a request the gate lets through, returns
    listings of the whole store, expired ones and every type included,
    newest first: 200 of them, or all of the store when it holds 200
    listings or fewer.  A refused request gets the refusal only. *)
Theorem admin_list_window `{AuthLib} (req : Request) (store : list Job.t) :
  (forall claims, requireAdmin req = Next claims ->
   exists items,
     adminListJobs req store = Sent (ItemsOnly items) /\
     List.length items = Nat.min 200 (List.length store) /\
     StronglySorted newerFirst items /\ incl items store /\
     (List.length store <= 200 -> incl store items)) /\
  (forall r, requireAdmin req = Respond r ->
   adminListJobs req store = Plain r /\ (r = unauthorized \/ r = forbidden)).
Proof.
  split.
  - intros claims G. unfold adminListJobs. rewrite G.
    eexists. split; [reflexivity|]. split; [|split; [|split]].
    + now rewrite length_firstn, sortNewestFirst_length.
    + apply StronglySorted_firstn, sortNewestFirst_sorted.
    + intros d Hd. apply (window_incl 0 200) in Hd.
      exact (proj1 (sortNewestFirst_In _ _) Hd).
    + intros L d Hd. rewrite firstn_all2 by (rewrite sortNewestFirst_length; exact L).
      exact (proj2 (sortNewestFirst_In _ _) Hd).
  - intros r G. unfold adminListJobs. rewrite G. split; [reflexivity|].
    exact (requireAdmin_refusals req r G).
Qed.

Lemma admin_list_window_witness :
  exists items,
    @adminListJobs Sample.auth (Sample.cookieReq "admin")
      [Sample.job "a" "A" false 1; Sample.job "b" "B" true 2] = Sent (ItemsOnly items) /\
    List.length items = 2.
Proof.
  destruct (proj1 (@admin_list_window Sample.auth (Sample.cookieReq "admin")
                     [Sample.job "a" "A" false 1; Sample.job "b" "B" true 2])
                  _ eq_refl) as (items & E & L & _).
  exists items. split; [exact E | exact L].
Defined.

(** ** What a page of [GET /jobs] contains *)

Lemma equalsIfSet_spec want have :
  equalsIfSet want have = true -> forall w, want = Some w -> have = w.
Proof.
  intros E w ->. cbn in E. apply String.eqb_eq in E. now symmetry.
Qed.

(** X11.  Every listing on a page of [GET /jobs] has exactly the requested
    type, and exactly the requested state, qualification and department
    where the parameter, trimmed, is not empty: these three are compared
    with the trimmed parameter character by character, letter case
    included. *)
Theorem page_items_match (rq : Query.t) (store : list Job.t) (r : Response)
  (items : list Job.t) (total : nat) (page limit pages : number) :
  getJobs rq store = Some r ->
  payload r = ListBody items total page limit pages ->
  Forall (fun d =>
    In d store /\
    Job.type d = Js.orDefault (Query.type rq) "job" /\
    (forall s, Query.state rq = Some s -> Js.trim s <> "" -> Job.state d = Js.trim s) /\
    (forall s, Query.qualification rq = Some s -> Js.trim s <> "" ->
               Job.qualification d = Js.trim s) /\
    (forall s, Query.department rq = Some s -> Js.trim s <> "" ->
               Job.department d = Js.trim s)) items.
Proof.
  intros G P. apply getJobs_inv in G. destruct G as (sk & lim & t & p & l & tp & ->).
  cbn [payload json reply] in P. injection P as <- _ _ _ _.
  apply Forall_forall. intros d Hd.
  apply window_incl, sortNewestFirst_In, filter_In in Hd. destruct Hd as [I S].
  apply selects_fields in S. unfold matchesFields in S.
  repeat (apply andb_prop in S; destruct S as [S ?]).
  assert (T : forall v s, v = Some s -> Js.trim s <> "" ->
                          trimmedParam v = Some (Js.trim s)).
  { intros v s -> NE. unfold trimmedParam. apply truthy_true in NE. now rewrite NE. }
  split; [exact I|]. split; [|split; [|split]].
  - apply String.eqb_eq in S. now symmetry.
  - intros s Q NE. eapply equalsIfSet_spec; [eassumption|].
    cbn [buildFilter Filter.state]. now apply T.
  - intros s Q NE. eapply equalsIfSet_spec; [eassumption|].
    cbn [buildFilter Filter.qualification]. now apply T.
  - intros s Q NE. eapply equalsIfSet_spec; [eassumption|].
    cbn [buildFilter Filter.department]. now apply T.
Qed.

Lemma page_items_match_witness :
  Forall (fun d => In d [Sample.job "a" "A" false 1] /\ Job.type d = "job")
         [Sample.job "a" "A" false 1].
Proof.
  pose proof (page_items_match Sample.query [Sample.job "a" "A" false 1]
                (json (ListBody [Sample.job "a" "A" false 1] 1
                         (Finite 1) (Finite 20) (Finite 1)))
                [Sample.job "a" "A" false 1] 1 (Finite 1) (Finite 20) (Finite 1)
                eq_refl eq_refl) as F.
  eapply Forall_impl; [|exact F]. intros d (I & T & _). split; assumption.
Defined.

(** ** Reading every page *)

Lemma firstn_plus {A} a b (l : list A) :
  firstn (a + b) l = firstn a l ++ firstn b (skipn a l).
Proof.
  revert l. induction a as [|a IH]; intros l; [reflexivity|].
  destruct l as [|x t]; [cbn [skipn]; now rewrite !firstn_nil|].
  cbn [Nat.add firstn skipn app]. now rewrite IH.
Qed.

Lemma chunks_up_to {A} n (l : list A) k :
  flat_map (fun p => firstn n (skipn ((p - 1) * n) l)) (seq 1 k) = firstn (k * n) l.
Proof.
  induction k as [|k IH]; [reflexivity|].
  rewrite seq_S, flat_map_app, IH. cbn [flat_map]. rewrite app_nil_r.
  replace ((1 + k - 1) * n) with (k * n) by lia.
  replace (S k * n) with (k * n + n) by lia.
  now rewrite firstn_plus.
Qed.

Local Open Scope Q_scope.

Lemma toCount_value x z :
  x == inject_Z z -> (0 <= z)%Z -> Num.toCount (Finite x) = Some (Z.to_nat z).
Proof.
  intros E P. cbn [Num.toCount].
  assert (F : Qfloor x = z) by (rewrite E; apply Qfloor_Z).
  rewrite F. apply Z.leb_le in P. rewrite P.
  replace (Qeq_bool x (inject_Z z)) with true; [reflexivity|].
  symmetry. now apply Qeq_bool_iff.
Qed.

Lemma pageSafe_withPage rq p :
  (1 <= p)%nat -> pageSafe (withPage rq p) = Finite (inject_Z (Z.of_nat p)).
Proof.
  intros P. unfold pageSafe, pageOf, withPage. cbn [Query.page Num.ofNat Num.ofZ Num.isFinite].
  change (Finite (if Qle_bool (inject_Z (Z.of_nat p)) (inject_Z 1)
                  then inject_Z 1 else inject_Z (Z.of_nat p))
          = Finite (inject_Z (Z.of_nat p))).
  destruct (Qle_bool (inject_Z (Z.of_nat p)) (inject_Z 1)) eqn:E; [|reflexivity].
  apply Qle_bool_iff in E. rewrite <- Zle_Qle in E.
  replace (Z.of_nat p) with 1%Z by lia. reflexivity.
Qed.

(** The page [p] of a query with a whole limit [n]. *)
Lemma getJobs_page rq store n p :
  Num.toCount (limitSafe rq) = Some n -> (1 <= p)%nat ->
  itemsOf (getJobs (withPage rq p) store)
  = firstn n (skipn ((p - 1) * n)
                (sortNewestFirst (filter (selects (buildFilter rq)) store))).
Proof.
  intros L P.
  destruct (Job_find_total rq store) as (found & F).
  pose proof (Job_find_selects _ _ _ F) as ->.
  apply toCount_spec in L. destruct L as (l & El & Eq).
  unfold getJobs, skip.
  change (limitSafe (withPage rq p)) with (limitSafe rq).
  change (buildFilter (withPage rq p)) with (buildFilter rq).
  rewrite (pageSafe_withPage rq p P), El, F.
  change (Num.mul (Num.sub (Finite (inject_Z (Z.of_nat p))) (Num.ofZ 1)) (Finite l))
    with (Finite ((inject_Z (Z.of_nat p) + - inject_Z 1) * l)).
  assert (Sk : (inject_Z (Z.of_nat p) + - inject_Z 1) * l
               == inject_Z (Z.of_nat ((p - 1) * n))).
  { transitivity ((inject_Z (Z.of_nat p) + - inject_Z 1) * inject_Z (Z.of_nat n)).
    - apply Qmult_comp; [reflexivity | now symmetry].
    - rewrite <- inject_Z_opp, <- inject_Z_plus, <- inject_Z_mult.
      apply inject_Z_injective.
      rewrite Nat2Z.inj_mul, Nat2Z.inj_sub by exact P.
      change (Z.of_nat 1) with 1%Z. ring. }
  rewrite (toCount_value _ _ Sk) by apply Nat2Z.is_nonneg.
  rewrite (toCount_value l (Z.of_nat n)) by (try lia; now symmetry).
  rewrite !Nat2Z.id. reflexivity.
Qed.

(** X12.  With a whole [limit], the pages of [GET /jobs] are consecutive
    windows of one list, the matches newest first: pages 1 to [k] put end to
    end are its first [k * limit] elements, the pages up to the reported
    [totalPages] are the whole list, each match once, and a page past the
    end is empty. *)
Theorem pages_cover (rq : Query.t) (store : list Job.t) (n : nat) :
  Num.toCount (limitSafe rq) = Some n ->
  let all := sortNewestFirst (filter (selects (buildFilter rq)) store) in
  (forall k, pagesUpTo rq store k = firstn (k * n) all) /\
  (exists tp : nat,
     (exists r items total page limit,
        getJobs (withPage rq 1) store = Some r /\
        payload r = ListBody items total page limit (Num.ofNat tp)) /\
     pagesUpTo rq store tp = all) /\
  (forall p, (List.length all <= p * n)%nat ->
             itemsOf (getJobs (withPage rq (S p)) store) = []).
Proof.
  intros L all.
  assert (Pages : forall k, pagesUpTo rq store k = firstn (k * n) all).
  { intros k. unfold pagesUpTo. rewrite <- chunks_up_to.
    rewrite !flat_map_concat_map. f_equal.
    apply map_ext_in. intros p Hp. apply in_seq in Hp.
    apply getJobs_page; [exact L | lia]. }
  split; [exact Pages|]. split.
  - pose proof L as L'. apply toCount_spec in L'. destruct L' as (l & El & Eq).
    destruct (limitSafe_finite rq) as (l' & El' & L1 & _).
    rewrite El in El'. injection El' as <-.
    destruct (pages_spec (List.length (filter (selects (buildFilter rq)) store)) l L1)
      as (P1 & P2 & P3 & _).
    set (tpz := Z.max (Qceiling (inject_Z (Z.of_nat
                  (List.length (filter (selects (buildFilter rq)) store))) / l)) 1) in *.
    exists (Z.to_nat tpz). split.
    + destruct (Job_find_total rq store) as (found & F).
      pose proof (Job_find_selects _ _ _ F) as E. 
      unfold getJobs, skip.
      change (limitSafe (withPage rq 1)) with (limitSafe rq).
      change (buildFilter (withPage rq 1)) with (buildFilter rq).
      rewrite (pageSafe_withPage rq 1 (le_n 1)), El, F.
      change (Num.mul (Num.sub (Finite (inject_Z (Z.of_nat 1))) (Num.ofZ 1)) (Finite l))
        with (Finite ((inject_Z 1 + - inject_Z 1) * l)).
      rewrite (toCount_value _ 0%Z) by (try lia; ring).
      rewrite (toCount_value l (Z.of_nat n)) by (try lia; now symmetry).
      rewrite E, P1. eexists _, _, _, _, _. split; [reflexivity|].
      cbn [payload json reply]. unfold Num.ofNat. now rewrite Z2Nat.id by lia.
    + rewrite Pages. apply firstn_all2. unfold all. rewrite sortNewestFirst_length.
      assert (P4 : inject_Z (Z.of_nat (List.length (filter (selects (buildFilter rq)) store)))
                   <= inject_Z tpz * inject_Z (Z.of_nat n)).
      { eapply Qle_trans; [exact P3|]. apply Qle_lteq. right.
        apply Qmult_comp; [reflexivity | now symmetry]. }
      rewrite <- inject_Z_mult, <- Zle_Qle in P4. nia.
  - intros p Short. rewrite (getJobs_page rq store n (S p) L) by lia.
    fold all. replace (S p - 1)%nat with p by lia.
    now rewrite skipn_all2, firstn_nil.
Qed.

Local Close Scope Q_scope.

Lemma pages_cover_witness :
  pagesUpTo (Sample.paged None (Some (Num.ofZ 2)))
            [ Sample.job "a" "A" false 1; Sample.job "b" "B" false 4;
              Sample.job "c" "C" true 3; Sample.job "d" "D" false 2 ] 2
  = firstn (2 * 2)
      (sortNewestFirst (filter (selects (buildFilter (Sample.paged None (Some (Num.ofZ 2)))))
         [ Sample.job "a" "A" false 1; Sample.job "b" "B" false 4;
           Sample.job "c" "C" true 3; Sample.job "d" "D" false 2 ])).
Proof.
  apply (proj1 (pages_cover (Sample.paged None (Some (Num.ofZ 2)))
                  [ Sample.job "a" "A" false 1; Sample.job "b" "B" false 4;
                    Sample.job "c" "C" true 3; Sample.job "d" "D" false 2 ] 2 eq_refl)).
Defined.

Example three_matches_on_two_pages :
  map Job.slug
    (pagesUpTo (Sample.paged None (Some (Num.ofZ 2)))
       [ Sample.job "a" "A" false 1; Sample.job "b" "B" false 4;
         Sample.job "c" "C" true 3; Sample.job "d" "D" false 2 ] 2)
  = ["b"; "d"; "a"].
Proof. reflexivity. Qed.

(** ** Accounts: registering, logging in, the session *)

(** X13.  An account that [POST /register] created can log in: with a hasher
    whose [verifyPassword] accepts the hash of this password, the login with
    the same password and the same address, in any letter case, answers 200
    with the cookie of a token signed for the new user, whose role is
    ["user"] and whose address is the lower-cased one. *)
Theorem register_then_login `{AuthLib} `{Runtime} (env : Env) (req req' : Request)
  (users : list User.t) (name email password email' : string) :
  verifyPassword password (hashPassword (salt env) password) = true ->
  parseRegister (body req) = Some (name, email, password) ->
  fst (register env req users) = reply 201 OkBody ->
  parseLogin (body req') = Some (email', password) ->
  Js.toLowerCase email' = Js.toLowerCase email ->
  exists user,
    snd (register env req users) = users ++ [user] /\
    User.email user = Js.toLowerCase email /\
    User.role user = "user" /\
    Claims.role (claimsOf user) = "user" /\
    login req' (snd (register env req users))
    = {| status := 200; payload := OkBody;
         setCookie := Some (createAuthCookie (signAuthToken (claimsOf user))) |}.
Proof.
  intros Hash Reg Created Log Same.
  pose proof (parseRegister_email _ _ _ _ Reg) as Em.
  unfold register, registerAt in *. rewrite Reg in *.
  destruct (User_exists users (Js.toLowerCase email)) eqn:Ex;
    [cbn [fst] in Created; discriminate|].
  pose proof (User_create_cases env (Js.trim name) (Js.toLowerCase email)
                (hashPassword (salt env) password) "user" users) as Cases.
  cbv zeta in Cases.
  set (doc := castUser env (Js.trim name) (Js.toLowerCase email)
                (hashPassword (salt env) password) "user") in *.
  assert (Ed : User.email doc = Js.toLowerCase email) by apply (stored_email email Em).
  destruct Cases as [[C _]|[[C _]|[C Free]]]; rewrite C in *;
    try (cbn [fst] in Created; discriminate).
  cbn [fst snd]. exists doc. split; [reflexivity|]. split; [exact Ed|].
  split; [reflexivity|]. split; [reflexivity|].
  unfold login. rewrite Log, Same.
  unfold User_findOne. rewrite find_app_new.
  - change (User.password doc) with (hashPassword (salt env) password).
    rewrite Hash. reflexivity.
  - intros y Hy. apply String.eqb_neq. intros E. apply Free. rewrite Ed, <- E.
    now apply in_map.
  - apply String.eqb_eq. exact Ed.
Qed.

Lemma register_then_login_witness :
  exists user,
    snd (@register Sample.auth Sample.runtime (Sample.env 7)
           (Sample.credentials "Asha" "Asha@Example.org" "longpassword") [])
    = [] ++ [user] /\
    User.email user = Js.toLowerCase "Asha@Example.org" /\
    User.role user = "user" /\
    Claims.role (claimsOf user) = "user" /\
    @login Sample.auth Sample.runtime
      (Sample.credentials "" "ASHA@example.org" "longpassword")
      (snd (@register Sample.auth Sample.runtime (Sample.env 7)
              (Sample.credentials "Asha" "Asha@Example.org" "longpassword") []))
    = {| status := 200; payload := OkBody;
         setCookie := Some (@createAuthCookie Sample.auth
                              (@signAuthToken Sample.auth (claimsOf user))) |}.
Proof.
  apply (@register_then_login Sample.auth Sample.runtime (Sample.env 7)
           (Sample.credentials "Asha" "Asha@Example.org" "longpassword")
           (Sample.credentials "" "ASHA@example.org" "longpassword")
           [] "Asha" "Asha@Example.org" "longpassword" "ASHA@example.org");
    reflexivity.
Defined.

(** X14.  The gate and [GET /me] read the session the same way: the gate
    lets a request through with claims [c] exactly when [/me] reports it
    authenticated as [c] and [c] has the role ["admin"]; it answers 401
    exactly when [/me] reports it not authenticated; and [/me] itself never
    refuses, it always sends its 200 body. *)
Theorem gate_agrees_with_me `{AuthLib} (req : Request) :
  (forall c, requireAdmin req = Next c <->
             me req = Sent (Me (Some c)) /\ Claims.role c = "admin") /\
  (requireAdmin req = Respond unauthorized <-> me req = Sent (Me None)) /\
  (forall c, me req = Sent (Me (Some c)) -> Claims.role c <> "admin" ->
             requireAdmin req = Respond forbidden) /\
  (exists u, me req = Sent (Me u)).
Proof.
  unfold requireAdmin, me, unauthorized, forbidden.
  destruct (getTokenFromRequest req) as [token|].
  2:{ repeat split; try easy. now exists None. }
  destruct (negb (Js.truthy token)).
  { repeat split; try easy. now exists None. }
  destruct (verifyAuthToken token) as [payload|e].
  2:{ repeat split; try easy. now exists None. }
  destruct (Claims.role payload =? "admin") eqn:R; cbn [negb].
  - apply String.eqb_eq in R. split; [|split; [|split]].
    + intros c. split.
      * intros [= <-]. now split.
      * intros [[= <-] _]. reflexivity.
    + split; discriminate.
    + intros c [= <-] N. contradiction.
    + now exists (Some payload).
  - apply String.eqb_neq in R. split; [|split; [|split]].
    + intros c. split; [discriminate|]. intros [[= <-] A]. contradiction.
    + split; discriminate.
    + reflexivity.
    + now exists (Some payload).
Qed.

(** ** The first administrator ([POST /api/admin/setup]) *)

Lemma zString_min n v s : zString n v = Some s -> (n <= String.length s)%nat.
Proof.
  unfold zString. destruct v as [[| | |t| |]|]; try discriminate.
  destruct (n <=? String.length t)%nat eqn:E; [|discriminate].
  intros [= <-]. now apply Nat.leb_le.
Qed.

Lemma parseSetup_fields `{Runtime} b token email password :
  parseSetup b = Some (token, email, password) ->
  token <> "" /\ isEmail email = true /\ (10 <= String.length password)%nat.
Proof.
  unfold parseSetup. destruct b as [| | | | |o]; try discriminate.
  destruct (zString 1 (prop "token" o)) as [t|] eqn:T; [|discriminate].
  destruct (zEmail (prop "email" o)) as [e|] eqn:E; [|discriminate].
  destruct (zString 10 (prop "password" o)) as [p|] eqn:P; [|discriminate].
  intros [= <- <- <-]. apply zString_min in T, P. apply zEmail_accepts in E.
  split; [|now split]. intros ->. cbn in T. lia.
Qed.

(** X15.  [POST /setup] fails closed.  While [ADMIN_SETUP_TOKEN] is unset or
    empty every request is answered 400 and the collection stays as it was.
    The collection changes only for a body whose [token] is the configured
    one and whose address is free; then exactly one user is appended, named
    ["Admin"], with the role ["admin"], the lower-cased address and the
    hashed password, and the answer is [{ ok: true }]. *)
Theorem setup_fails_closed `{AuthLib} `{Runtime} (configured : option string)
  (env : Env) (req : Request) (users : list User.t) :
  let out := setup configured env req users in
  (isSet configured = false ->
   snd out = users /\ exists b, fst out = Some (reply 400 (ErrorBody b))) /\
  (snd out = users \/
   exists token email password admin,
     parseSetup (body req) = Some (token, email, password) /\
     configured = Some token /\
     ~ In (Js.toLowerCase email) (map User.email users) /\
     fst out = Some (json OkBody) /\
     snd out = users ++ [admin] /\
     User.name admin = "Admin" /\ User.role admin = "admin" /\
     User.email admin = Js.toLowerCase email /\
     User.password admin = hashPassword (salt env) password) /\
  (fst out = Some (json OkBody) -> List.length (snd out) = S (List.length users)).
Proof.
  cbv zeta. unfold setup.
  destruct (parseSetup (body req)) as [[[token email] password]|] eqn:P.
  2:{ split; [|split]; [intros _; split; [reflexivity | now eexists] | now left | discriminate]. }
  destruct (parseSetup_fields _ _ _ _ P) as (_ & Em & _).
  destruct (isSet configured) eqn:S; cbn [negb].
  2:{ split; [|split]; [intros _; split; [reflexivity | now eexists] | now left | discriminate]. }
  split; [discriminate|].
  destruct (sameAs token configured) eqn:Eq; cbn [negb].
  2:{ split; [now left | discriminate]. }
  destruct (User_exists users (Js.toLowerCase email)) eqn:Ex.
  { split; [now left | discriminate]. }
  pose proof (User_create_cases env "Admin" (Js.toLowerCase email)
                (hashPassword (salt env) password) "admin" users) as Cases.
  cbv zeta in Cases.
  set (doc := castUser env "Admin" (Js.toLowerCase email)
                (hashPassword (salt env) password) "admin") in *.
  assert (Ed : User.email doc = Js.toLowerCase email) by apply (stored_email email Em).
  destruct Cases as [[C _]|[[C _]|[C Free]]]; rewrite C.
  - split; [now left | discriminate].
  - split; [now left | discriminate].
  - cbn [fst snd]. split.
    + right. exists token, email, password, doc.
      split; [reflexivity|]. split.
      { destruct configured as [s|]; [|discriminate]. cbn [sameAs] in Eq.
        apply String.eqb_eq in Eq. now subst. }
      split; [now rewrite <- Ed|].
      repeat (split; [reflexivity|]). split; [exact Ed | reflexivity].
    + intros _. rewrite length_app. cbn [List.length]. lia.
Qed.

(** ** The cron gate ([routes/cron.ts]) *)

Lemma startsWithChars_spec n h :
  startsWithChars n h = true <-> exists r, h = n ++ r.
Proof.
  revert h. induction n as [|a n IH]; intros h; cbn [startsWithChars].
  - split; [intros _; now exists h | reflexivity].
  - destruct h as [|b h].
    + split; [discriminate | intros (r & E); discriminate].
    + rewrite andb_true_iff, IH, Ascii.eqb_eq. split.
      * intros (-> & r & ->). now exists r.
      * intros (r & [= -> ->]). split; [reflexivity | now exists r].
Qed.

Lemma startsWith_slice p s rest :
  (startsWith p s = true /\ slice (String.length p) s = rest) <-> s = (p ++ rest)%string.
Proof.
  unfold startsWith, slice. rewrite startsWithChars_spec. split.
  - intros ((r & E) & <-). apply chars_inj.
    rewrite chars_app, chars_str, E, <- chars_length, skipn_app, skipn_all, Nat.sub_diag.
    reflexivity.
  - intros ->. rewrite chars_app, <- chars_length. split.
    + now exists (Js.chars rest).
    + rewrite skipn_app, skipn_all, Nat.sub_diag. cbn [skipn app]. apply str_chars.
Qed.

(** X16.  Who may run the cron job.  A user agent that contains
    ["vercel-cron/1.0"] is let in whatever else the request carries, even
    when no secret is configured.  Any other request is let in exactly when
    a non-empty secret is configured and either the [authorization] header
    is ["Bearer "] followed by the secret, or that header does not start
    with ["Bearer "] and the query's [token] is the secret: a header that
    starts with ["Bearer "] decides alone. *)
Theorem cron_gate (configured : option string) (req : Request)
  (queryToken : option string) :
  let ua := Js.orDefault (header "user-agent" req) "" in
  let authorization := Js.orDefault (header "authorization" req) "" in
  (includes "vercel-cron/1.0" ua = true ->
   isAuthorized configured req queryToken = true) /\
  (includes "vercel-cron/1.0" ua = false ->
   (isAuthorized configured req queryToken = true <->
    exists secret, configured = Some secret /\ secret <> "" /\
      (authorization = ("Bearer " ++ secret)%string \/
       (startsWith "Bearer " authorization = false /\ queryToken = Some secret)))).
Proof.
  cbv zeta. unfold isAuthorized.
  destruct (includes "vercel-cron/1.0" (Js.orDefault (header "user-agent" req) "")).
  { split; [reflexivity | discriminate]. }
  split; [discriminate|]. intros _.
  set (h := Js.orDefault (header "authorization" req) "").
  destruct configured as [secret|]; cbn [isSet sameAs negb].
  2:{ split; [discriminate | intros (s & E & _); discriminate]. }
  destruct (Js.truthy secret) eqn:T; cbn [negb].
  2:{ split; [discriminate|]. intros (s & [= <-] & N & _).
      apply truthy_false in T. contradiction. }
  apply truthy_true in T.
  destruct (startsWith "Bearer " h) eqn:B.
  - split.
    + intros E. apply String.eqb_eq in E. exists secret.
      split; [reflexivity|]. split; [exact T|]. left.
      apply (startsWith_slice "Bearer " h secret). now split.
    + intros (s & [= <-] & _ & [E|[F _]]); [|discriminate].
      apply String.eqb_eq.
      now apply (startsWith_slice "Bearer " h secret) in E.
  - split.
    + destruct queryToken as [t|].
      * destruct (Js.truthy t && (t =? secret)) eqn:E; [|discriminate].
        intros _. apply andb_true_iff in E. destruct E as [_ E].
        apply String.eqb_eq in E. subst t. exists secret.
        split; [reflexivity|]. split; [exact T|]. right. now split.
      * cbn. discriminate.
    + intros (s & [= <-] & _ & [E|[_ ->]]).
      * apply (startsWith_slice "Bearer " h secret) in E. destruct E as [E _].
        rewrite E in B. discriminate.
      * rewrite String.eqb_refl. apply truthy_true in T. now rewrite T.
Qed.

Lemma cron_gate_witness :
  isAuthorized None
    {| headers := [("user-agent", "Mozilla vercel-cron/1.0")]; body := JNull |}
    (Some "guess") = true.
Proof.
  apply (proj1 (cron_gate None
    {| headers := [("user-agent", "Mozilla vercel-cron/1.0")]; body := JNull |}
    (Some "guess"))).
  reflexivity.
Defined.

Example bearer_header_hides_query_token :
  isAuthorized (Some "0123456789abcdef")
    {| headers := [("authorization", "Bearer wrong")]; body := JNull |}
    (Some "0123456789abcdef") = false.
Proof. reflexivity. Qed.

(** ** Settings ([env.ts]) *)

Lemma trimEnd_trimmed l :
  Js.trimEnd (Js.trimStart (Js.trimEnd (Js.trimStart l))) = Js.trimEnd (Js.trimStart l).
Proof.
  destruct (trimmed_edges l) as [E|(first & last & mid & mid' & E1 & E2 & F & L)];
    cbv zeta in *.
  - rewrite E. reflexivity.
  - assert (S : Js.trimStart (Js.trimEnd (Js.trimStart l)) = Js.trimEnd (Js.trimStart l)).
    { rewrite E1. unfold Js.trimStart at 1. cbn [Js.dropWhile]. now rewrite F. }
    rewrite S, E2. unfold Js.trimEnd at 1.
    rewrite rev_app_distr. cbn [rev app Js.dropWhile]. rewrite L.
    cbn [rev]. now rewrite rev_involutive.
Qed.

Lemma trim_idempotent s : Js.trim (Js.trim s) = Js.trim s.
Proof.
  apply chars_inj. rewrite !trim_chars. apply trimEnd_trimmed.
Qed.

Lemma length_zero_empty s : String.length s = 0%nat <-> s = "".
Proof. destruct s; cbn; split; intros E; try reflexivity; discriminate. Qed.

(** X17.  An optional secret of the environment
    ([ADMIN_SETUP_TOKEN], [CRON_SCRAPE_TOKEN]).  A variable that is missing
    or holds only white space counts as unset, whatever the minimum.  A
    value that passes is the variable trimmed, is not empty, has at least
    the minimum length and passes again unchanged; so a secret the program
    holds is always truthy.  A variable is refused exactly when its trimmed
    text is not empty and shorter than the minimum. *)
Theorem optional_secret_cases (n : nat) (raw : option string) :
  (optionalSecret n raw = Valid None <->
   raw = None \/ exists s, raw = Some s /\ Js.trim s = "") /\
  (forall v, optionalSecret n raw = Valid (Some v) ->
     (exists s, raw = Some s /\ v = Js.trim s) /\
     (n <= String.length v)%nat /\ isSet (Some v) = true /\
     optionalSecret n (Some v) = Valid (Some v)) /\
  (optionalSecret n raw = Issue <->
   exists s, raw = Some s /\ Js.trim s <> "" /\ (String.length (Js.trim s) < n)%nat).
Proof.
  unfold optionalSecret, emptyToUndefined.
  destruct raw as [s|].
  2:{ split; [|split].
      - split; [now left | reflexivity].
      - discriminate.
      - split; [discriminate | intros (s & E & _); discriminate]. }
  destruct (0 <? String.length (Js.trim s))%nat eqn:Z.
  - apply Nat.ltb_lt in Z.
    assert (NE : Js.trim s <> "") by (intros E; rewrite E in Z; cbn in Z; lia).
    destruct (n <=? String.length (Js.trim s))%nat eqn:M.
    + apply Nat.leb_le in M. split; [|split].
      * split; [discriminate|]. intros [E|(s' & [= <-] & E)]; [discriminate | contradiction].
      * intros v [= <-]. split; [now exists s|]. split; [exact M|].
        split; [now apply truthy_true|].
        rewrite trim_idempotent.
        apply Nat.ltb_lt in Z. rewrite Z. apply Nat.leb_le in M. now rewrite M.
      * split; [discriminate|]. intros (s' & [= <-] & _ & L). lia.
    + apply Nat.leb_gt in M. split; [|split].
      * split; [discriminate|]. intros [E|(s' & [= <-] & E)]; [discriminate | contradiction].
      * discriminate.
      * split; [|reflexivity]. intros _. now exists s.
  - apply Nat.ltb_ge in Z. assert (E : Js.trim s = "") by (apply length_zero_empty; lia).
    split; [|split].
    + split; [|reflexivity]. intros _. right. now exists s.
    + discriminate.
    + split; [discriminate|]. intros (s' & [= <-] & NE & _). contradiction.
Qed.

(** X18.  A blank [ADMIN_SETUP_TOKEN] closes the setup route: when the
    variable is missing or holds only white space, the parsed setting is
    unset and [POST /setup] answers 400 to every request and creates no
    user. *)
Theorem blank_setup_token_closes_setup `{AuthLib} `{Runtime} (raw : option string)
  (env : Env) (req : Request) (users : list User.t) :
  (raw = None \/ exists s, raw = Some s /\ Js.trim s = "") ->
  exists configured,
    adminSetupTokenField raw = Valid configured /\
    snd (setup configured env req users) = users /\
    exists b, fst (setup configured env req users) = Some (reply 400 (ErrorBody b)).
Proof.
  intros Blank. exists None. split.
  - unfold adminSetupTokenField, optionalSecret, emptyToUndefined.
    destruct Blank as [->|(s & -> & E)]; [reflexivity|]. now rewrite E.
  - unfold setup. destruct (parseSetup (body req)) as [[[token email] password]|].
    + cbn [isSet negb fst snd]. split; [reflexivity | now eexists].
    + cbn [fst snd]. split; [reflexivity | now eexists].
Qed.

Lemma blank_setup_token_closes_setup_witness :
  exists configured,
    adminSetupTokenField (Some "   ") = Valid configured /\
    snd (@setup Sample.auth Sample.runtime configured (Sample.env 1)
           {| headers := [];
              body := JObj [("token", JStr "   "); ("email", JStr "a@b.org");
                            ("password", JStr "0123456789")] |} []) = [] /\
    exists b,
      fst (@setup Sample.auth Sample.runtime configured (Sample.env 1)
             {| headers := [];
                body := JObj [("token", JStr "   "); ("email", JStr "a@b.org");
                              ("password", JStr "0123456789")] |} [])
      = Some (reply 400 (ErrorBody b)).
Proof.
  apply (@blank_setup_token_closes_setup Sample.auth Sample.runtime (Some "   ")
           (Sample.env 1)
           {| headers := [];
              body := JObj [("token", JStr "   "); ("email", JStr "a@b.org");
                            ("password", JStr "0123456789")] |} []).
  right. exists "   "%string. split; reflexivity.
Defined.

(** ** The connection cache ([db.ts]) *)

Lemma dbStep_invariant e s s' :
  dbStep e s = Some s' -> dbInvariant s ->
  dbInvariant s' /\
  callers s' = ((if isCall e then 1 else 0) + callers s)%nat.
Proof.
  unfold dbInvariant, callers.
  destruct s as [c p k a r t]. destruct e as [|ok|]; cbn [dbStep conn promise connects
    awaiting returned thrown isCall].
  - destruct c.
    + intros [= <-]. cbn [promise connects conn awaiting returned thrown].
      destruct p as [[| |]|]; intros I; split; try lia; intuition (try discriminate; try lia).
    + destruct p as [[| |]|]; intros [= <-];
        cbn [promise connects conn awaiting returned thrown];
        intros I; split; try lia; intuition (try discriminate; try lia).
  - destruct p as [[| |]|]; try discriminate. intros [= <-].
    cbn [promise connects conn awaiting returned thrown].
    destruct ok; intros I; split; try lia; intuition (try discriminate; try lia).
  - destruct a as [|a]; [discriminate|].
    destruct p as [[| |]|]; try discriminate; intros [= <-];
      cbn [promise connects conn awaiting returned thrown];
      intros I; split; try lia; intuition (try discriminate; try lia).
Qed.

Lemma dbRun_invariant events s s' :
  dbRun events s = Some s' -> dbInvariant s ->
  dbInvariant s' /\
  callers s' = (List.length (filter isCall events) + callers s)%nat.
Proof.
  revert s. induction events as [|e rest IH]; intros s; cbn [dbRun filter].
  - intros [= <-] I. now split.
  - destruct (dbStep e s) as [s1|] eqn:St; [|discriminate].
    intros R I. destruct (dbStep_invariant _ _ _ St I) as [I1 C1].
    destruct (IH _ R I1) as [I' C']. split; [exact I'|].
    rewrite C', C1. destruct (isCall e); cbn [List.length]; lia.
Qed.

Lemma dbRun_app events more s :
  dbRun (events ++ more) s
  = match dbRun events s with Some s1 => dbRun more s1 | None => None end.
Proof.
  revert s. induction events as [|e rest IH]; intros s; cbn [app dbRun]; [reflexivity|].
  destruct (dbStep e s); [apply IH | reflexivity].
Qed.

(** X19.  [connectToDatabase] under any interleaving of calls, the outcome
    of the connection and the resumption of suspended callers, from a fresh
    process: [mongoose.connect] is called at most once, and exactly once as
    soon as there was a call; every call is suspended, has returned or has
    thrown; no history has both a call that returned and a call that threw;
    and once the connection has failed the failure stays: however the
    history goes on, no call ever returns and [connect] is not called
    again. *)
Theorem connects_once (events : list DbEvent) (s : Db) :
  dbRun events freshDb = Some s ->
  (connects s <= 1)%nat /\
  (filter isCall events <> [] -> connects s = 1%nat) /\
  List.length (filter isCall events) = (awaiting s + returned s + thrown s)%nat /\
  (returned s = 0%nat \/ thrown s = 0%nat) /\
  (promise s = Some Rejected ->
   forall more s', dbRun more s = Some s' ->
     promise s' = Some Rejected /\ returned s' = 0%nat /\ connects s' = 1%nat /\
     thrown s' = (List.length (filter isCall events ++ filter isCall more)
                  - awaiting s')%nat).
Proof.
  intros R.
  assert (I0 : dbInvariant freshDb) by (cbv; repeat split).
  destruct (dbRun_invariant _ _ _ R I0) as [I C].
  change (callers freshDb) with 0%nat in C. rewrite Nat.add_0_r in C.
  unfold callers in C.
  split; [|split; [|split; [|split]]].
  - unfold dbInvariant in I. destruct (promise s) as [[| |]|]; lia.
  - intros NE. unfold dbInvariant in I.
    destruct (promise s) as [[| |]|]; try lia.
    destruct (filter isCall events); [contradiction | cbn [List.length] in C; lia].
  - lia.
  - unfold dbInvariant in I. destruct (promise s) as [[| |]|]; lia.
  - intros Rej more s' R'.
    assert (Whole : dbRun (events ++ more) freshDb = Some s')
      by (now rewrite dbRun_app, R).
    destruct (dbRun_invariant _ _ _ Whole I0) as [I' C'].
    change (callers freshDb) with 0%nat in C'. rewrite Nat.add_0_r in C'.
    unfold callers in C'. rewrite filter_app in C'.
    assert (P' : promise s' = Some Rejected).
    { clear - R' Rej. revert s Rej R'.
      induction more as [|e rest IH]; intros s Rej; cbn [dbRun].
      - now intros [= <-].
      - destruct (dbStep e s) as [s1|] eqn:St; [|discriminate].
        apply IH. destruct s as [c p k a r t]. cbn [promise] in Rej. subst p.
        destruct e as [|ok|]; cbn [dbStep conn promise awaiting] in St.
        + destruct c; injection St as <-; reflexivity.
        + discriminate.
        + destruct a; [discriminate|]. injection St as <-. reflexivity. }
    unfold dbInvariant in I'. rewrite P' in I'.
    split; [exact P'|]. split; [tauto|]. split; [tauto|]. lia.
Qed.

Lemma connects_once_witness :
  (connects {| conn := false; promise := Some Rejected; connects := 1;
               awaiting := 1; returned := 0; thrown := 1 |} <= 1)%nat.
Proof.
  apply (proj1 (connects_once [Call; Call; Settle false; Resume]
    {| conn := false; promise := Some Rejected; connects := 1;
       awaiting := 1; returned := 0; thrown := 1 |} eq_refl)).
Defined.

Example two_callers_share_one_connect :
  option_map (fun s => (connects s, returned s, conn s))
    (dbRun [Call; Call; Settle true; Resume; Resume; Call] freshDb)
  = Some (1%nat, 3%nat, true).
Proof. reflexivity. Qed.

(** ** [PUT /api/admin/jobs/:id] *)

Lemma strict_refuses `{Runtime} o k :
  In k (map fst o) -> ~ In k updateKeys -> parseUpdate (JObj o) = None.
Proof.
  intros I N. unfold parseUpdate.
  replace (forallb (fun kv => existsb (String.eqb (fst kv)) updateKeys) o) with false;
    [reflexivity|].
  symmetry. apply not_true_is_false. intros F. rewrite forallb_forall in F.
  apply in_map_iff in I. destruct I as (kv & <- & Ikv).
  specialize (F kv Ikv). apply existsb_exists in F. destruct F as (x & Ix & E).
  apply String.eqb_eq in E. apply N. now rewrite E.
Qed.

(** X20.  An update cannot name a field outside the schema.  A body with a
    key that [updateSchema] does not list, such as [slug], [_id] or
    [createdAt], never reaches the store: the answer is the gate's refusal
    or 400 "Invalid input", and the collection is as it was.  The same
    holds of a body that is not an object. *)
Theorem update_is_strict `{AuthLib} `{Runtime} `{Updates} (req : Request) (id : string)
  (store : list Job.t) :
  (forall o, body req <> JObj o) \/
  (exists o k, body req = JObj o /\ In k (map fst o) /\ ~ In k updateKeys) ->
  snd (putJob req id store) = store /\
  (fst (putJob req id store) = unauthorized \/
   fst (putJob req id store) = forbidden \/
   fst (putJob req id store) = reply 400 (ErrorBody "Invalid input")) /\
  (forall c, requireAdmin req = Next c ->
             fst (putJob req id store) = reply 400 (ErrorBody "Invalid input")).
Proof.
  intros Bad.
  assert (P : parseUpdate (body req) = None).
  { destruct Bad as [N|(o & k & E & I & NI)].
    - unfold parseUpdate. destruct (body req) as [| | | | |o]; try reflexivity.
      now elim (N o).
    - rewrite E. now apply (strict_refuses o k). }
  unfold putJob. rewrite P.
  destruct (requireAdmin req) as [r|c] eqn:G; cbn [fst snd].
  - split; [reflexivity|]. split; [|discriminate].
    apply requireAdmin_refusals in G.
    destruct G as [G|G]; [left | right; left]; exact G.
  - split; [reflexivity|]. split; [now right; right | reflexivity].
Qed.

Lemma update_is_strict_witness :
  snd (@putJob Sample.auth Sample.runtime Sample.updates
         (Sample.adminReq (JObj [("title", JStr "New title"); ("slug", JStr "taken")]))
         "1" [Sample.job "a" "A" false 1])
  = [Sample.job "a" "A" false 1].
Proof.
  refine (proj1 (@update_is_strict Sample.auth Sample.runtime Sample.updates
           (Sample.adminReq (JObj [("title", JStr "New title"); ("slug", JStr "taken")]))
           "1" [Sample.job "a" "A" false 1] _)).
  right. exists [("title", JStr "New title"); ("slug", JStr "taken")], "slug"%string.
  split; [reflexivity|]. split; [right; left; reflexivity|].
  unfold updateKeys. cbn [In]. intuition discriminate.
Defined.

(** ** The latest listings and the first page *)

Lemma finite_limit_same rq :
  Num.isFinite (limitOf rq) = true -> latestLimit rq = limitSafe rq.
Proof. intros F. unfold latestLimit, limitSafe. now rewrite F. Qed.

(** X21.  With only [type] and a finite, whole [limit] in the query,
    [GET /jobs/latest] sends exactly the items of the first page of
    [GET /jobs] for the same query: the two routes clamp the limit alike
    and select and order alike. *)
Theorem latest_is_first_page `{Cursor} (type : option string) (limit : option number)
  (store : list Job.t) (n : nat) :
  let rq := {| Query.type := type; Query.q := None; Query.state := None;
               Query.qualification := None; Query.department := None;
               Query.includeExpired := None; Query.page := None;
               Query.limit := limit |} in
  Num.isFinite (limitOf rq) = true ->
  Num.toCount (limitSafe rq) = Some n ->
  getLatest rq store = Some (Sent (ItemsOnly (itemsOf (getJobs rq store)))).
Proof.
  intros rq F L.
  assert (Same : itemsOf (getJobs rq store) = itemsOf (getJobs (withPage rq 1) store)).
  { unfold getJobs, skip.
    change (limitSafe (withPage rq 1)) with (limitSafe rq).
    change (buildFilter (withPage rq 1)) with (buildFilter rq).
    change (pageSafe (withPage rq 1)) with (pageSafe rq).
    reflexivity. }
  rewrite Same, (getJobs_page rq store n 1 L (le_n 1)).
  unfold getLatest, Cursor_limit. rewrite (finite_limit_same rq F), L.
  rewrite Job_find_liveOfType. cbn [skipn Nat.sub Nat.mul].
  assert (Pos : (1 <= n)%nat).
  { destruct (limitSafe_finite rq) as (l & El & L1 & _).
    apply toCount_spec in L. destruct L as (l' & El' & Eq).
    rewrite El in El'. injection El' as <-.
    apply Nat2Z.inj_le. change (Z.of_nat 1) with 1%Z.
    rewrite Zle_Qle, Eq. exact L1. }
  destruct n as [|k]; [lia|]. reflexivity.
Qed.

Lemma latest_is_first_page_witness :
  @getLatest Sample.cursor (Sample.paged None (Some (Num.ofZ 2)))
    [ Sample.job "a" "A" false 1; Sample.job "b" "B" false 4;
      Sample.job "c" "C" true 3; Sample.job "d" "D" false 2 ]
  = Some (Sent (ItemsOnly (itemsOf (getJobs (Sample.paged None (Some (Num.ofZ 2)))
      [ Sample.job "a" "A" false 1; Sample.job "b" "B" false 4;
        Sample.job "c" "C" true 3; Sample.job "d" "D" false 2 ])))).
Proof.
  apply (@latest_is_first_page Sample.cursor None (Some (Num.ofZ 2))
    [ Sample.job "a" "A" false 1; Sample.job "b" "B" false 4;
      Sample.job "c" "C" true 3; Sample.job "d" "D" false 2 ] 2);
    reflexivity.
Defined.

(** ** Writes and the gate *)

Lemma requireAdmin_admin `{AuthLib} req c :
  requireAdmin req = Next c ->
  Claims.role c = "admin" /\
  exists token, getTokenFromRequest req = Some token /\ token <> "" /\
                verifyAuthToken token = Returns c.
Proof.
  unfold requireAdmin.
  destruct (getTokenFromRequest req) as [token|]; [|discriminate].
  destruct (Js.truthy token) eqn:T; cbn [negb]; [|discriminate].
  destruct (verifyAuthToken token) as [p|e] eqn:V; [|discriminate].
  destruct (Claims.role p =? "admin") eqn:R; cbn [negb]; [|discriminate].
  intros [= <-]. apply String.eqb_eq in R. split; [exact R|].
  exists token. split; [reflexivity|]. split; [now apply truthy_true | exact V].
Qed.

(** X22.  No write without an administrator.  Whenever one of the writing
    routes, [POST /jobs], [POST /api/admin/jobs], [PUT /api/admin/jobs/:id]
    or the two [DELETE]s, leaves the collection different from what it
    was, the request carried a token that is not empty, that verified, and
    whose claims have the role ["admin"]. *)
Theorem writes_need_admin `{AuthLib} `{Runtime} `{ObjectIds} `{Updates}
  (env : Env) (req : Request) (id : string) (store : list Job.t) :
  (exists r store', postJob env req store = Some (r, store') /\ store' <> store) \/
  (exists r store', postAdminJob env req store = Some (r, store') /\ store' <> store) \/
  snd (putJob req id store) <> store \/
  snd (deleteJob req id store) <> store ->
  exists token c,
    getTokenFromRequest req = Some token /\ token <> "" /\
    verifyAuthToken token = Returns c /\ Claims.role c = "admin".
Proof.
  intros Changed.
  assert (G : exists c, requireAdmin req = Next c).
  { destruct (requireAdmin req) as [r|c] eqn:G; [exfalso | now exists c].
    destruct Changed as [(r0 & s' & E & N)|[(r0 & s' & E & N)|[N|N]]].
    - unfold postJob in E. rewrite G in E. injection E as _ <-. now apply N.
    - unfold postAdminJob in E. rewrite G in E. injection E as _ <-. now apply N.
    - unfold putJob in N. rewrite G in N. now apply N.
    - unfold deleteJob in N. rewrite G in N. now apply N. }
  destruct G as (c & G). apply requireAdmin_admin in G.
  destruct G as (R & token & T & NE & V). now exists token, c.
Qed.

Lemma writes_need_admin_witness :
  exists token c,
    @getTokenFromRequest Sample.auth
      (Sample.adminReq (Sample.jobBody "Staff Nurse" "https://src.example.org/n" []))
    = Some token /\ token <> "" /\
    @verifyAuthToken Sample.auth token = Returns c /\ Claims.role c = "admin".
Proof.
  refine (@writes_need_admin Sample.auth Sample.runtime Sample.ids Sample.updates
            (Sample.env 5)
            (Sample.adminReq (Sample.jobBody "Staff Nurse" "https://src.example.org/n" []))
            "1" [] _).
  left. eexists _, _. split; [vm_compute; reflexivity | discriminate].
Defined.
